(** * Session lifecycle of the medical-system front end

    A shallow embedding of the client-side authentication code:
    - [src/context/AuthContext.tsx]  (session store: initialize, login, logout)
    - [src/api/axios.ts]             (HTTP client wrapper [apiClient])
    - [src/api/apiClient.ts]         (HTTP client wrapper [api];
                                      src/unnamed/part_013, the later of
                                      its two versions)
    - [PrivateRoute.tsx]             (route guard; src/unnamed/part_001)
    - [src/pages/Login/Login.tsx]    (login form, local admin token)
    - [src/hooks/useAuth.ts], [src/hooks/useApi.ts]   (context and fetch hooks)
    - [endpoints.ts] (src/unnamed/part_010) and the medical-history calls
      in the second part of src/api/axios.ts
    - [Header.tsx] (src/unnamed/part_015): the logout button
    - [src/utils/examinationUtils.ts]  (examination type names)
    - [src/pages/Dashboard/Dashboard.tsx]  (age statistics),
      [src/pages/MedicalHistories/MedicalHistories.tsx]  (list filter),
      [src/components/common/DataTable/DataTable.tsx]  (paging)

    Browser state ([localStorage], [window.location], the React state cells)
    is threaded explicitly through a state-and-exception monad; every
    primitive effect is also appended to a trace so that ordering can be
    stated. *)

From Stdlib Require Import ZArith QArith Qround String Ascii List Lia.
From Stdlib Require Import DecimalString DecimalZ DecimalPos DecimalFacts.
From stdpp Require Import base option gmap strings list.

Set Warnings "-register-all".
Local Open Scope Z_scope.
Local Open Scope string_scope.
Local Open Scope list_scope.

(** ** Library models: base64 and JSON

    The browser's [btoa], [atob] and [JSON] are no part of the
    repository.  They are modelled as executable functions on byte
    strings, so that the token the login page mints can be followed
    through them. *)

Definition chr_eq (c d : ascii) : bool := Ascii.eqb c d.

(** The double-quote character. *)
Definition dquote : ascii := "034"%char.
Definition backslash : ascii := "092"%char.

(** *** [btoa] and [atob] *)
Module Base64.

(** Six bits, most significant first. *)
Record sextet := Sextet { s5 : bool; s4 : bool; s3 : bool; s2 : bool; s1 : bool; s0 : bool }.

(** A byte written most significant bit first. *)
Definition byte (b7 b6 b5 b4 b3 b2 b1 b0 : bool) : ascii :=
  Ascii b0 b1 b2 b3 b4 b5 b6 b7.

Definition alphabet : list ascii :=
  list_ascii_of_string
    "ABCDEFGHIJKLMNOPQRSTUVWXYZabcdefghijklmnopqrstuvwxyz0123456789+/".

Definition index (s : sextet) : nat :=
  (if s5 s then 32 else 0) + (if s4 s then 16 else 0) + (if s3 s then 8 else 0) +
  (if s2 s then 4 else 0) + (if s1 s then 2 else 0) + (if s0 s then 1 else 0).

Definition sextet_of_N (n : N) : sextet :=
  Sextet (N.testbit n 5) (N.testbit n 4) (N.testbit n 3)
         (N.testbit n 2) (N.testbit n 1) (N.testbit n 0).

(** Alphabet character of a sextet. *)
Definition chr (s : sextet) : ascii := nth (index s) alphabet "="%char.

(** Sextet of an alphabet character. *)
Definition val (c : ascii) : option sextet :=
  let n := N_of_ascii c in
  if (65 <=? n)%N && (n <=? 90)%N then Some (sextet_of_N (n - 65))
  else if (97 <=? n)%N && (n <=? 122)%N then Some (sextet_of_N (n - 71))
  else if (48 <=? n)%N && (n <=? 57)%N then Some (sextet_of_N (n + 4))
  else if (n =? 43)%N then Some (sextet_of_N 62)
  else if (n =? 47)%N then Some (sextet_of_N 63)
  else None.

Definition hi6 (a : ascii) : sextet :=
  let 'Ascii a0 a1 a2 a3 a4 a5 a6 a7 := a in Sextet a7 a6 a5 a4 a3 a2.

Definition lo2_hi4 (a b : ascii) : sextet :=
  let 'Ascii a0 a1 _ _ _ _ _ _ := a in
  let 'Ascii _ _ _ _ b4 b5 b6 b7 := b in Sextet a1 a0 b7 b6 b5 b4.

Definition lo4_hi2 (b c : ascii) : sextet :=
  let 'Ascii b0 b1 b2 b3 _ _ _ _ := b in
  let 'Ascii _ _ _ _ _ _ c6 c7 := c in Sextet b3 b2 b1 b0 c7 c6.

Definition lo6 (c : ascii) : sextet :=
  let 'Ascii c0 c1 c2 c3 c4 c5 _ _ := c in Sextet c5 c4 c3 c2 c1 c0.

Definition pad : ascii := "="%char.

(** [btoa]: three bytes become four characters; a final group of one or
    two bytes is zero-filled and padded with [=]. *)
Fixpoint encode (l : list ascii) : list ascii :=
  match l with
  | [] => []
  | [a] => [chr (hi6 a); chr (lo2_hi4 a zero); pad; pad]
  | [a; b] => [chr (hi6 a); chr (lo2_hi4 a b); chr (lo4_hi2 b zero); pad]
  | a :: b :: c :: rest =>
      chr (hi6 a) :: chr (lo2_hi4 a b) :: chr (lo4_hi2 b c) :: chr (lo6 c) :: encode rest
  end.

Definition byte1 (x y : sextet) : ascii :=
  byte (s5 x) (s4 x) (s3 x) (s2 x) (s1 x) (s0 x) (s5 y) (s4 y).
Definition byte2 (y z : sextet) : ascii :=
  byte (s3 y) (s2 y) (s1 y) (s0 y) (s5 z) (s4 z) (s3 z) (s2 z).
Definition byte3 (z t : sextet) : ascii :=
  byte (s1 z) (s0 z) (s5 t) (s4 t) (s3 t) (s2 t) (s1 t) (s0 t).

Definition dec2 (c1 c2 : ascii) : option (list ascii) :=
  x ← val c1; y ← val c2; Some [byte1 x y].

Definition dec3 (c1 c2 c3 : ascii) : option (list ascii) :=
  x ← val c1; y ← val c2; z ← val c3; Some [byte1 x y; byte2 y z].

Definition dec4 (c1 c2 c3 c4 : ascii) (rest : option (list ascii)) : option (list ascii) :=
  x ← val c1; y ← val c2; z ← val c3; t ← val c4; r ← rest;
  Some (byte1 x y :: byte2 y z :: byte3 z t :: r).

(** Decoding proper, on whitespace-free input.  Groups of four are taken
    from the front, so a group that ends the input is the last group of
    an input whose length is a multiple of four: only there is padding
    accepted.  A remainder of two or three characters decodes without
    padding, a remainder of one is an error, and so is every character
    outside the alphabet. *)
Fixpoint decode (l : list ascii) : option (list ascii) :=
  match l with
  | [] => Some []
  | [_] => None
  | [c1; c2] => dec2 c1 c2
  | [c1; c2; c3] => dec3 c1 c2 c3
  | c1 :: c2 :: c3 :: c4 :: rest =>
      match rest with
      | [] =>
          if chr_eq c4 pad then
            if chr_eq c3 pad then dec2 c1 c2 else dec3 c1 c2 c3
          else dec4 c1 c2 c3 c4 (Some [])
      | _ => dec4 c1 c2 c3 c4 (decode rest)
      end
  end.

(** ASCII whitespace: tab, line feed, form feed, carriage return, space. *)
Definition is_ascii_whitespace (c : ascii) : bool :=
  let n := N_of_ascii c in
  (n =? 9)%N || (n =? 10)%N || (n =? 12)%N || (n =? 13)%N || (n =? 32)%N.

Definition btoa (s : list ascii) : list ascii := encode s.

(** [atob]: [None] stands for the thrown [InvalidCharacterError]. *)
Definition atob (s : list ascii) : option (list ascii) :=
  decode (List.filter (fun c => negb (is_ascii_whitespace c)) s).

(** The characters [btoa] produces. *)
Definition b64char (c : ascii) : Prop := c = pad \/ exists s, c = chr s.

End Base64.

(** *** [JSON.stringify] and [JSON.parse] *)
Module Json.

Inductive value :=
| Null
| Bool (b : bool)
| Number (q : Q)
| Str (s : string)
| Array (l : list value)
| Object (members : list (string * value)).

Definition is_ws (c : ascii) : bool :=
  let n := N_of_ascii c in
  (n =? 32)%N || (n =? 9)%N || (n =? 10)%N || (n =? 13)%N.

Fixpoint skip_ws (s : list ascii) : list ascii :=
  match s with
  | c :: r => if is_ws c then skip_ws r else s
  | [] => []
  end.

Definition is_digit (c : ascii) : bool :=
  let n := N_of_ascii c in (48 <=? n)%N && (n <=? 57)%N.

(** The longest prefix of digits, and what follows it. *)
Fixpoint span_digits (s : list ascii) : list ascii * list ascii :=
  match s with
  | c :: r =>
      if is_digit c then let '(ds, rest) := span_digits r in (c :: ds, rest)
      else ([], s)
  | [] => ([], [])
  end.

Definition digits_value (ds : list ascii) : option Z :=
  d ← NilEmpty.uint_of_string (string_of_list_ascii ds); Some (Z.of_uint d).

Definition hex_digit (c : ascii) : option N :=
  let n := N_of_ascii c in
  if (48 <=? n)%N && (n <=? 57)%N then Some (n - 48)%N
  else if (65 <=? n)%N && (n <=? 70)%N then Some (n - 55)%N
  else if (97 <=? n)%N && (n <=? 102)%N then Some (n - 87)%N
  else None.

(** The character a one-letter escape stands for. *)
Definition unescape (e : ascii) : option ascii :=
  if chr_eq e dquote then Some dquote
  else if chr_eq e backslash then Some backslash
  else if chr_eq e "/" then Some "/"%char
  else if chr_eq e "b" then Some "008"%char
  else if chr_eq e "f" then Some "012"%char
  else if chr_eq e "n" then Some "010"%char
  else if chr_eq e "r" then Some "013"%char
  else if chr_eq e "t" then Some "009"%char
  else None.

(** A string literal after its opening quote.  Strings are byte strings
    here: a [\u] escape above [ÿ] is rejected. *)
Fixpoint parse_string (s : list ascii) : option (list ascii * list ascii) :=
  match s with
  | [] => None
  | c :: r =>
      if chr_eq c dquote then Some ([], r)
      else if chr_eq c backslash then
        match r with
        | [] => None
        | e :: r1 =>
            if chr_eq e "u" then
              match r1 with
              | h1 :: h2 :: h3 :: h4 :: r2 =>
                  a ← hex_digit h1; b ← hex_digit h2;
                  c ← hex_digit h3; d ← hex_digit h4;
                  let code := (((a * 16 + b) * 16 + c) * 16 + d)%N in
                  if (code <? 256)%N then
                    '(str, rest) ← parse_string r2;
                    Some (ascii_of_N code :: str, rest)
                  else None
              | _ => None
              end
            else
              ch ← unescape e;
              '(str, rest) ← parse_string r1;
              Some (ch :: str, rest)
        end
      else if (N_of_ascii c <? 32)%N then None
      else
        '(str, rest) ← parse_string r;
        Some (c :: str, rest)
  end.

(** [-? int frac? exp?], without leading zeros in [int]. *)
Definition parse_int (s : list ascii) : option (Z * list ascii) :=
  let '(ds, rest) := span_digits s in
  match ds with
  | [] => None
  | d :: ds' =>
      if chr_eq d "0" && negb (bool_decide (ds' = [])) then None
      else v ← digits_value ds; Some (v, rest)
  end.

Definition parse_frac (q : Q) (s : list ascii) : option (Q * list ascii) :=
  match s with
  | c :: r =>
      if chr_eq c "." then
        let '(fs, rest) := span_digits r in
        match fs with
        | [] => None
        | _ => f ← digits_value fs;
               Some ((q + (f # Pos.pow 10 (Pos.of_nat (List.length fs))))%Q, rest)
        end
      else Some (q, s)
  | [] => Some (q, s)
  end.

Definition parse_exp (q : Q) (s : list ascii) : option (Q * list ascii) :=
  match s with
  | c :: r =>
      if chr_eq c "e" || chr_eq c "E" then
        let '(neg, r1) :=
          match r with
          | sg :: r' => if chr_eq sg "-" then (true, r')
                        else if chr_eq sg "+" then (false, r')
                        else (false, r)
          | [] => (false, r)
          end in
        let '(es, rest) := span_digits r1 in
        match es with
        | [] => None
        | _ => e ← digits_value es;
               Some ((q * Qpower (10 # 1) (if neg : bool then - e else e))%Q, rest)
        end
      else Some (q, s)
  | [] => Some (q, s)
  end.

(** A number literal, kept at its exact value ([JSON.parse] yields the
    double nearest to it). *)
Definition parse_number (s : list ascii) : option (Q * list ascii) :=
  let '(neg, s1) :=
    match s with
    | c :: r => if chr_eq c "-" then (true, r) else (false, s)
    | [] => (false, s)
    end in
  '(i, s2) ← parse_int s1;
  '(q, s3) ← parse_frac (inject_Z i) s2;
  '(q, s4) ← parse_exp q s3;
  Some (if neg : bool then Qopp q else q, s4).

Fixpoint strip_prefix (p s : list ascii) : option (list ascii) :=
  match p with
  | [] => Some s
  | c :: p' =>
      match s with
      | d :: s' => if chr_eq c d then strip_prefix p' s' else None
      | [] => None
      end
  end.

Definition literal (name : string) (v : value) (s : list ascii) : option (value * list ascii) :=
  rest ← strip_prefix (list_ascii_of_string name) s; Some (v, rest).

(** Recursive descent.  [fuel] bounds the depth of the calls; [parse]
    below supplies more than twice the length of the input, which is
    always enough. *)
Fixpoint parse_value (fuel : nat) (s : list ascii) {struct fuel}
  : option (value * list ascii) :=
  match fuel with
  | O => None
  | S fuel =>
      match skip_ws s with
      | [] => None
      | c :: r =>
          if chr_eq c "{" then
            match skip_ws r with
            | [] => None
            | c' :: r' =>
                if chr_eq c' "}" then Some (Object [], r')
                else '(ms, rest) ← parse_members fuel (c' :: r');
                     Some (Object ms, rest)
            end
          else if chr_eq c "[" then
            match skip_ws r with
            | [] => None
            | c' :: r' =>
                if chr_eq c' "]" then Some (Array [], r')
                else '(vs, rest) ← parse_elements fuel (c' :: r');
                     Some (Array vs, rest)
            end
          else if chr_eq c dquote then
            '(str, rest) ← parse_string r;
            Some (Str (string_of_list_ascii str), rest)
          else if chr_eq c "t" then literal "true" (Bool true) (c :: r)
          else if chr_eq c "f" then literal "false" (Bool false) (c :: r)
          else if chr_eq c "n" then literal "null" Null (c :: r)
          else
            '(q, rest) ← parse_number (c :: r);
            Some (Number q, rest)
      end
  end
with parse_members (fuel : nat) (s : list ascii) {struct fuel}
  : option (list (string * value) * list ascii) :=
  match fuel with
  | O => None
  | S fuel =>
      match skip_ws s with
      | [] => None
      | c :: r =>
          if chr_eq c dquote then
            '(k, r1) ← parse_string r;
            match skip_ws r1 with
            | [] => None
            | c1 :: r2 =>
                if chr_eq c1 ":" then
                  '(v, r3) ← parse_value fuel r2;
                  match skip_ws r3 with
                  | [] => None
                  | c3 :: r4 =>
                      if chr_eq c3 "," then
                        '(ms, r5) ← parse_members fuel r4;
                        Some ((string_of_list_ascii k, v) :: ms, r5)
                      else if chr_eq c3 "}" then
                        Some ([(string_of_list_ascii k, v)], r4)
                      else None
                  end
                else None
            end
          else None
      end
  end
with parse_elements (fuel : nat) (s : list ascii) {struct fuel}
  : option (list value * list ascii) :=
  match fuel with
  | O => None
  | S fuel =>
      '(v, r1) ← parse_value fuel s;
      match skip_ws r1 with
      | [] => None
      | c :: r2 =>
          if chr_eq c "," then
            '(vs, r3) ← parse_elements fuel r2;
            Some (v :: vs, r3)
          else if chr_eq c "]" then Some ([v], r2)
          else None
      end
  end.

(** [JSON.parse]: one value, surrounded by optional whitespace.  [None]
    stands for the thrown [SyntaxError]. *)
Definition parse (s : list ascii) : option value :=
  '(v, rest) ← parse_value (2 * List.length s + 2) s;
  match skip_ws rest with
  | [] => Some v
  | _ => None
  end.

(** Property lookup on a parsed object: of duplicate keys the last wins. *)
Fixpoint get (k : string) (members : list (string * value)) : option value :=
  match members with
  | [] => None
  | (k', v) :: rest =>
      match get k rest with
      | Some v' => Some v'
      | None => if String.eqb k k' then Some v else None
      end
  end.

(** **** Serialisation *)

Definition hex_char (n : N) : ascii :=
  if (n <? 10)%N then ascii_of_N (48 + n) else ascii_of_N (87 + n).

Definition escape (c : ascii) : list ascii :=
  let n := N_of_ascii c in
  if chr_eq c dquote then [backslash; dquote]
  else if chr_eq c backslash then [backslash; backslash]
  else if (n =? 8)%N then [backslash; "b"%char]
  else if (n =? 12)%N then [backslash; "f"%char]
  else if (n =? 10)%N then [backslash; "n"%char]
  else if (n =? 13)%N then [backslash; "r"%char]
  else if (n =? 9)%N then [backslash; "t"%char]
  else if (n <? 32)%N then
    [backslash; "u"%char; "0"%char; "0"%char; hex_char (n / 16); hex_char (n mod 16)]
  else [c].

Definition quote (s : string) : list ascii :=
  dquote :: flat_map escape (list_ascii_of_string s) ++ [dquote].

(** The property values this program serialises: strings and integers.
    An integer prints in plain decimal notation (as JavaScript does
    below 10^21). *)
Inductive field :=
| FString (s : string)
| FInteger (z : Z).

Definition decimal (z : Z) : list ascii :=
  list_ascii_of_string (NilZero.string_of_int (Z.to_int z)).

Definition stringify_field (f : field) : list ascii :=
  match f with
  | FString s => quote s
  | FInteger z => decimal z
  end.

Fixpoint stringify_members (ms : list (string * field)) : list ascii :=
  match ms with
  | [] => []
  | [(k, v)] => quote k ++ ":"%char :: stringify_field v
  | (k, v) :: rest =>
      quote k ++ ":"%char :: stringify_field v ++ ","%char :: stringify_members rest
  end.

(** [JSON.stringify] of an object whose own properties are [ms]. *)
Definition stringify (ms : list (string * field)) : list ascii :=
  "{"%char :: stringify_members ms ++ ["}"%char].

(** **** Vocabulary of the round-trip statements *)

(** What a serialised property value parses back to. *)
Definition value_of_field (f : field) : value :=
  match f with
  | FString s => Str s
  | FInteger z => Number (inject_Z z)
  end.

Definition uint_chars (d : Decimal.uint) : list ascii :=
  list_ascii_of_string (NilEmpty.string_of_uint d).

Definition starts_number (c : ascii) : bool := is_digit c || chr_eq c "-".

(** The input does not go on with a digit. *)
Definition no_digit_ahead (r : list ascii) : Prop :=
  match r with
  | c :: _ => is_digit c = false
  | [] => True
  end.

(** The input does not go on with anything a number could continue
    with. *)
Definition closes_number (r : list ascii) : Prop :=
  match r with
  | c :: _ => is_digit c = false /\ chr_eq c "." = false /\
              chr_eq c "e" = false /\ chr_eq c "E" = false
  | [] => True
  end.

(** The input goes on with a comma or a closing brace. *)
Definition closes_member (r : list ascii) : Prop :=
  exists c tl, r = c :: tl /\ (chr_eq c "," = true \/ chr_eq c "}" = true).

End Json.

(** *** JavaScript values and their conversion to numbers *)

(** A value read off a parsed payload: [undefined], for a property that
    is not there, or the JSON value found. *)
Inductive JsValue :=
| js_undefined
| js_value (v : Json.value).

(** The interfaces of the program declare the properties it reads as
    strings; where a [JsValue] is expected, a string stands for the
    JavaScript string. *)
Definition js_string (s : string) : JsValue := js_value (Json.Str s).
Coercion js_string : string >-> JsValue.

Module JS.

(** The white space and line terminators a byte can be. *)
Definition is_StrWhiteSpaceChar (c : ascii) : bool :=
  let n := N_of_ascii c in
  (n =? 9)%N || (n =? 10)%N || (n =? 11)%N || (n =? 12)%N || (n =? 13)%N
  || (n =? 32)%N || (n =? 160)%N.

Fixpoint trim_start (s : list ascii) : list ascii :=
  match s with
  | c :: r => if is_StrWhiteSpaceChar c then trim_start r else s
  | [] => []
  end.

Definition trim (s : list ascii) : list ascii :=
  rev (trim_start (rev (trim_start s))).

(** The value of a run of decimal digits. *)
Definition digits_value (ds : list ascii) : Z :=
  fold_left (fun acc c => acc * 10 + Z.of_N (N_of_ascii c - 48)) ds 0.

(** The value of a run of digits of the given radix; [None] when a
    character is no such digit. *)
Fixpoint radix_value (radix acc : N) (s : list ascii) : option N :=
  match s with
  | [] => Some acc
  | c :: r =>
      d ← Json.hex_digit c;
      if (d <? radix)%N then radix_value radix (acc * radix + d)%N r else None
  end.

Definition radix_literal (radix : N) (s : list ascii) : option Q :=
  match s with
  | [] => None
  | _ => n ← radix_value radix 0 s; Some (inject_Z (Z.of_N n))
  end.

(** Numbers are rationals here; [Infinity] is stood for by a number
    beyond every double. *)
Definition Infinity : Q := inject_Z (2 ^ 1024).

(** An optional exponent part, up to the end of the text. *)
Definition exponent_part (mantissa : Q) (s : list ascii) : option Q :=
  match s with
  | [] => Some mantissa
  | c :: r =>
      if chr_eq c "e" || chr_eq c "E" then
        let '(neg, r) :=
          match r with
          | d :: r' =>
              if chr_eq d "-" then (true, r')
              else if chr_eq d "+" then (false, r')
              else (false, r)
          | [] => (false, r)
          end in
        let '(ds, rest) := Json.span_digits r in
        match ds, rest with
        | _ :: _, [] =>
            let e := digits_value ds in
            Some (mantissa * Qpower (10 # 1) (if neg : bool then - e else e))%Q
        | _, _ => None
        end
      else None
  end.

(** [StrUnsignedDecimalLiteral] *)
Definition unsigned_decimal (s : list ascii) : option Q :=
  if String.eqb (string_of_list_ascii s) "Infinity" then Some Infinity
  else
    let '(ip, r1) := Json.span_digits s in
    match r1 with
    | c :: r2 =>
        if chr_eq c "." then
          let '(fp, r3) := Json.span_digits r2 in
          match ip, fp with
          | [], [] => None
          | _, _ =>
              exponent_part
                (inject_Z (digits_value (ip ++ fp))
                 / Qpower (10 # 1) (Z.of_nat (List.length fp)))%Q r3
          end
        else
          match ip with
          | [] => None
          | _ => exponent_part (inject_Z (digits_value ip)) r1
          end
    | [] =>
        match ip with
        | [] => None
        | _ => Some (inject_Z (digits_value ip))
        end
    end.

(** [StringToNumber]; [None] stands for NaN. *)
Definition StringToNumber (str : string) : option Q :=
  let s := trim (list_ascii_of_string str) in
  match s with
  | [] => Some 0%Q
  | c :: r =>
      if chr_eq c "+" then unsigned_decimal r
      else if chr_eq c "-" then Qopp <$> unsigned_decimal r
      else
        match r with
        | x :: digits =>
            if chr_eq c "0" && (chr_eq x "x" || chr_eq x "X") then radix_literal 16 digits
            else if chr_eq c "0" && (chr_eq x "o" || chr_eq x "O") then radix_literal 8 digits
            else if chr_eq c "0" && (chr_eq x "b" || chr_eq x "B") then radix_literal 2 digits
            else unsigned_decimal s
        | [] => unsigned_decimal s
        end
  end.

(** The number the text of an array element counts as: an array turns
    into the texts of its elements joined by commas, where [null]
    contributes the empty text. *)
Fixpoint element_number (v : Json.value) : option Q :=
  match v with
  | Json.Null => Some 0%Q
  | Json.Bool _ => None
  | Json.Number q => Some q
  | Json.Str s => StringToNumber s
  | Json.Array l =>
      match l with
      | [] => Some 0%Q
      | [x] => element_number x
      | _ => None
      end
  | Json.Object _ => None
  end.

(** [ToNumber], as a comparison with a number applies it; [None] stands
    for NaN. *)
Definition ToNumber (x : JsValue) : option Q :=
  match x with
  | js_undefined => None
  | js_value Json.Null => Some 0%Q
  | js_value (Json.Bool b) => Some (if b then 1 else 0)%Q
  | js_value (Json.Number q) => Some q
  | js_value (Json.Str s) => StringToNumber s
  | js_value (Json.Array l) => element_number (Json.Array l)
  | js_value (Json.Object _) => None
  end.

(** [v[k]] for a value other than [null] and a key that no prototype
    has. *)
Definition property (k : string) (v : Json.value) : JsValue :=
  match v with
  | Json.Object members =>
      match Json.get k members with
      | Some x => js_value x
      | None => js_undefined
      end
  | _ => js_undefined
  end.

End JS.

(** ** Data model *)

(** [interface User] of AuthContext.tsx.  The fields are declared as
    strings; they hold what the decoded payload had. *)
Module User.
Record t := mk { id : JsValue; username : JsValue; role : JsValue }.
End User.

(** [interface JwtPayload] of AuthContext.tsx, as far as the program
    observes a payload.  TypeScript erases the interface and jwt-decode
    checks nothing, so the three properties declared as strings hold
    what the payload had.  [exp] is the number the payload's [exp]
    counts as; it counts seconds since the epoch.  JavaScript numbers are
    idealised as rationals.  For an expiry instant in whole seconds and
    a clock reading in whole milliseconds, within the range of
    JavaScript dates, comparing the exact values and comparing their
    doubles agree. *)
Module JwtPayload.
Record t := mk { nameid : JsValue; unique_name : JsValue; role : JsValue; exp : Q }.
End JwtPayload.

(** The request configuration an interceptor receives (the fields this
    code base reads or writes). *)
Record AxiosRequestConfig := mkConfig {
  url : string;
  method : string;
  baseURL : string;
  headers : gmap string string;
  data : list (string * string)
}.

(** Body of a response as the login page reads it: JSON [null], or a
    value with an optional [token] and an optional [message]. *)
Inductive ResponseData :=
| mkData (data_token : option string) (data_message : option string)
| data_null.

(** [data?.message] *)
Definition data_message (d : ResponseData) : option string :=
  match d with
  | mkData _ message => message
  | data_null => None
  end.

Record AxiosResponse := mkResponse {
  status : Z;
  response_data : ResponseData
}.

(** An axios error; [response] is absent for network-level failures. *)
Record AxiosError := mkError {
  response : option AxiosResponse
}.

(** What a JavaScript [throw] can carry in this program. *)
Inductive exn :=
| InvalidTokenError            (* thrown by jwtDecode *)
| TypeError                    (* a property read off null *)
| AxiosRejection (e : AxiosError).

(** Primitive effects, in the order they are performed. *)
Inductive event :=
| StorageSet (k v : string)
| StorageRemove (k : string)
| SetIsAuthenticated (b : bool)
| SetUser (u : option User.t)
| SetError (e : option string)
| SetLoading (b : bool)
| LocationAssign (href : string)      (* window.location.href = href *)
| RouterNavigate (to : string)        (* navigate(to) *)
| HttpSend (c : AxiosRequestConfig).

(** The browser-side world. *)
Record World := mkWorld {
  localStorage : gmap string string;
  isAuthenticated : bool;                 (* useState<boolean>(false) *)
  user : option User.t;                   (* useState<User | null>(null) *)
  error : option string;                  (* Login page: useState(null) *)
  loading : bool;                         (* Login page: useState(false) *)
  href : string;                          (* window.location.href *)
  route : string;                         (* router location *)
  clock : Z;                              (* Date.now(), milliseconds *)
  trace : list event
}.

(** ** The effect monad *)

Inductive Completion (A : Type) :=
| Normal (a : A)
| Throw (e : exn).
Arguments Normal {A} a.
Arguments Throw {A} e.

Definition M (A : Type) : Type := World -> Completion A * World.

Definition ret {A} (a : A) : M A := fun w => (Normal a, w).

Definition bind {A B} (m : M A) (k : A -> M B) : M B :=
  fun w => match m w with
           | (Normal a, w') => k a w'
           | (Throw e, w') => (Throw e, w')
           end.

Definition throw {A} (e : exn) : M A := fun w => (Throw e, w).

(** [try { m } catch (e) { h e }] *)
Definition try_catch {A} (m : M A) (h : exn -> M A) : M A :=
  fun w => match m w with
           | (Normal a, w') => (Normal a, w')
           | (Throw e, w') => h e w'
           end.

(** [try { m } finally { f }] *)
Definition try_finally {A} (m : M A) (f : M unit) : M A :=
  fun w => match m w with
           | (c, w') => match f w' with
                        | (Normal _, w'') => (c, w'')
                        | (Throw e, w'') => (Throw e, w'')
                        end
           end.

Notation "x <- m ;; k" := (bind m (fun x => k))
  (at level 100, m at next level, right associativity).
Notation "m ;;; k" := (bind m (fun _ => k))
  (at level 100, right associativity).

Definition emit (e : event) (w : World) : World :=
  mkWorld (localStorage w) (isAuthenticated w) (user w) (error w) (loading w)
          (href w) (route w) (clock w) (trace w ++ [e]).

(** *** [window.localStorage] *)
Module Storage.
Definition getItem (k : string) : M (option string) :=
  fun w => (Normal (localStorage w !! k), w).

Definition setItem (k v : string) : M unit :=
  fun w => (Normal tt,
            emit (StorageSet k v)
              (mkWorld (<[k := v]> (localStorage w)) (isAuthenticated w) (user w)
                       (error w) (loading w) (href w) (route w) (clock w) (trace w))).

Definition removeItem (k : string) : M unit :=
  fun w => (Normal tt,
            emit (StorageRemove k)
              (mkWorld (delete k (localStorage w)) (isAuthenticated w) (user w)
                       (error w) (loading w) (href w) (route w) (clock w) (trace w))).
End Storage.

(** *** React state setters *)
Definition setIsAuthenticated (b : bool) : M unit :=
  fun w => (Normal tt,
            emit (SetIsAuthenticated b)
              (mkWorld (localStorage w) b (user w) (error w) (loading w)
                       (href w) (route w) (clock w) (trace w))).

Definition setUser (u : option User.t) : M unit :=
  fun w => (Normal tt,
            emit (SetUser u)
              (mkWorld (localStorage w) (isAuthenticated w) u (error w) (loading w)
                       (href w) (route w) (clock w) (trace w))).

Definition setError (e : option string) : M unit :=
  fun w => (Normal tt,
            emit (SetError e)
              (mkWorld (localStorage w) (isAuthenticated w) (user w) e (loading w)
                       (href w) (route w) (clock w) (trace w))).

Definition setLoading (b : bool) : M unit :=
  fun w => (Normal tt,
            emit (SetLoading b)
              (mkWorld (localStorage w) (isAuthenticated w) (user w) (error w) b
                       (href w) (route w) (clock w) (trace w))).

(** *** Navigation *)

(** [window.location.href = h] *)
Definition location_assign (h : string) : M unit :=
  fun w => (Normal tt,
            emit (LocationAssign h)
              (mkWorld (localStorage w) (isAuthenticated w) (user w) (error w) (loading w)
                       h (route w) (clock w) (trace w))).

(** [navigate(to)] of react-router *)
Definition navigate (to : string) : M unit :=
  fun w => (Normal tt,
            emit (RouterNavigate to)
              (mkWorld (localStorage w) (isAuthenticated w) (user w) (error w) (loading w)
                       (href w) to (clock w) (trace w))).

(** [Date.now()] *)
Definition Date_now : M Z := fun w => (Normal (clock w), w).

(** JavaScript truthiness of a [string | null]: [null] and the empty
    string are falsy. *)
Definition truthy (o : option string) : bool :=
  match o with
  | Some s => negb (String.eqb s "")
  | None => false
  end.

(** [a > b] on numbers.  The numbers of the embedding are exact; the
    program compares the doubles nearest to them. *)
Definition number_gt (a b : Q) : bool := negb (Qle_bool a b).

(** ** Session store (AuthContext.tsx) *)

(** What [jwtDecode<JwtPayload>(token)] returns, as far as the program
    observes it.  A value other than [null] is its three properties
    together with the number its [exp] counts as, and when its [exp]
    counts as no number (it is missing, say) the three properties alone.
    On [null] a property read throws. *)
Inductive Decoded :=
| WithExpiry (p : JwtPayload.t)
| WithoutExpiry (nameid unique_name role : JsValue)
| Null.

(** The third-party decoder; [None] stands for a thrown
    [InvalidTokenError]. *)
Record Decoder := mkDecoder { decode : string -> option Decoded }.

(** The payload a decoder yields for a token, if it yields one.  A
    decoder applied to a token stands for this reading. *)
Definition payload (d : Decoder) (token : string) : option JwtPayload.t :=
  match decode d token with
  | Some (WithExpiry p) => Some p
  | _ => None
  end.
Coercion payload : Decoder >-> Funclass.

Section AuthContext.

Variable jwtDecode : Decoder.

(** [const decoded = jwtDecode<JwtPayload>(token)] *)
Definition jwtDecodeM (token : string) : M Decoded :=
  match decode jwtDecode token with
  | Some decoded => ret decoded
  | None => throw InvalidTokenError
  end.

(** [decoded.nameid] *)
Definition get_nameid (decoded : Decoded) : M JsValue :=
  match decoded with
  | WithExpiry p => ret (JwtPayload.nameid p)
  | WithoutExpiry nameid _ _ => ret nameid
  | Null => throw TypeError
  end.

(** [decoded.unique_name] *)
Definition get_unique_name (decoded : Decoded) : M JsValue :=
  match decoded with
  | WithExpiry p => ret (JwtPayload.unique_name p)
  | WithoutExpiry _ unique_name _ => ret unique_name
  | Null => throw TypeError
  end.

(** [decoded.role] *)
Definition get_role (decoded : Decoded) : M JsValue :=
  match decoded with
  | WithExpiry p => ret (JwtPayload.role p)
  | WithoutExpiry _ _ role => ret role
  | Null => throw TypeError
  end.

(** [decoded.exp > currentTime]; a comparison with what is no number
    is false. *)
Definition exp_gt (decoded : Decoded) (currentTime : Q) : M bool :=
  match decoded with
  | WithExpiry p => ret (number_gt (JwtPayload.exp p) currentTime)
  | WithoutExpiry _ _ _ => ret false
  | Null => throw TypeError
  end.

Definition user_of (decoded : JwtPayload.t) : User.t :=
  User.mk (JwtPayload.nameid decoded)
          (JwtPayload.unique_name decoded)
          (JwtPayload.role decoded).

(** [setUser({ id: decoded.nameid, username: decoded.unique_name,
    role: decoded.role })]: the object is built, field by field, before
    the setter is called. *)
Definition setUser_from (decoded : Decoded) : M unit :=
  id <- get_nameid decoded ;;
  username <- get_unique_name decoded ;;
  role <- get_role decoded ;;
  setUser (Some (User.mk id username role)).

(** The body of the mount effect, [useEffect(() => {...}, [])]. *)
Definition initialize : M unit :=
  token <- Storage.getItem "token" ;;
  match token with
  | Some tok =>
      if truthy token then
        try_catch
          (decoded <- jwtDecodeM tok ;;
           now <- Date_now ;;
           let currentTime := (now # 1000)%Q in
           valid <- exp_gt decoded currentTime ;;
           if valid : bool then
             setIsAuthenticated true ;;;
             setUser_from decoded
           else
             Storage.removeItem "token")
          (fun _ => Storage.removeItem "token")
      else ret tt
  | None => ret tt
  end.

(** [const login = (token: string) => {...}] *)
Definition login (token : string) : M unit :=
  Storage.setItem "token" token ;;;
  decoded <- jwtDecodeM token ;;
  setIsAuthenticated true ;;;
  setUser_from decoded.

(** [const logout = () => {...}] *)
Definition logout : M unit :=
  Storage.removeItem "token" ;;;
  setIsAuthenticated false ;;;
  setUser None.

End AuthContext.

(** The world in which [AuthProvider] mounts: both state cells hold their
    [useState] defaults. *)
Definition fresh (ls : gmap string string) (h : string) (now : Z) : World :=
  mkWorld ls false None None false h h now [].

(** ** HTTP client wrappers *)

Definition set_header (k v : string) (config : AxiosRequestConfig) : AxiosRequestConfig :=
  mkConfig (url config) (method config) (baseURL config)
           (<[k := v]> (headers config)) (data config).

Definition set_url (u : string) (config : AxiosRequestConfig) : AxiosRequestConfig :=
  mkConfig u (method config) (baseURL config) (headers config) (data config).

(** [hay.includes(needle)] *)
Fixpoint includes (needle hay : string) : bool :=
  String.prefix needle hay ||
  match hay with
  | EmptyString => false
  | String _ rest => includes needle rest
  end.

(** *** [apiClient] of src/api/axios.ts *)
Module ApiClient.

(** Request interceptor, fulfilled handler. *)
Definition on_request (config : AxiosRequestConfig) : M AxiosRequestConfig :=
  token <- Storage.getItem "token" ;;
  match token with
  | Some tok =>
      if truthy token
      then ret (set_header "Authorization" ("Bearer " +:+ tok) config)
      else ret config
  | None => ret config
  end.

(** Response interceptor, fulfilled handler. *)
Definition on_response (response : AxiosResponse) : M AxiosResponse :=
  ret response.

(** Response interceptor, rejected handler. *)
Definition on_error (error : AxiosError) : M AxiosResponse :=
  (match response error with
   | Some r =>
       if (status r =? 401)%Z then
         Storage.removeItem "token" ;;;
         location_assign "/login"
       else ret tt
   | None => ret tt
   end) ;;;
  throw (AxiosRejection error).

End ApiClient.

(** *** [api] of src/api/apiClient.ts *)
Module Api.

(** Request interceptor, fulfilled handler (console logging omitted). *)
Definition on_request (config : AxiosRequestConfig) : M AxiosRequestConfig :=
  let urlHasApi := includes "/api" (url config) in
  let baseUrlHasApi := includes "/api" (baseURL config) in
  let config :=
    if negb (String.eqb (url config) "") && negb urlHasApi && negb baseUrlHasApi
    then set_url ("/api" +:+ (if String.prefix "/" (url config)
                              then url config
                              else "/" +:+ url config)) config
    else config in
  token <- Storage.getItem "token" ;;
  let config :=
    match token with
    | Some tok =>
        if truthy token
        then set_header "Authorization" ("Bearer " +:+ tok) config
        else config
    | None => config
    end in
  if negb (truthy (headers config !! "Content-Type")) &&
     (String.eqb (method config) "post" || String.eqb (method config) "put"
      || String.eqb (method config) "patch")
  then ret (set_header "Content-Type" "application/json" config)
  else ret config.

Definition on_response (response : AxiosResponse) : M AxiosResponse :=
  ret response.

(** Response interceptor, rejected handler (console logging omitted). *)
Definition on_error (error : AxiosError) : M AxiosResponse :=
  (match response error with
   | Some r =>
       if (status r =? 401)%Z || (status r =? 403)%Z then
         Storage.removeItem "token" ;;;
         location_assign "/login"
       else ret tt
   | None => ret tt
   end) ;;;
  throw (AxiosRejection error).

End Api.

(** *** The request pipeline of an axios instance

    [server] answers a request with a response, or with nothing when no
    response is received.  With the default [validateStatus] a response
    settles the promise as fulfilled exactly for 2xx statuses; any other
    response, and the absence of one, reaches the rejected handler. *)
Section Axios.

Variable server : AxiosRequestConfig -> option AxiosResponse.

Definition validateStatus (s : Z) : bool := (200 <=? s)%Z && (s <? 300)%Z.

Definition dispatch (config : AxiosRequestConfig) : M (AxiosResponse + AxiosError) :=
  fun w =>
    (Normal (match server config with
             | Some r => if validateStatus (status r) then inl r
                         else inr (mkError (Some r))
             | None => inr (mkError None)
             end),
     emit (HttpSend config) w).

Definition axios_request
    (on_request : AxiosRequestConfig -> M AxiosRequestConfig)
    (on_response : AxiosResponse -> M AxiosResponse)
    (on_error : AxiosError -> M AxiosResponse)
    (config : AxiosRequestConfig) : M AxiosResponse :=
  config <- on_request config ;;
  settled <- dispatch config ;;
  match settled with
  | inl r => on_response r
  | inr e => on_error e
  end.

(** Instance defaults of [axios.create] in axios.ts.  The base URL is
    [API_URL], the value of [VITE_API_URL] when the build sets one; the
    literal the source falls back to stands for it here. *)
Definition apiClient_defaults (m u : string) (d : list (string * string)) : AxiosRequestConfig :=
  mkConfig u m "https://localhost:7200" {[ "Content-Type" := "application/json" ]} d.

Definition apiClient_request : AxiosRequestConfig -> M AxiosResponse :=
  axios_request ApiClient.on_request ApiClient.on_response ApiClient.on_error.

Definition api_request : AxiosRequestConfig -> M AxiosResponse :=
  axios_request Api.on_request Api.on_response Api.on_error.

(** [apiClient.post(url, data)] *)
Definition apiClient_post (u : string) (d : list (string * string)) : M AxiosResponse :=
  apiClient_request (apiClient_defaults "post" u d).

End Axios.

(** ** Route guard (PrivateRoute.tsx) *)

(** What the guard renders.  [Navigate] carries the props of react-router's
    redirect element; [nav_state] is the prop through which a caller could
    hand the requested location over to the target. *)
Inductive Element (Node : Type) :=
| Navigate (to : string) (replace : bool) (nav_state : option string)
| Fragment (children : Node)
| Outlet.
Arguments Navigate {Node} to replace nav_state.
Arguments Fragment {Node} children.
Arguments Outlet {Node}.

(** [children] is [None] when the prop is absent (or otherwise falsy). *)
Definition PrivateRoute {Node : Type} (children : option Node) (w : World) : Element Node :=
  let isAuthenticated := isAuthenticated w in   (* useAuth() *)
  if negb isAuthenticated then
    Navigate "/login" true None
  else
    match children with
    | Some c => Fragment c
    | None => Outlet
    end.

(** ** Library model: [jwtDecode] of the jwt-decode package *)
Module JwtDecode.

(** [s.split(sep)] *)
Fixpoint split (sep : ascii) (s : list ascii) : list (list ascii) :=
  match s with
  | [] => [[]]
  | c :: r =>
      if chr_eq c sep then [] :: split sep r
      else match split sep r with
           | h :: t => (c :: h) :: t
           | [] => [[c]]
           end
  end.

Definition is_ascii (c : ascii) : bool := (N_of_ascii c <? 128)%N.

(** [base64UrlDecode]: map the URL alphabet back, restore the padding,
    decode.  The decoded bytes are read as UTF-8; text is modelled as
    byte strings, so only US-ASCII payloads are covered and any other
    one is rejected. *)
Definition base64UrlDecode (str : list ascii) : option (list ascii) :=
  let output :=
    map (fun c => if chr_eq c "-" then "+"%char
                  else if chr_eq c "_" then "/"%char else c) str in
  padded ← match (List.length output mod 4)%nat with
           | 0%nat => Some output
           | 2%nat => Some (output ++ ["="%char; "="%char])
           | 3%nat => Some (output ++ ["="%char])
           | _ => None
           end;
  bytes ← Base64.atob padded;
  if forallb is_ascii bytes then Some bytes else None.

(** The second dot-separated part of the token, base64url-decoded and
    parsed as JSON; [None] when a step fails, which is when jwt-decode
    throws. *)
Definition parsed (token : string) : option Json.value :=
  part ← split "." (list_ascii_of_string token) !! 1%nat;
  decoded ← base64UrlDecode part;
  Json.parse decoded.

(** What the program observes of a parsed payload. *)
Definition observed (v : Json.value) : Decoded :=
  match v with
  | Json.Null => Null
  | _ =>
      let nameid := JS.property "nameid" v in
      let unique_name := JS.property "unique_name" v in
      let role := JS.property "role" v in
      match JS.ToNumber (JS.property "exp" v) with
      | Some exp => WithExpiry (JwtPayload.mk nameid unique_name role exp)
      | None => WithoutExpiry nameid unique_name role
      end
  end.

(** [jwtDecode<JwtPayload>(token)] *)
Definition jwtDecode : Decoder :=
  mkDecoder (fun token => observed <$> parsed token).

End JwtDecode.

(** ** Login page (Login.tsx) *)

Section LoginPage.

(** The decoder behind the session store's [login], and the remote
    service. *)
Variable jwtDecode : Decoder.
Variable server : AxiosRequestConfig -> option AxiosResponse.

(** [endpoints.login] *)
Definition endpoints_login : string := "/Auth/Login".

(** [const createAdminToken = () => {...}] *)
Definition createAdminToken : M string :=
  now <- Date_now ;;
  let payload :=
    [ ("nameid", Json.FString "admin");
      ("unique_name", Json.FString "admin");
      ("role", Json.FString "Administrator");
      ("exp", Json.FInteger (Qfloor (now # 1000) + 24 * 60 * 60)) ] in
  let base64Payload := string_of_list_ascii (Base64.btoa (Json.stringify payload)) in
  ret ("eyJhbGciOiJIUzI1NiIsInR5cCI6IkpXVCJ9." +:+ base64Payload +:+ ".mockSignature").

(** [const handleSubmit = async (e) => {...}], on the current field
    values. *)
Definition handleSubmit (username password : string) : M unit :=
  if negb (truthy (Some username)) || negb (truthy (Some password)) then
    setError (Some "Please enter both username and password")
  else
    setError None ;;;
    setLoading true ;;;
    if String.eqb username "admin" && String.eqb password "admin" then
      adminToken <- createAdminToken ;;
      login jwtDecode adminToken ;;;
      navigate "/"
    else
      try_finally
        (try_catch
           (response <- apiClient_post server endpoints_login
                          [("username", username); ("password", password)] ;;
            (* const { token } = response.data *)
            match response_data response with
            | data_null => throw TypeError
            | mkData token _ =>
                match token with
                | Some tok =>
                    if truthy token then
                      login jwtDecode tok ;;;
                      navigate "/"
                    else setError (Some "Invalid response from server")
                | None => setError (Some "Invalid response from server")
                end
            end)
           (fun err =>
              match err with
              | AxiosRejection axiosError =>
                  if bool_decide (status <$> response axiosError = Some 401) then
                    setError (Some "Invalid username or password")
                  else
                    let msg := r ← response axiosError; data_message (response_data r) in
                    setError (Some (if truthy msg then default "" msg
                                    else "An error occurred during login"))
              | _ => setError (Some "An unexpected error occurred")
              end))
        (setLoading false).

End LoginPage.

(** The payload and the token [createAdminToken] produces when
    [Date.now()] returns [now]. *)
Definition admin_claims (exp : Z) : list (string * Json.field) :=
  [ ("nameid", Json.FString "admin");
    ("unique_name", Json.FString "admin");
    ("role", Json.FString "Administrator");
    ("exp", Json.FInteger exp) ].

Definition admin_payload (now : Z) : list (string * Json.field) :=
  admin_claims (Qfloor (now # 1000) + 24 * 60 * 60).

Definition admin_token (now : Z) : string :=
  "eyJhbGciOiJIUzI1NiIsInR5cCI6IkpXVCJ9."
  +:+ string_of_list_ascii (Base64.btoa (Json.stringify (admin_payload now)))
  +:+ ".mockSignature".

(** The token minted when the clock reads zero; it expires at second
    86400. *)
Definition sample_token : string :=
  Eval vm_compute in
    match createAdminToken (fresh ∅ "/" 0) with
    | (Normal t, _) => t
    | (Throw _, _) => ""
    end.

(** ** Observations used in the statements *)

(** The part of the world the session consists of. *)
Definition session (w : World) : gmap string string * bool * option User.t :=
  (localStorage w, isAuthenticated w, user w).

(** The same world with the router at [requested]. *)
Definition visiting (requested : string) (w : World) : World :=
  mkWorld (localStorage w) (isAuthenticated w) (user w) (error w) (loading w)
          (href w) requested (clock w) (trace w).

(** Whether the guard lets the protected view render. *)
Definition admits {Node : Type} (e : Element Node) : bool :=
  match e with
  | Navigate _ _ _ => false
  | Fragment _ | Outlet => true
  end.

(** ** Further parts of the program *)

(** *** Header.tsx: the logout button *)

(** [const handleLogout = () => { logout(); navigate('/login'); }] *)
Definition handleLogout : M unit :=
  logout ;;;
  navigate "/login".

(** *** useAuth.ts and the context object of AuthContext.tsx *)

(** [interface AuthContextType] *)
Module AuthContextType.
Record t := mk {
  isAuthenticated : bool;
  user : option User.t;
  login : string -> M unit;
  logout : M unit
}.
End AuthContextType.

(** The default handed to [createContext]. *)
Definition AuthContext_default : AuthContextType.t :=
  AuthContextType.mk false None (fun _ => ret tt) (ret tt).

(** [useContext(AuthContext)]: the value of the nearest provider, and
    the default of [createContext] when there is none.  The result is
    typed [option] so that the comparison with [undefined] in [useAuth]
    can be written down. *)
Definition useContext (provider : option AuthContextType.t) : option AuthContextType.t :=
  match provider with
  | Some value => Some value
  | None => Some AuthContext_default
  end.

(** [export const useAuth = () => {...}]; [inl] carries the message of
    the thrown [Error]. *)
Definition useAuth (provider : option AuthContextType.t) : string + AuthContextType.t :=
  let context := useContext provider in
  match context with
  | None => inl "useAuth must be used within an AuthProvider"
  | Some context => inr context
  end.

(** *** endpoints.ts *)

(** [Number.MAX_SAFE_INTEGER]; the integers up to it in magnitude are
    the ones a number holds exactly. *)
Definition Number_MAX_SAFE_INTEGER : Z := 2 ^ 53 - 1.

Definition Number_isSafeInteger (n : Z) : Prop :=
  - Number_MAX_SAFE_INTEGER <= n <= Number_MAX_SAFE_INTEGER.

(** The text a template literal substitutes for an integer number:
    plain decimal notation.  This is how JavaScript prints the safe
    integers; from 10^21 on it switches to exponent notation. *)
Definition Number_toString (n : Z) : string :=
  string_of_list_ascii (Json.decimal n).

Module endpoints.
Definition login : string := "/Auth/Login".

Definition patients : string := "/Patient".
Definition patientById (id : Z) : string := "/Patient/" +:+ Number_toString id.
Definition patientDetails (id : Z) : string :=
  "/Patient/" +:+ Number_toString id +:+ "/Details".
Definition patientSearch : string := "/Patient/Search".
Definition patientByOib (oib : string) : string := "/Patient/Oib/" +:+ oib.

Definition doctors : string := "/Doctor".
Definition doctorById (id : Z) : string := "/Doctor/" +:+ Number_toString id.
Definition doctorDetails (id : Z) : string :=
  "/Doctor/" +:+ Number_toString id +:+ "/Details".
Definition doctorsWithExaminations : string := "/Doctor/WithExaminations".

Definition examinations : string := "/Examination".
Definition examinationById (id : Z) : string := "/Examination/" +:+ Number_toString id.
Definition examinationDetails (id : Z) : string :=
  "/Examination/" +:+ Number_toString id +:+ "/Details".
Definition examinationsByPatient (patientId : Z) : string :=
  "/Examination/Patient/" +:+ Number_toString patientId.
Definition examinationsByDoctor (doctorId : Z) : string :=
  "/Examination/Doctor/" +:+ Number_toString doctorId.

Definition medicalHistories : string := "/MedicalHistory".
Definition medicalHistoryById (id : Z) : string :=
  "/MedicalHistory/" +:+ Number_toString id.
Definition medicalHistoryByPatient (patientId : Z) : string :=
  "/MedicalHistory/Patient/" +:+ Number_toString patientId.
Definition activeConditions (patientId : Z) : string :=
  "/MedicalHistory/Patient/" +:+ Number_toString patientId +:+ "/Active".

Definition medicalImages : string := "/MedicalImage".
Definition medicalImageById (id : Z) : string := "/MedicalImage/" +:+ Number_toString id.
Definition medicalImagesByExamination (examinationId : Z) : string :=
  "/MedicalImage/Examination/" +:+ Number_toString examinationId.
Definition medicalImageDownload (id : Z) : string :=
  "/MedicalImage/" +:+ Number_toString id +:+ "/Download".
Definition medicalImageSecureUrl (id : Z) : string :=
  "/MedicalImage/" +:+ Number_toString id +:+ "/SecureUrl".
Definition uploadMedicalImage (examinationId : Z) : string :=
  "/MedicalImage/Examination/" +:+ Number_toString examinationId +:+ "/Upload".

Definition prescriptions : string := "/Prescription".
Definition prescriptionById (id : Z) : string := "/Prescription/" +:+ Number_toString id.
Definition prescriptionsByPatient (patientId : Z) : string :=
  "/Prescription/Patient/" +:+ Number_toString patientId.
Definition prescriptionsByDoctor (doctorId : Z) : string :=
  "/Prescription/Doctor/" +:+ Number_toString doctorId.
Definition prescriptionPdf (id : Z) : string :=
  "/Prescription/" +:+ Number_toString id +:+ "/Pdf".

(** The members that take an id. *)
Definition by_id : list (Z -> string) :=
  [ patientById; patientDetails; doctorById; doctorDetails;
    examinationById; examinationDetails; examinationsByPatient; examinationsByDoctor;
    medicalHistoryById; medicalHistoryByPatient; activeConditions;
    medicalImageById; medicalImagesByExamination; medicalImageDownload;
    medicalImageSecureUrl; uploadMedicalImage;
    prescriptionById; prescriptionsByPatient; prescriptionsByDoctor; prescriptionPdf ].

(** The members that are plain strings. *)
Definition fixed : list string :=
  [ login; patients; patientSearch; doctors; doctorsWithExaminations; examinations;
    medicalHistories; medicalImages; prescriptions ].
End endpoints.

(** *** The instance [api] and the calls made through it *)

Section ApiCalls.

Variable server : AxiosRequestConfig -> option AxiosResponse.

(** [import.meta.env.VITE_API_URL], absent when the variable is not
    set. *)
Variable VITE_API_URL : option string.

(** [const API_URL = import.meta.env.VITE_API_URL || 'http://localhost:7200'] *)
Definition API_URL : string :=
  match VITE_API_URL with
  | Some u => if truthy VITE_API_URL then u else "http://localhost:7200"
  | None => "http://localhost:7200"
  end.

(** Instance defaults of [axios.create] in apiClient.ts, merged with the
    method, url and data of a call. *)
Definition api_defaults (m u : string) (d : list (string * string)) : AxiosRequestConfig :=
  mkConfig u m API_URL {[ "Content-Type" := "application/json" ]} d.

(** [api.get(url)], [api.delete(url)], [api.post(url, data)],
    [api.put(url, data)] *)
Definition api_get (u : string) : M AxiosResponse :=
  api_request server (api_defaults "get" u []).




(** **** medicalHistoryApi (second part of src/api/axios.ts)

    A record travels as the list of its fields; the body of a response
    is handed back as it came. *)








(** **** patientApi (src/unnamed/part_011): lookup by personal id
    number *)

Definition getPatientByOib (personalIdNumber : string) : M ResponseData :=
  response <- api_get (endpoints.patientByOib personalIdNumber) ;;
  ret (response_data response).

End ApiCalls.

(** *** useApi.ts *)

Module UseApi.
Section UseApi.

Variable T : Type.

(** The three state cells of the hook. *)
Record State := mkState {
  data : option T;              (* useState<T | null>(null) *)
  loading : bool;               (* useState<boolean>(false) *)
  error : option exn            (* useState<Error | null>(null) *)
}.

Definition initial : State := mkState None false None.

Definition setData (d : option T) (s : State) : State :=
  mkState d (loading s) (error s).

Definition setLoading (b : bool) (s : State) : State :=
  mkState (data s) b (error s).

Definition setError (e : option exn) (s : State) : State :=
  mkState (data s) (loading s) e.

(** [execute], for an [apiFunction] already applied to its arguments.
    The hook's cells are threaded beside the world the call acts on.
    Everything that can be thrown in this program is an [Error], so
    [errorObj] is the caught value itself. *)
Definition execute (apiFunction : M T) (s : State) (w : World)
    : Completion (option T) * State * World :=
  (* try *)
  let s := setLoading true s in
  let s := setError None s in
  match apiFunction w with
  | (Normal result, w) =>
      let s := setData (Some result) s in
      (* finally *)
      let s := setLoading false s in
      (Normal (Some result), s, w)
  | (Throw err, w) =>
      (* catch *)
      let errorObj := err in
      let s := setError (Some errorObj) s in
      (* finally *)
      let s := setLoading false s in
      (Normal None, s, w)
  end.

End UseApi.
End UseApi.

(** *** examinationUtils.ts *)

(** [enum ExaminationType] of types/index.ts, with the string each
    member stands for. *)
Inductive ExaminationType :=
| GP | KRV | XRAY | CT | MR | ULTRA | EKG | ECHO | EYE | DERM | DENTA | MAMMO | NEURO.

Definition ExaminationType_value (t : ExaminationType) : string :=
  match t with
  | GP => "GP" | KRV => "KRV" | XRAY => "XRAY" | CT => "CT" | MR => "MR"
  | ULTRA => "ULTRA" | EKG => "EKG" | ECHO => "ECHO" | EYE => "EYE"
  | DERM => "DERM" | DENTA => "DENTA" | MAMMO => "MAMMO" | NEURO => "NEURO"
  end.

(** [const examinationTypeMap: { [key: number]: string }] *)
Definition examinationTypeMap : gmap Z string :=
  <[0 := "GP"]> (<[1 := "KRV"]> (<[2 := "XRAY"]> (<[3 := "CT"]> (<[4 := "MR"]>
  (<[5 := "ULTRA"]> (<[6 := "EKG"]> (<[7 := "ECHO"]> (<[8 := "EYE"]>
  (<[9 := "DERM"]> (<[10 := "DENTA"]> (<[11 := "MAMMO"]> (<[12 := "NEURO"]> ∅)))))))))))).

(** [obj[n]] on an object whose keys are integers: a number selects the
    property whose key it equals, and a number that is no integer
    selects none. *)
Definition index_by_number {A : Type} (obj : gmap Z A) (n : Q) : option A :=
  if Qeq_bool n (inject_Z (Qfloor n)) then obj !! Qfloor n else None.

(** [export const getExaminationTypeName = (typeNumber) => ...] *)
Definition getExaminationTypeName (typeNumber : Q) : string :=
  let found := index_by_number examinationTypeMap typeNumber in
  match found with
  | Some name => if truthy found then name else "Unknown"
  | None => "Unknown"
  end.

(** [export const getExaminationTypeDescription = (typeNumber) => ...];
    [None] stands for [undefined], which indexing [typeNames] yields for
    a key it does not have. *)
Definition getExaminationTypeDescription (typeNumber : Q) : option string :=
  let typeNames : gmap string string :=
    <["GP" := "General Practitioner"]> (<["KRV" := "Blood Test"]>
    (<["XRAY" := "X-Ray"]> (<["CT" := "Computed Tomography"]>
    (<["MR" := "Magnetic Resonance"]> (<["ULTRA" := "Ultrasound"]>
    (<["EKG" := "Electrocardiogram"]> (<["ECHO" := "Echocardiogram"]>
    (<["EYE" := "Eye Examination"]> (<["DERM" := "Dermatology"]>
    (<["DENTA" := "Dental"]> (<["MAMMO" := "Mammography"]>
    (<["NEURO" := "Neurology"]> ∅)))))))))))) in
  let typeName := index_by_number examinationTypeMap typeNumber in
  match typeName with
  | Some name => if truthy typeName then typeNames !! name else Some "Unknown Examination Type"
  | None => Some "Unknown Examination Type"
  end.

(** *** Dashboard.tsx: the statistics of the patients' ages *)

Module Dashboard.

(** [new Map<number, number>()]: the entries in insertion order. *)
Definition Map : Type := list (Z * Z).

(** [m.get(k)] *)
Fixpoint Map_get (k : Z) (m : Map) : option Z :=
  match m with
  | [] => None
  | (k', v) :: m => if (k' =? k)%Z then Some v else Map_get k m
  end.

(** [m.set(k, v)]: a key that is present keeps its place. *)
Fixpoint Map_set (k v : Z) (m : Map) : Map :=
  match m with
  | [] => [(k, v)]
  | (k', v') :: m => if (k' =? k)%Z then (k, v) :: m else (k', v') :: Map_set k v m
  end.

(** [Math.min(...ages)] and [Math.max(...ages)] of at least one
    number. *)
Definition Math_min (first : Z) (rest : list Z) : Z := fold_left Z.min rest first.
Definition Math_max (first : Z) (rest : list Z) : Z := fold_left Z.max rest first.

(** [Math.round]: the nearest integer, a half going up. *)
Definition Math_round (x : Q) : Z := Qfloor (x + (1 # 2)).

(** [xs.sort((a, b) => a - b)]: the numbers in ascending order. *)
Fixpoint insert (a : Z) (sorted : list Z) : list Z :=
  match sorted with
  | [] => [a]
  | b :: rest => if (a <=? b)%Z then a :: b :: rest else b :: insert a rest
  end.

Fixpoint sort (xs : list Z) : list Z :=
  match xs with
  | [] => []
  | a :: rest => insert a (sort rest)
  end.

(** The callback of [ages.forEach] that counts the patients of each
    age. *)
Definition count_step (ageCount : Map) (age : Z) : Map :=
  let count := default 0 (Map_get age ageCount) in
  Map_set age (count + 1) ageCount.

(** The callback of [ageCount.forEach] that looks for the most common
    age; the pair is [(maxCount, mode)]. *)
Definition best_step (best entry : Z * Z) : Z * Z :=
  let '(maxCount, mode) := best in
  let '(age, count) := entry in
  if (count >? maxCount)%Z then (count, age) else (maxCount, mode).

Record AgeStats := mkAgeStats {
  mean : Z;
  median : Z;
  mode : Z;
  range : Z * Z
}.

Section Patients.

Variable Patient : Type.

(** [getAge(new Date(patient.dateOfBirth))], a whole number of years. *)
Variable age_of : Patient -> Z.

(** The block under [if (patients.length > 0)] of the statistics effect:
    the age distribution, the age statistics and the selected age range
    it sets.  [None] is returned when the list is empty and the block is
    skipped, and when an index into [sortedAges] selects nothing, which
    would make the median no number. *)
Definition ageStatistics (patients : list Patient)
    : option (list (Z * Z) * AgeStats * (Z * Z)) :=
  let ages := map age_of patients in
  match ages with
  | [] => None
  | first :: rest =>
      let ageCount := fold_left count_step ages [] in
      let minAge := Math_min first rest in
      let maxAge := Math_max first rest in
      let ageDistribution :=
        map (fun age => (age, default 0 (Map_get age ageCount)))
            (seqZ minAge (maxAge - minAge + 1)) in
      let mean :=
        Math_round (inject_Z (fold_left (fun sum age => sum + age) ages 0)
                    / inject_Z (Z.of_nat (List.length ages))) in
      let sortedAges := sort ages in
      let middle := (List.length sortedAges / 2)%nat in
      median ← (if (List.length sortedAges mod 2 =? 0)%nat
                then below ← sortedAges !! (middle - 1)%nat;
                     above ← sortedAges !! middle;
                     Some (Math_round (inject_Z (below + above) / inject_Z 2))
                else sortedAges !! middle);
      let found := fold_left best_step ageCount (0, 0) in
      Some (ageDistribution, mkAgeStats mean median found.2 (minAge, maxAge),
            (minAge, maxAge))
  end.

(** [filteredPatients]: the patients whose age lies in the selected
    range. *)
Definition filteredPatients (patients : list Patient) (selectedAgeRange : Z * Z)
    : list Patient :=
  List.filter (fun patient =>
                 let age := age_of patient in
                 (selectedAgeRange.1 <=? age)%Z && (age <=? selectedAgeRange.2)%Z)
              patients.

End Patients.

(** The sum of a list of counts, and the number of patients of an age. *)
Definition total (counts : list Z) : Z := fold_right Z.add 0 counts.

Definition occ (k : Z) (l : list Z) : Z := Z.of_nat (count_occ Z.eq_dec l k).

Definition patients_aged {Patient : Type} (age_of : Patient -> Z)
    (patients : list Patient) (age : Z) : Z :=
  Z.of_nat (List.length (List.filter (fun patient => (age_of patient =? age)%Z) patients)).

End Dashboard.

(** *** MedicalHistories.tsx: the list filter *)

Module MedicalHistories.

Record Patient := mkPatient { firstName : string; lastName : string }.

Record MedicalHistory := mkMedicalHistory {
  diseaseName : string;
  endDate : option string;
  patient : option Patient
}.

Section Filter.

(** [String.prototype.toLowerCase] and [String.prototype.trim]. *)
Variable toLowerCase : string -> string.
Variable trim : string -> string.

(** The predicate of the search filter. *)
Definition matches (lowercasedSearch : string) (history : MedicalHistory) : bool :=
  includes lowercasedSearch (toLowerCase (diseaseName history)) ||
  match patient history with
  | Some p =>
      includes lowercasedSearch (toLowerCase (firstName p +:+ " " +:+ lastName p))
  | None => false
  end.

(** The list the filter effect hands to [setFilteredHistories]. *)
Definition filterHistories (medicalHistories : list MedicalHistory)
    (searchTerm statusFilter : string) : list MedicalHistory :=
  let filtered := medicalHistories in
  let filtered :=
    if negb (String.eqb (trim searchTerm) "") then
      let lowercasedSearch := toLowerCase searchTerm in
      List.filter (matches lowercasedSearch) filtered
    else filtered in
  if String.eqb statusFilter "active" then
    List.filter (fun history => negb (truthy (endDate history))) filtered
  else if String.eqb statusFilter "resolved" then
    List.filter (fun history => negb (negb (truthy (endDate history)))) filtered
  else filtered.

End Filter.
End MedicalHistories.

(** *** DataTable.tsx: paging *)

Module DataTable.

(** [xs.slice(start, end)] for whole numbers [0 <= start <= end]; both
    ends are clamped to the length. *)
Definition slice {T : Type} (start stop : nat) (xs : list T) : list T :=
  take (stop - start) (drop start xs).

(** The two state cells of the table.  The page number comes from the
    pagination control and the number of rows per page from its menu;
    both are whole numbers, not negative. *)
Record State := mkState {
  page : nat;            (* useState(0) *)
  rowsPerPage : nat      (* useState(10) *)
}.

Definition initial : State := mkState 0 10.

(** [handleChangePage(_event, newPage)] *)
Definition handleChangePage (newPage : nat) (s : State) : State :=
  mkState newPage (rowsPerPage s).

(** [handleChangeRowsPerPage(event)], with [+event.target.value] as
    [value]. *)
Definition handleChangeRowsPerPage (value : nat) (s : State) : State :=
  let s := mkState (page s) value in
  mkState 0 (rowsPerPage s).

(** The rows the table body renders. *)
Definition rows {T : Type} (data : list T) (s : State) : list T :=
  slice (page s * rowsPerPage s) (page s * rowsPerPage s + rowsPerPage s) data.

End DataTable.

(** ** Further observations *)

(** The user object is present exactly when the session is
    authenticated. *)
Definition coherent (w : World) : Prop :=
  isAuthenticated w = true <-> is_Some (user w).

(** The requests among the effects of a trace, oldest first. *)
Fixpoint requests (t : list event) : list AxiosRequestConfig :=
  match t with
  | [] => []
  | HttpSend c :: t => c :: requests t
  | _ :: t => requests t
  end.

(** What the session store has no business with: the location, the
    route and the login page's cells. *)
Definition page (w : World) : string * string * option string * bool :=
  (href w, route w, error w, loading w).

(** A call through an HTTP client wrapper issues one request, with the
    given method, url and data, and ends as the promise of that request
    settles: with [result] of the response for a 2xx status, and with
    the rejection otherwise. *)
Definition issues {A : Type} (server : AxiosRequestConfig -> option AxiosResponse)
    (call : M A) (w : World) (m u : string) (d : list (string * string))
    (result : AxiosResponse -> A) : Prop :=
  exists sent,
    requests (trace (call w).2) = requests (trace w) ++ [sent] /\
    method sent = m /\ url sent = u /\ data sent = d /\
    (call w).1 =
      match server sent with
      | Some r => if validateStatus (status r) then Normal (result r)
                  else Throw (AxiosRejection (mkError (Some r)))
      | None => Throw (AxiosRejection (mkError None))
      end.

(** The request a submission of the login form sends when the storage is
    [ls]: a POST of the two fields to the login endpoint, declared as
    JSON, with the bearer header of a non-empty stored token.  The base
    URL is left open: it is the one the instance was created with. *)
Definition login_request (username password : string) (ls : gmap string string)
    (sent : AxiosRequestConfig) : Prop :=
  url sent = "/Auth/Login" /\
  method sent = "post" /\
  data sent = [("username", username); ("password", password)] /\
  headers sent !! "Content-Type" = Some "application/json" /\
  headers sent !! "Authorization" =
    match ls !! "token" with
    | Some tok => if decide (tok = "") then None else Some ("Bearer " +:+ tok)
    | None => None
    end.

(** * Properties *)

(** ** Numbers and truthiness *)

Lemma number_gt_spec (a b : Q) : number_gt a b = true <-> (b < a)%Q.
Proof.
  unfold number_gt. rewrite negb_true_iff, <- not_true_iff_false, Qle_bool_iff.
  split; [apply Qnot_le_lt | apply Qlt_not_le].
Qed.

Lemma number_gt_false (a b : Q) : number_gt a b = false <-> (a <= b)%Q.
Proof.
  unfold number_gt. rewrite negb_false_iff. apply Qle_bool_iff.
Qed.

(** *** Exact numbers and doubles

    The program compares doubles where the embedding compares exact
    numbers.  Rounding to the nearest double is monotone, and that is
    all the following needs of it.  A comparison that succeeds on the
    rounded numbers succeeds on the exact ones, and one that fails on the
    exact ones fails on the rounded ones.  An instant at least one tick
    of the clock after a reading still compares greater after rounding
    wherever rounding keeps that reading and the next one apart, as it
    does across the range of JavaScript dates, where doubles lie less
    than a thousandth of a second apart. *)
Section Rounding.

Variable fl : Q -> Q.
Hypothesis fl_monotone : forall a b : Q, (a <= b)%Q -> (fl a <= fl b)%Q.

Lemma exact_le_rounded (a b : Q) :
  number_gt a b = false -> number_gt (fl a) (fl b) = false.
Proof. rewrite !number_gt_false. apply fl_monotone. Qed.

Lemma rounded_gt_exact (a b : Q) :
  number_gt (fl a) (fl b) = true -> number_gt a b = true.
Proof.
  intros H. destruct (number_gt a b) eqn:E; [reflexivity|].
  rewrite (exact_le_rounded a b E) in H. discriminate.
Qed.

Lemma rounded_gt_after_tick (now : Z) (exp : Q) :
  (fl (now # 1000) < fl ((now + 1) # 1000))%Q ->
  ((now + 1) # 1000 <= exp)%Q ->
  number_gt (fl exp) (fl (now # 1000)) = true.
Proof.
  intros Htick Hexp. apply number_gt_spec.
  apply Qlt_le_trans with (fl ((now + 1) # 1000)); [exact Htick|].
  apply fl_monotone. exact Hexp.
Qed.

End Rounding.

Lemma truthy_Some (s : string) : truthy (Some s) = true <-> s <> "".
Proof.
  simpl. rewrite negb_true_iff, String.eqb_neq. reflexivity.
Qed.

Lemma truthy_empty : truthy (Some "") = false.
Proof. reflexivity. Qed.

(** A clock reading in milliseconds against an expiry instant in whole
    seconds. *)
Lemma before_expiry (later e : Z) :
  (later # 1000 < inject_Z e)%Q <-> later < e * 1000.
Proof. unfold Qlt, inject_Z. cbn [Qnum Qden]. lia. Qed.

Lemma after_expiry (later e : Z) :
  (inject_Z e <= later # 1000)%Q <-> e * 1000 <= later.
Proof. unfold Qle, inject_Z. cbn [Qnum Qden]. lia. Qed.

(** An instant at least one tick of the clock after a reading is after
    that reading. *)
Lemma one_tick_later (now : Z) (exp : Q) :
  ((now + 1) # 1000 <= exp)%Q -> (now # 1000 < exp)%Q.
Proof.
  intros H. apply Qlt_le_trans with ((now + 1) # 1000)%Q; [|exact H].
  unfold Qlt. cbn [Qnum Qden]. lia.
Qed.

(** ** Session store *)

Section AuthContextFacts.

Variable jwtDecode : Decoder.

(** *** The decoder's outcomes *)

Lemma payload_Some (tok : string) (p : JwtPayload.t) :
  jwtDecode tok = Some p <-> decode jwtDecode tok = Some (WithExpiry p).
Proof.
  unfold payload. destruct (decode jwtDecode tok) as [[]|]; split; congruence.
Qed.

Lemma payload_None (tok : string) :
  jwtDecode tok = None <->
  decode jwtDecode tok = None \/
  decode jwtDecode tok = Some Null \/
  exists nameid unique_name role,
    decode jwtDecode tok = Some (WithoutExpiry nameid unique_name role).
Proof.
  unfold payload. destruct (decode jwtDecode tok) as [[]|]; split; intros H;
    eauto 6; try discriminate;
    destruct H as [H | [H | (? & ? & ? & H)]]; discriminate.
Qed.

(** *** Initialize, case by case *)

Lemma initialize_absent (w : World) :
  localStorage w !! "token" = None -> initialize jwtDecode w = (Normal tt, w).
Proof.
  intros H. unfold initialize, bind, Storage.getItem. simpl.
  rewrite H. reflexivity.
Qed.

Lemma initialize_empty (w : World) :
  localStorage w !! "token" = Some "" -> initialize jwtDecode w = (Normal tt, w).
Proof.
  intros H. unfold initialize, bind, Storage.getItem. simpl.
  rewrite H. reflexivity.
Qed.

Lemma initialize_undecodable (w : World) (tok : string) :
  localStorage w !! "token" = Some tok -> tok <> "" ->
  jwtDecode tok = None ->
  initialize jwtDecode w = Storage.removeItem "token" w.
Proof.
  intros H Hne Hd. apply truthy_Some in Hne.
  unfold initialize, bind, Storage.getItem. simpl fst. cbv beta iota.
  rewrite H, Hne. unfold try_catch, jwtDecodeM, bind.
  apply payload_None in Hd.
  destruct Hd as [-> | [-> | (nameid & unique_name & role & ->)]]; reflexivity.
Qed.

Lemma initialize_expired (w : World) (tok : string) (p : JwtPayload.t) :
  localStorage w !! "token" = Some tok -> tok <> "" ->
  jwtDecode tok = Some p ->
  (JwtPayload.exp p <= clock w # 1000)%Q ->
  initialize jwtDecode w = Storage.removeItem "token" w.
Proof.
  intros H Hne Hd Hexp. apply truthy_Some in Hne. apply number_gt_false in Hexp.
  unfold initialize, bind, Storage.getItem. simpl fst. cbv beta iota.
  rewrite H, Hne. unfold try_catch, jwtDecodeM, bind.
  apply payload_Some in Hd. rewrite Hd.
  unfold Date_now, exp_gt, ret. cbv beta iota zeta.
  rewrite Hexp. reflexivity.
Qed.

Lemma initialize_valid (w : World) (tok : string) (p : JwtPayload.t) :
  localStorage w !! "token" = Some tok -> tok <> "" ->
  jwtDecode tok = Some p ->
  (clock w # 1000 < JwtPayload.exp p)%Q ->
  initialize jwtDecode w =
    (setIsAuthenticated true ;;; setUser (Some (user_of p))) w.
Proof.
  intros H Hne Hd Hexp. apply truthy_Some in Hne. apply number_gt_spec in Hexp.
  unfold initialize, bind, Storage.getItem. simpl fst. cbv beta iota.
  rewrite H, Hne. unfold try_catch, jwtDecodeM, bind.
  apply payload_Some in Hd. rewrite Hd.
  unfold Date_now, exp_gt, ret. cbv beta iota zeta.
  rewrite Hexp. reflexivity.
Qed.

(** *** Logout *)

Lemma logout_run (w : World) :
  logout w =
    (Normal tt,
     mkWorld (delete "token" (localStorage w)) false None (error w) (loading w)
             (href w) (route w) (clock w)
             (trace w ++ [StorageRemove "token"; SetIsAuthenticated false; SetUser None])).
Proof.
  unfold logout, bind, Storage.removeItem, setIsAuthenticated, setUser, emit. simpl.
  rewrite <- !app_assoc. reflexivity.
Qed.

(** C7.  Logout always completes normally, whatever the prior state;
    afterwards the session is unauthenticated, carries no user, and the
    storage has no entry under the token key.  A second logout completes
    normally as well and leaves the session exactly as the first one
    did. *)
Theorem logout_succeeds_and_is_idempotent (w : World) :
  (logout w).1 = Normal tt /\
  isAuthenticated (logout w).2 = false /\
  user (logout w).2 = None /\
  localStorage (logout w).2 !! "token" = None /\
  (logout (logout w).2).1 = Normal tt /\
  session (logout (logout w).2).2 = session (logout w).2.
Proof.
  rewrite !logout_run. simpl. unfold session. simpl.
  rewrite lookup_delete_eq, delete_delete_eq. repeat split.
Qed.

(** *** Login *)

Lemma login_run_ok (token : string) (p : JwtPayload.t) (w : World) :
  jwtDecode token = Some p ->
  login jwtDecode token w =
    (Normal tt,
     mkWorld (<["token" := token]> (localStorage w)) true (Some (user_of p))
             (error w) (loading w) (href w) (route w) (clock w)
             (trace w ++ [StorageSet "token" token; SetIsAuthenticated true;
                          SetUser (Some (user_of p))])).
Proof.
  intros Hd. apply payload_Some in Hd.
  unfold login, setUser_from, get_nameid, get_unique_name, get_role, bind,
    Storage.setItem, jwtDecodeM, setIsAuthenticated, setUser, emit.
  simpl. rewrite Hd. unfold ret. simpl. rewrite <- !app_assoc. reflexivity.
Qed.

Lemma login_run_undated (token : string) (nameid unique_name role : JsValue) (w : World) :
  decode jwtDecode token = Some (WithoutExpiry nameid unique_name role) ->
  login jwtDecode token w =
    (Normal tt,
     mkWorld (<["token" := token]> (localStorage w)) true
             (Some (User.mk nameid unique_name role))
             (error w) (loading w) (href w) (route w) (clock w)
             (trace w ++ [StorageSet "token" token; SetIsAuthenticated true;
                          SetUser (Some (User.mk nameid unique_name role))])).
Proof.
  intros Hd.
  unfold login, setUser_from, get_nameid, get_unique_name, get_role, bind,
    Storage.setItem, jwtDecodeM, setIsAuthenticated, setUser, emit.
  simpl. rewrite Hd. unfold ret. simpl. rewrite <- !app_assoc. reflexivity.
Qed.

Lemma login_run_throw (token : string) (w : World) :
  decode jwtDecode token = None ->
  login jwtDecode token w =
    (Throw InvalidTokenError,
     mkWorld (<["token" := token]> (localStorage w)) (isAuthenticated w) (user w)
             (error w) (loading w) (href w) (route w) (clock w)
             (trace w ++ [StorageSet "token" token])).
Proof.
  intros Hd.
  unfold login, bind, Storage.setItem, jwtDecodeM, emit.
  simpl. rewrite Hd. reflexivity.
Qed.

Lemma login_run_null (token : string) (w : World) :
  decode jwtDecode token = Some Null ->
  login jwtDecode token w =
    (Throw TypeError,
     mkWorld (<["token" := token]> (localStorage w)) true (user w)
             (error w) (loading w) (href w) (route w) (clock w)
             (trace w ++ [StorageSet "token" token; SetIsAuthenticated true])).
Proof.
  intros Hd.
  unfold login, setUser_from, get_nameid, bind, Storage.setItem, jwtDecodeM,
    setIsAuthenticated, emit.
  simpl. rewrite Hd. unfold ret. simpl. rewrite <- !app_assoc. reflexivity.
Qed.

(** Whatever the decoder does, login has written the token and has
    touched neither another storage entry nor the page. *)
Lemma login_storage (token : string) (w : World) :
  localStorage (login jwtDecode token w).2 = <["token" := token]> (localStorage w) /\
  page (login jwtDecode token w).2 = page w.
Proof.
  destruct (decode jwtDecode token) as [[p|nameid unique_name role|]|] eqn:Hd.
  - apply payload_Some in Hd. rewrite (login_run_ok _ _ _ Hd). split; reflexivity.
  - rewrite (login_run_undated _ _ _ _ _ Hd). split; reflexivity.
  - rewrite (login_run_null _ _ Hd). split; reflexivity.
  - rewrite (login_run_throw _ _ Hd). split; reflexivity.
Qed.

(** C6.  Whatever string is passed to login, the storage write is the
    first effect and precedes every state update, and the token is in
    storage when login ends, however it ends.  If the decoder returns a
    value other than [null], login returns normally and the stored token
    and the identity in memory belong together: the store holds the
    token, and the user has the [nameid] of that token's payload as id,
    its [unique_name] as username and its [role] as role (also when the
    payload has no usable [exp], which login does not read).  If the
    decoder throws, the exception leaves login uncaught and no state
    update has happened.  If the decoder returns [null], the
    authenticated flag is raised and the read of the first field then
    throws, uncaught as well; the user is left as it was. *)
Theorem login_writes_storage_first (token : string) (w : World) :
  let r := login jwtDecode token w in
  localStorage r.2 !! "token" = Some token /\
  (exists updates, trace r.2 = trace w ++ StorageSet "token" token :: updates) /\
  match decode jwtDecode token with
  | Some (WithExpiry p) =>
      let identity := User.mk (JwtPayload.nameid p) (JwtPayload.unique_name p)
                              (JwtPayload.role p) in
      r.1 = Normal tt /\
      trace r.2 = trace w ++ [StorageSet "token" token; SetIsAuthenticated true;
                              SetUser (Some identity)] /\
      isAuthenticated r.2 = true /\
      user r.2 = Some identity /\
      user r.2 = (stored ← localStorage r.2 !! "token";
                  q ← jwtDecode stored;
                  Some (User.mk (JwtPayload.nameid q) (JwtPayload.unique_name q)
                                (JwtPayload.role q)))
  | Some (WithoutExpiry nameid unique_name role) =>
      let identity := User.mk nameid unique_name role in
      r.1 = Normal tt /\
      trace r.2 = trace w ++ [StorageSet "token" token; SetIsAuthenticated true;
                              SetUser (Some identity)] /\
      isAuthenticated r.2 = true /\
      user r.2 = Some identity
  | Some Null =>
      r.1 = Throw TypeError /\
      trace r.2 = trace w ++ [StorageSet "token" token; SetIsAuthenticated true] /\
      isAuthenticated r.2 = true /\
      user r.2 = user w
  | None =>
      r.1 = Throw InvalidTokenError /\
      trace r.2 = trace w ++ [StorageSet "token" token] /\
      isAuthenticated r.2 = isAuthenticated w /\
      user r.2 = user w
  end.
Proof.
  cbv zeta. split.
  { rewrite (proj1 (login_storage token w)). apply lookup_insert_eq. }
  destruct (decode jwtDecode token) as [[p|nameid unique_name role|]|] eqn:Hd.
  - apply payload_Some in Hd. rewrite (login_run_ok _ _ _ Hd). simpl.
    split; [eexists; reflexivity|]. rewrite lookup_insert_eq. simpl. rewrite Hd.
    repeat split.
  - rewrite (login_run_undated _ _ _ _ _ Hd). simpl.
    split; [eexists; reflexivity|]. repeat split.
  - rewrite (login_run_null _ _ Hd). simpl.
    split; [eexists; reflexivity|]. repeat split.
  - rewrite (login_run_throw _ _ Hd). simpl.
    split; [eexists; reflexivity|]. repeat split.
Qed.

(** C10.  Login never looks at the expiry instant: every token that
    decodes yields an authenticated session with the decoded identity,
    whatever its expiry instant and whatever the time.  In particular a
    token whose expiry instant is not after the current time is accepted
    by login, while initialize, finding the same token persisted at that
    same instant, leaves the session unauthenticated. *)
Theorem login_performs_no_expiry_check
    (token : string) (p : JwtPayload.t) (ls : gmap string string) (h : string) (now : Z) :
  jwtDecode token = Some p ->
  let r := login jwtDecode token (fresh ls h now) in
  let i := initialize jwtDecode (fresh (<["token" := token]> ls) h now) in
  r.1 = Normal tt /\
  isAuthenticated r.2 = true /\
  user r.2 = Some (User.mk (JwtPayload.nameid p) (JwtPayload.unique_name p)
                           (JwtPayload.role p)) /\
  ((JwtPayload.exp p <= now # 1000)%Q ->
   isAuthenticated i.2 = false /\ user i.2 = None).
Proof.
  intros Hd r i. subst r i.
  rewrite (login_run_ok _ _ _ Hd). simpl.
  repeat split.
  - destruct (decide (token = "")) as [->|Hne].
    + rewrite initialize_empty; [reflexivity|]. simpl. apply lookup_insert_eq.
    + rewrite (initialize_expired _ token p); auto. simpl. apply lookup_insert_eq.
  - destruct (decide (token = "")) as [->|Hne].
    + rewrite initialize_empty; [reflexivity|]. simpl. apply lookup_insert_eq.
    + rewrite (initialize_expired _ token p); auto. simpl. apply lookup_insert_eq.
Qed.

(** *** Initialize *)

(** C4 (amended).  Let the storage hold a value under the token key that
    is undecodable or whose expiry instant is in the past (or is the
    current time).  Then initialize completes normally and the session
    is unauthenticated with no user.  A non-empty value is removed from
    storage; the empty string is taken for an absent token and stays
    where it is. *)
Theorem initialize_discards_invalid_token
    (ls : gmap string string) (h : string) (now : Z) (tok : string) :
  ls !! "token" = Some tok ->
  (jwtDecode tok = None \/
   exists p, jwtDecode tok = Some p /\ (JwtPayload.exp p <= now # 1000)%Q) ->
  let r := initialize jwtDecode (fresh ls h now) in
  r.1 = Normal tt /\
  isAuthenticated r.2 = false /\
  user r.2 = None /\
  localStorage r.2 = (if decide (tok = "") then ls else delete "token" ls).
Proof.
  intros Hls Hbad r. subst r.
  destruct (decide (tok = "")) as [->|Hne].
  - rewrite initialize_empty by exact Hls. repeat split.
  - assert (initialize jwtDecode (fresh ls h now)
            = Storage.removeItem "token" (fresh ls h now)) as ->.
    { destruct Hbad as [Hd | (p & Hd & Hexp)].
      - apply (initialize_undecodable _ tok); auto.
      - apply (initialize_expired _ tok p); auto. }
    repeat split.
Qed.

(** From here on the decoder is known to reject the empty string, as
    jwt-decode does (an empty token has no second part). *)
Hypothesis jwtDecode_empty : jwtDecode "" = None.

Lemma decodable_nonempty (tok : string) (p : JwtPayload.t) :
  jwtDecode tok = Some p -> tok <> "".
Proof. intros Hd ->. congruence. Qed.

(** C3.  The expiry test is a strict greater-than.  For a persisted
    token that decodes, initialize authenticates only when the expiry
    instant is strictly after the current time; when the two are equal
    the token counts as expired: initialize completes normally, the
    session is unauthenticated without a user, and the token is gone from
    storage. *)
Theorem initialize_expiry_is_strict
    (ls : gmap string string) (h : string) (now : Z) (tok : string) (p : JwtPayload.t) :
  ls !! "token" = Some tok ->
  jwtDecode tok = Some p ->
  let r := initialize jwtDecode (fresh ls h now) in
  (isAuthenticated r.2 = true -> (now # 1000 < JwtPayload.exp p)%Q) /\
  ((JwtPayload.exp p == now # 1000)%Q ->
   r.1 = Normal tt /\
   isAuthenticated r.2 = false /\
   user r.2 = None /\
   localStorage r.2 !! "token" = None).
Proof.
  intros Hls Hd r. subst r.
  pose proof (decodable_nonempty _ _ Hd) as Hne.
  split.
  - destruct (Qlt_le_dec (now # 1000) (JwtPayload.exp p)) as [Hlt | Hle].
    + intros _. exact Hlt.
    + rewrite (initialize_expired _ tok p); auto. simpl. discriminate.
  - intros Heq.
    rewrite (initialize_expired _ tok p); auto.
    + simpl. rewrite lookup_delete_eq. repeat split.
    + simpl. rewrite Heq. apply Qle_refl.
Qed.


End AuthContextFacts.

(** ** Route guard *)

(** C8.  The guard has two outcomes and the authenticated flag alone
    picks one: when it is true the protected view is rendered (the
    children, or the outlet of the nested routes); when it is false the
    guard renders a redirect to the login view.  The redirect replaces
    the history entry and hands over no state, and nothing in the result
    depends on the view that was requested. *)
Theorem PrivateRoute_admits_iff_authenticated
    {Node : Type} (children : option Node) (w : World) :
  PrivateRoute children w =
    (if isAuthenticated w
     then match children with Some c => Fragment c | None => Outlet end
     else Navigate "/login" true None) /\
  admits (PrivateRoute children w) = isAuthenticated w /\
  forall requested : string,
    PrivateRoute children (visiting requested w) = PrivateRoute children w.
Proof.
  unfold PrivateRoute. simpl.
  destruct (isAuthenticated w), children; simpl; repeat split.
Qed.

(** ** HTTP client wrappers *)

Lemma ApiClient_on_request_run (config : AxiosRequestConfig) (w : World) :
  ApiClient.on_request config w =
    (Normal (match localStorage w !! "token" with
             | Some tok =>
                 if decide (tok = "") then config
                 else set_header "Authorization" ("Bearer " +:+ tok) config
             | None => config
             end), w).
Proof.
  unfold ApiClient.on_request, bind, Storage.getItem. simpl.
  destruct (localStorage w !! "token") as [tok|]; [|reflexivity].
  destruct (decide (tok = "")) as [->|Hne]; [reflexivity|].
  apply truthy_Some in Hne. rewrite Hne. reflexivity.
Qed.

Lemma set_header_frame (k v : string) (config : AxiosRequestConfig) :
  url (set_header k v config) = url config /\
  method (set_header k v config) = method config /\
  baseURL (set_header k v config) = baseURL config /\
  data (set_header k v config) = data config /\
  forall k', k' <> k -> headers (set_header k v config) !! k' = headers config !! k'.
Proof.
  repeat split. intros k' Hk. simpl. apply lookup_insert_ne. congruence.
Qed.

(** C9 (amended).  The request interceptor of [apiClient] consults the
    storage only, never the session state in memory, and leaves the world
    as it is.  When the stored token is a non-empty string, the outgoing
    configuration is the incoming one with the Authorization header set
    to [Bearer ] followed by the token.  When the storage has no entry,
    or holds the empty string, the configuration is returned unchanged.
    In every case the url, method, base URL, data and all headers other
    than Authorization are those of the incoming configuration. *)
Theorem apiClient_request_interceptor_frame (config : AxiosRequestConfig) (w : World) :
  exists config' : AxiosRequestConfig,
    ApiClient.on_request config w = (Normal config', w) /\
    config' = match localStorage w !! "token" with
              | Some tok =>
                  if decide (tok = "") then config
                  else set_header "Authorization" ("Bearer " +:+ tok) config
              | None => config
              end /\
    (forall w' : World,
       localStorage w' = localStorage w ->
       (ApiClient.on_request config w').1 = Normal config') /\
    url config' = url config /\
    method config' = method config /\
    baseURL config' = baseURL config /\
    data config' = data config /\
    forall k, k <> "Authorization" -> headers config' !! k = headers config !! k.
Proof.
  eexists. split; [apply ApiClient_on_request_run|]. split; [reflexivity|].
  split.
  { intros w' Hls. rewrite ApiClient_on_request_run, Hls. reflexivity. }
  destruct (localStorage w !! "token") as [tok|]; [|repeat split].
  destruct (decide (tok = "")); [repeat split|].
  apply set_header_frame.
Qed.

(** C9, as stated, fails on a stored empty string: the storage has an
    entry under the token key, yet the request leaves the interceptor
    without an Authorization header. *)
Lemma apiClient_request_skips_empty_token :
  let w := fresh {[ "token" := "" ]} "/" 0 in
  let config := apiClient_defaults "get" "/Patient" [] in
  localStorage w !! "token" = Some "" /\
  exists config',
    ApiClient.on_request config w = (Normal config', w) /\
    headers config' !! "Authorization" = None.
Proof.
  cbv zeta. split; [reflexivity|].
  eexists. split; [apply ApiClient_on_request_run|]. reflexivity.
Qed.

(** *** Response interceptors *)

Lemma ApiClient_on_error_401 (e : AxiosError) (r : AxiosResponse) (w : World) :
  response e = Some r -> status r = 401 ->
  ApiClient.on_error e w =
    (Throw (AxiosRejection e),
     mkWorld (delete "token" (localStorage w)) (isAuthenticated w) (user w)
             (error w) (loading w) "/login" (route w) (clock w)
             (trace w ++ [StorageRemove "token"; LocationAssign "/login"])).
Proof.
  intros Hr Hs. unfold ApiClient.on_error, bind. rewrite Hr, Hs. simpl.
  unfold emit. simpl. rewrite <- app_assoc. reflexivity.
Qed.

Lemma ApiClient_on_error_other (e : AxiosError) (w : World) :
  (forall r, response e = Some r -> status r <> 401) ->
  ApiClient.on_error e w = (Throw (AxiosRejection e), w).
Proof.
  intros H. unfold ApiClient.on_error, bind.
  destruct (response e) as [r|]; [|reflexivity].
  specialize (H r eq_refl). apply Z.eqb_neq in H. rewrite H. reflexivity.
Qed.

Lemma Api_on_error_rejected (e : AxiosError) (r : AxiosResponse) (w : World) :
  response e = Some r -> status r = 401 \/ status r = 403 ->
  Api.on_error e w =
    (Throw (AxiosRejection e),
     mkWorld (delete "token" (localStorage w)) (isAuthenticated w) (user w)
             (error w) (loading w) "/login" (route w) (clock w)
             (trace w ++ [StorageRemove "token"; LocationAssign "/login"])).
Proof.
  intros Hr Hs. unfold Api.on_error, bind. rewrite Hr.
  assert ((status r =? 401)%Z || (status r =? 403)%Z = true) as ->.
  { destruct Hs as [-> | ->]; reflexivity. }
  simpl. unfold emit. simpl. rewrite <- app_assoc. reflexivity.
Qed.

Lemma Api_on_error_other (e : AxiosError) (w : World) :
  (forall r, response e = Some r -> status r <> 401 /\ status r <> 403) ->
  Api.on_error e w = (Throw (AxiosRejection e), w).
Proof.
  intros H. unfold Api.on_error, bind.
  destruct (response e) as [r|]; [|reflexivity].
  destruct (H r eq_refl) as [H1 H3].
  apply Z.eqb_neq in H1, H3. rewrite H1, H3. reflexivity.
Qed.

(** C1 (amended).  The two wrappers differ in the statuses their
    incoming interceptor acts on.  That of [api], through which the
    application's requests go, acts on 401 and on 403: the token is
    removed from storage and the browser is sent to the login view, with
    the session in memory left as it was.  That of [apiClient], which
    carries the login request only, does the same on 401 alone, so that
    a 403 passes like any other error.  In both wrappers a fulfilled
    response is handed on as it came, every error reaches the caller as
    it came, and an error of any other kind, one without a response
    included, leaves the world untouched.  Neither handler looks at the
    request, so the endpoint makes no difference. *)
Theorem incoming_interceptors_clear_session (w : World) :
  let cleared :=
    mkWorld (delete "token" (localStorage w)) (isAuthenticated w) (user w)
            (error w) (loading w) "/login" (route w) (clock w)
            (trace w ++ [StorageRemove "token"; LocationAssign "/login"]) in
  (forall r, Api.on_response r w = (Normal r, w)) /\
  (forall r, ApiClient.on_response r w = (Normal r, w)) /\
  (forall e,
     Api.on_error e w =
       (Throw (AxiosRejection e),
        match response e with
        | Some r => if decide (status r = 401 \/ status r = 403) then cleared else w
        | None => w
        end)) /\
  (forall e,
     ApiClient.on_error e w =
       (Throw (AxiosRejection e),
        match response e with
        | Some r => if decide (status r = 401) then cleared else w
        | None => w
        end)).
Proof.
  cbv zeta. split; [reflexivity|]. split; [reflexivity|]. split.
  - intros e. destruct (response e) as [r|] eqn:Hr.
    + destruct (decide (status r = 401 \/ status r = 403)) as [Hs|Hs].
      * apply (Api_on_error_rejected e r w Hr Hs).
      * apply Api_on_error_other. intros r' Hr'.
        rewrite Hr in Hr'. injection Hr' as <-. tauto.
    + apply Api_on_error_other. intros r' Hr'. congruence.
  - intros e. destruct (response e) as [r|] eqn:Hr.
    + destruct (decide (status r = 401)) as [Hs|Hs].
      * apply (ApiClient_on_error_401 e r w Hr Hs).
      * apply ApiClient_on_error_other. intros r' Hr'.
        rewrite Hr in Hr'. injection Hr' as <-. exact Hs.
    + apply ApiClient_on_error_other. intros r' Hr'. congruence.
Qed.

(** A request through [apiClient], stage by stage. *)
Lemma apiClient_request_run
    (server : AxiosRequestConfig -> option AxiosResponse)
    (config sent : AxiosRequestConfig) (w : World) :
  ApiClient.on_request config w = (Normal sent, w) ->
  apiClient_request server config w =
    match server sent with
    | Some r =>
        if validateStatus (status r) then (Normal r, emit (HttpSend sent) w)
        else ApiClient.on_error (mkError (Some r)) (emit (HttpSend sent) w)
    | None => ApiClient.on_error (mkError None) (emit (HttpSend sent) w)
    end.
Proof.
  intros Hreq. unfold apiClient_request, axios_request, bind. rewrite Hreq.
  unfold dispatch. destruct (server sent) as [r|]; [|reflexivity].
  destruct (validateStatus (status r)); reflexivity.
Qed.

(** A request through [apiClient], end to end: the request interceptor
    contributes [sent], the request goes out, and only a response with
    status 401 touches the storage and the location. *)
Lemma apiClient_request_effect
    (server : AxiosRequestConfig -> option AxiosResponse)
    (config : AxiosRequestConfig) (w : World) :
  let sent := match localStorage w !! "token" with
              | Some tok =>
                  if decide (tok = "") then config
                  else set_header "Authorization" ("Bearer " +:+ tok) config
              | None => config
              end in
  let out := apiClient_request server config w in
  match server sent with
  | Some r =>
      if (status r =? 401)%Z then
        out.1 = Throw (AxiosRejection (mkError (Some r))) /\
        localStorage out.2 = delete "token" (localStorage w) /\
        href out.2 = "/login"
      else
        out.1 = (if validateStatus (status r) then Normal r
                 else Throw (AxiosRejection (mkError (Some r)))) /\
        localStorage out.2 = localStorage w /\
        href out.2 = href w
  | None =>
      out.1 = Throw (AxiosRejection (mkError None)) /\
      localStorage out.2 = localStorage w /\
      href out.2 = href w
  end.
Proof.
  intros sent out. subst out.
  rewrite (apiClient_request_run server config sent w (ApiClient_on_request_run config w)).
  destruct (server sent) as [r|]; [|repeat split].
  destruct (status r =? 401)%Z eqn:E.
  - apply Z.eqb_eq in E. unfold validateStatus. rewrite E.
    change ((200 <=? 401)%Z && (401 <? 300)%Z) with false. cbv iota.
    rewrite (ApiClient_on_error_401 (mkError (Some r)) r _ eq_refl E).
    repeat split.
  - destruct (validateStatus (status r)); [repeat split|].
    rewrite ApiClient_on_error_other; [repeat split|].
    intros r' [= <-]. now apply Z.eqb_neq.
Qed.

(** C1, as stated, fails on the login request.  With a token in storage,
    the login form is submitted and the service answers 403: the request
    through [apiClient] is rejected with the error, the token is still in
    storage, and neither a storage removal nor an assignment to the
    location is among the effects; the form shows the message of the
    response. *)
Lemma login_request_keeps_token_on_403 :
  let w := fresh {[ "token" := sample_token ]} "/login" 1000 in
  let r := mkResponse 403 (mkData None (Some "Account locked")) in
  let server := fun _ : AxiosRequestConfig => Some r in
  let sent := set_header "Authorization" ("Bearer " +:+ sample_token)
                (apiClient_defaults "post" "/Auth/Login"
                   [("username", "alice"); ("password", "secret")]) in
  let request := apiClient_post server "/Auth/Login"
                   [("username", "alice"); ("password", "secret")] w in
  let submitted := handleSubmit JwtDecode.jwtDecode server "alice" "secret" w in
  request.1 = Throw (AxiosRejection (mkError (Some r))) /\
  localStorage request.2 !! "token" = Some sample_token /\
  trace request.2 = [HttpSend sent] /\
  submitted.1 = Normal tt /\
  localStorage submitted.2 !! "token" = Some sample_token /\
  href submitted.2 = "/login" /\
  error submitted.2 = Some "Account locked" /\
  trace submitted.2 = [SetError None; SetLoading true; HttpSend sent;
                       SetError (Some "Account locked"); SetLoading false].
Proof.
  cbv zeta. vm_compute. repeat split.
Qed.

(** ** Library models *)

Module Base64Facts.
Import Base64.

Lemma val_chr (s : sextet) : val (chr s) = Some s.
Proof. destruct s as [[] [] [] [] [] []]; reflexivity. Qed.

Lemma chr_not_pad (s : sextet) : chr_eq (chr s) pad = false.
Proof. destruct s as [[] [] [] [] [] []]; reflexivity. Qed.

Lemma chr_not_whitespace (s : sextet) : is_ascii_whitespace (chr s) = false.
Proof. destruct s as [[] [] [] [] [] []]; reflexivity. Qed.

Lemma byte1_spec (a b : ascii) : byte1 (hi6 a) (lo2_hi4 a b) = a.
Proof. destruct a, b; reflexivity. Qed.

Lemma byte2_spec (a b c : ascii) : byte2 (lo2_hi4 a b) (lo4_hi2 b c) = b.
Proof. destruct a, b, c; reflexivity. Qed.

Lemma byte3_spec (b c : ascii) : byte3 (lo4_hi2 b c) (lo6 c) = c.
Proof. destruct b, c; reflexivity. Qed.

(** Induction over a list three elements at a time. *)
Lemma list_ind3 {A} (P : list A -> Prop) :
  P [] -> (forall a, P [a]) -> (forall a b, P [a; b]) ->
  (forall a b c l, P l -> P (a :: b :: c :: l)) ->
  forall l, P l.
Proof.
  intros H0 H1 H2 H3.
  fix IH 1. intros [|a [|b [|c l]]];
    [apply H0 | apply H1 | apply H2 | apply H3, IH].
Qed.

Lemma dec4_chr (x y z t : sextet) (rest : option (list ascii)) :
  dec4 (chr x) (chr y) (chr z) (chr t) rest =
    r ← rest; Some (byte1 x y :: byte2 y z :: byte3 z t :: r).
Proof. unfold dec4. rewrite !val_chr. reflexivity. Qed.

Lemma decode_encode (l : list ascii) : decode (encode l) = Some l.
Proof.
  induction l as [|a|a b|a b c l IH] using list_ind3.
  - reflexivity.
  - cbn [encode decode]. unfold chr_eq. rewrite Ascii.eqb_refl.
    unfold dec2. rewrite !val_chr. cbn. rewrite byte1_spec. reflexivity.
  - cbn [encode decode]. rewrite chr_not_pad. unfold chr_eq at 1. rewrite Ascii.eqb_refl.
    unfold dec3. rewrite !val_chr. cbn. rewrite byte1_spec, byte2_spec. reflexivity.
  - cbn [encode]. cbn [decode]. fold decode.
    destruct l as [|x l'].
    + cbn [encode]. rewrite chr_not_pad, dec4_chr. cbn.
      rewrite byte1_spec, byte2_spec, byte3_spec. reflexivity.
    + assert (exists h t, encode (x :: l') = h :: t) as (h & t & E).
      { destruct l' as [|y [|z l'']]; cbn [encode]; eauto. }
      rewrite E in *. rewrite IH, dec4_chr. cbn.
      rewrite byte1_spec, byte2_spec, byte3_spec. reflexivity.
Qed.

Lemma encode_chars (l : list ascii) : Forall b64char (encode l).
Proof.
  assert (Hc : forall s, b64char (chr s)) by (intros s; right; eauto).
  assert (Hp : b64char pad) by now left.
  induction l as [|a|a b|a b c l IH] using list_ind3; cbn [encode];
    repeat (apply Forall_cons; split); auto.
Qed.

Lemma encode_length (l : list ascii) : (List.length (encode l) mod 4 = 0)%nat.
Proof.
  induction l as [|a|a b|a b c l IH] using list_ind3; cbn [encode]; try reflexivity.
  change (List.length (_ :: _ :: _ :: _ :: encode l)) with (4 + List.length (encode l))%nat.
  rewrite <- Nat.Div0.add_mod_idemp_r, IH. reflexivity.
Qed.

Lemma filter_b64 (l : list ascii) :
  Forall b64char l ->
  List.filter (fun c => negb (is_ascii_whitespace c)) l = l.
Proof.
  induction 1 as [|c l Hc _ IH]; [reflexivity|]. cbn [List.filter].
  assert (is_ascii_whitespace c = false) as ->.
  { destruct Hc as [-> | [s ->]]; [reflexivity | apply chr_not_whitespace]. }
  cbn. now rewrite IH.
Qed.

Theorem atob_btoa (l : list ascii) : atob (btoa l) = Some l.
Proof.
  unfold atob, btoa. rewrite filter_b64 by apply encode_chars. apply decode_encode.
Qed.

End Base64Facts.

Module JsonFacts.
Import Json.

(** The three parsers, one step unfolded. *)
Lemma parse_value_S (fuel : nat) (s : list ascii) :
  parse_value (S fuel) s =
    match skip_ws s with
    | [] => None
    | c :: r =>
        if chr_eq c "{" then
          match skip_ws r with
          | [] => None
          | c' :: r' =>
              if chr_eq c' "}" then Some (Object [], r')
              else '(ms, rest) ← parse_members fuel (c' :: r');
                   Some (Object ms, rest)
          end
        else if chr_eq c "[" then
          match skip_ws r with
          | [] => None
          | c' :: r' =>
              if chr_eq c' "]" then Some (Array [], r')
              else '(vs, rest) ← parse_elements fuel (c' :: r');
                   Some (Array vs, rest)
          end
        else if chr_eq c dquote then
          '(str, rest) ← parse_string r;
          Some (Str (string_of_list_ascii str), rest)
        else if chr_eq c "t" then literal "true" (Bool true) (c :: r)
        else if chr_eq c "f" then literal "false" (Bool false) (c :: r)
        else if chr_eq c "n" then literal "null" Null (c :: r)
        else
          '(q, rest) ← parse_number (c :: r);
          Some (Number q, rest)
    end.
Proof. reflexivity. Qed.

Lemma parse_members_S (fuel : nat) (s : list ascii) :
  parse_members (S fuel) s =
    match skip_ws s with
    | [] => None
    | c :: r =>
        if chr_eq c dquote then
          '(k, r1) ← parse_string r;
          match skip_ws r1 with
          | [] => None
          | c1 :: r2 =>
              if chr_eq c1 ":" then
                '(v, r3) ← parse_value fuel r2;
                match skip_ws r3 with
                | [] => None
                | c3 :: r4 =>
                    if chr_eq c3 "," then
                      '(ms, r5) ← parse_members fuel r4;
                      Some ((string_of_list_ascii k, v) :: ms, r5)
                    else if chr_eq c3 "}" then
                      Some ([(string_of_list_ascii k, v)], r4)
                    else None
                end
              else None
          end
        else None
    end.
Proof. reflexivity. Qed.

Lemma parse_elements_S (fuel : nat) (s : list ascii) :
  parse_elements (S fuel) s =
    '(v, r1) ← parse_value fuel s;
    match skip_ws r1 with
    | [] => None
    | c :: r2 =>
        if chr_eq c "," then
          '(vs, r3) ← parse_elements fuel r2;
          Some (v :: vs, r3)
        else if chr_eq c "]" then Some ([v], r2)
        else None
    end.
Proof. reflexivity. Qed.

(** **** Numbers *)

Lemma span_digits_stop (r : list ascii) :
  no_digit_ahead r -> span_digits r = ([], r).
Proof. destruct r as [|c r]; [reflexivity|]. simpl. now intros ->. Qed.

Lemma span_digits_uint (d : Decimal.uint) (r : list ascii) :
  no_digit_ahead r -> span_digits (uint_chars d ++ r) = (uint_chars d, r).
Proof.
  intros Hr. unfold uint_chars.
  induction d; simpl; rewrite ?IHd; try reflexivity.
  now apply span_digits_stop.
Qed.

Lemma digits_value_uint (d : Decimal.uint) :
  digits_value (uint_chars d) = Some (Z.of_uint d).
Proof.
  unfold digits_value, uint_chars.
  rewrite string_of_list_ascii_of_string, NilEmpty.usu. reflexivity.
Qed.

(** The decimal digits of a positive number: at least one, and the
    first is not a zero. *)
Lemma to_uint_head (p : positive) :
  Pos.to_uint p <> Decimal.Nil /\ forall d, Pos.to_uint p <> Decimal.D0 d.
Proof.
  split; [apply DecimalPos.Unsigned.to_uint_nonnil|].
  intros d Hd.
  pose proof (DecimalPos.Unsigned.to_of (Pos.to_uint p)) as H.
  rewrite DecimalPos.Unsigned.of_to in H. simpl in H.
  pose proof (DecimalPos.Unsigned.to_uint_nonzero p) as Hnz.
  unfold Decimal.unorm in H.
  destruct (Decimal.nzhead (Pos.to_uint p)) eqn:E;
    try (rewrite Hd in H; discriminate H).
  - congruence.
  - apply (nzhead_nonzero (Pos.to_uint p) u). congruence.
Qed.

Lemma parse_int_pos (p : positive) (r : list ascii) :
  no_digit_ahead r ->
  parse_int (uint_chars (Pos.to_uint p) ++ r) = Some (Z.pos p, r).
Proof.
  intros Hr. unfold parse_int. rewrite span_digits_uint by exact Hr.
  pose proof (digits_value_uint (Pos.to_uint p)) as Hv.
  unfold Z.of_uint in Hv. rewrite DecimalPos.Unsigned.of_to in Hv. simpl in Hv.
  destruct (to_uint_head p) as [Hnil H0].
  destruct (Pos.to_uint p) as [|d|d|d|d|d|d|d|d|d|d] eqn:E;
    try congruence; try (exfalso; exact (H0 d eq_refl));
    unfold uint_chars in *; simpl in *; rewrite Hv; reflexivity.
Qed.

Lemma closes_no_digit (r : list ascii) : closes_number r -> no_digit_ahead r.
Proof. destruct r; simpl; tauto. Qed.

Lemma parse_frac_none (q : Q) (r : list ascii) :
  closes_number r -> parse_frac q r = Some (q, r).
Proof. destruct r as [|c r]; [reflexivity|]. simpl. now intros (_ & -> & _). Qed.

Lemma parse_exp_none (q : Q) (r : list ascii) :
  closes_number r -> parse_exp q r = Some (q, r).
Proof.
  destruct r as [|c r]; [reflexivity|]. simpl. now intros (_ & _ & -> & ->).
Qed.

Lemma parse_int_zero (r : list ascii) :
  no_digit_ahead r -> parse_int (uint_chars Decimal.zero ++ r) = Some (0, r).
Proof.
  intros Hr. unfold parse_int. rewrite span_digits_uint by exact Hr. reflexivity.
Qed.

Lemma parse_number_unsigned (c : ascii) (tl : list ascii) :
  chr_eq c "-" = false ->
  parse_number (c :: tl) =
    '(i, s2) ← parse_int (c :: tl);
    '(q, s3) ← parse_frac (inject_Z i) s2;
    '(q, s4) ← parse_exp q s3;
    Some (q, s4).
Proof.
  intros H. unfold parse_number. rewrite H.
  destruct (parse_int (c :: tl)) as [[i s2]|]; [|reflexivity]. cbn.
  destruct (parse_frac (inject_Z i) s2) as [[q s3]|]; [|reflexivity]. cbn.
  destruct (parse_exp q s3) as [[q' s4]|]; reflexivity.
Qed.

Lemma parse_number_negative (tl : list ascii) :
  parse_number ("-"%char :: tl) =
    '(i, s2) ← parse_int tl;
    '(q, s3) ← parse_frac (inject_Z i) s2;
    '(q, s4) ← parse_exp q s3;
    Some (Qopp q, s4).
Proof.
  unfold parse_number. change (chr_eq "-" "-") with true. cbv iota.
  destruct (parse_int tl) as [[i s2]|]; [|reflexivity]. cbn.
  destruct (parse_frac (inject_Z i) s2) as [[q s3]|]; [|reflexivity]. cbn.
  destruct (parse_exp q s3) as [[q' s4]|]; reflexivity.
Qed.

Lemma uint_chars_head (d : Decimal.uint) :
  d <> Decimal.Nil ->
  exists c tl, uint_chars d = c :: tl /\ is_digit c = true.
Proof. unfold uint_chars. destruct d; simpl; try congruence; eauto. Qed.

Lemma is_digit_not_minus (c : ascii) : is_digit c = true -> chr_eq c "-" = false.
Proof.
  intros H. destruct c as [[] [] [] [] [] [] [] []]; try discriminate H; reflexivity.
Qed.

Lemma decimal_cases (z : Z) :
  decimal z =
    match z with
    | 0 => uint_chars Decimal.zero
    | Z.pos p => uint_chars (Pos.to_uint p)
    | Z.neg p => "-"%char :: uint_chars (Pos.to_uint p)
    end.
Proof.
  destruct z as [|p|p]; unfold decimal, uint_chars; simpl Z.to_int;
    [reflexivity| |];
    destruct (to_uint_head p) as [Hnil _];
    simpl; destruct (Pos.to_uint p); first [congruence | reflexivity].
Qed.

Lemma parse_number_decimal (z : Z) (r : list ascii) :
  closes_number r ->
  parse_number (decimal z ++ r) = Some (inject_Z z, r).
Proof.
  intros Hr. pose proof (closes_no_digit r Hr) as Hd.
  rewrite decimal_cases. destruct z as [|p|p].
  - destruct (uint_chars_head Decimal.zero) as (c & tl & E & Hc); [discriminate|].
    rewrite E. cbn [app].
    rewrite parse_number_unsigned by now apply is_digit_not_minus.
    rewrite app_comm_cons, <- E, parse_int_zero by exact Hd. cbn.
    rewrite parse_frac_none by exact Hr. cbn.
    rewrite parse_exp_none by exact Hr. reflexivity.
  - destruct (uint_chars_head (Pos.to_uint p)) as (c & tl & E & Hc);
      [apply to_uint_head|].
    rewrite E. cbn [app].
    rewrite parse_number_unsigned by now apply is_digit_not_minus.
    rewrite app_comm_cons, <- E, parse_int_pos by exact Hd. cbn.
    rewrite parse_frac_none by exact Hr. cbn.
    rewrite parse_exp_none by exact Hr. reflexivity.
  - cbn [app]. rewrite parse_number_negative.
    rewrite parse_int_pos by exact Hd. cbn.
    rewrite parse_frac_none by exact Hr. cbn.
    rewrite parse_exp_none by exact Hr. reflexivity.
Qed.

Lemma decimal_head (z : Z) :
  exists c tl, decimal z = c :: tl /\ starts_number c = true.
Proof.
  rewrite decimal_cases. unfold starts_number. destruct z as [|p|p].
  - destruct (uint_chars_head Decimal.zero) as (c & tl & E & Hc); [discriminate|].
    exists c, tl. now rewrite Hc.
  - destruct (uint_chars_head (Pos.to_uint p)) as (c & tl & E & Hc);
      [apply to_uint_head|].
    exists c, tl. now rewrite Hc.
  - eauto.
Qed.

Lemma parse_value_number (fuel : nat) (c : ascii) (r : list ascii) :
  starts_number c = true ->
  parse_value (S fuel) (c :: r) =
    '(q, rest) ← parse_number (c :: r); Some (Number q, rest).
Proof.
  intros H.
  destruct c as [[] [] [] [] [] [] [] []]; try discriminate H; reflexivity.
Qed.

Lemma parse_value_decimal (fuel : nat) (z : Z) (r : list ascii) :
  closes_number r ->
  parse_value (S fuel) (decimal z ++ r) = Some (Number (inject_Z z), r).
Proof.
  intros Hr. destruct (decimal_head z) as (c & tl & E & Hc).
  rewrite E. cbn [app]. rewrite parse_value_number by exact Hc.
  rewrite app_comm_cons, <- E, parse_number_decimal by exact Hr. reflexivity.
Qed.

(** **** Strings *)

Lemma parse_string_escape (c : ascii) (s : list ascii) :
  parse_string (escape c ++ s) =
    '(str, rest) ← parse_string s; Some (c :: str, rest).
Proof. destruct c as [[] [] [] [] [] [] [] []]; reflexivity. Qed.

Lemma parse_string_escaped (s r : list ascii) :
  parse_string (flat_map escape s ++ dquote :: r) = Some (s, r).
Proof.
  induction s as [|c s IH]; [reflexivity|].
  cbn [flat_map]. rewrite <- app_assoc, parse_string_escape, IH. reflexivity.
Qed.

Lemma quote_unfold (s : string) (r : list ascii) :
  quote s ++ r = dquote :: flat_map escape (list_ascii_of_string s) ++ dquote :: r.
Proof. unfold quote. cbn [app]. now rewrite <- app_assoc. Qed.

Lemma parse_value_quote (fuel : nat) (s : string) (r : list ascii) :
  parse_value (S fuel) (quote s ++ r) = Some (Str s, r).
Proof.
  rewrite quote_unfold.
  change (parse_value (S fuel) (dquote :: ?x)) with
    ('(str, rest) ← parse_string x; Some (Str (string_of_list_ascii str), rest)).
  rewrite parse_string_escaped. cbn.
  now rewrite string_of_list_ascii_of_string.
Qed.

(** **** Flat objects *)

Lemma closes_member_number (r : list ascii) : closes_member r -> closes_number r.
Proof.
  intros (c & tl & -> & H). simpl.
  destruct c as [[] [] [] [] [] [] [] []]; destruct H as [H|H];
    try discriminate H; repeat split.
Qed.

Lemma parse_value_field (fuel : nat) (f : field) (r : list ascii) :
  closes_member r ->
  parse_value (S fuel) (stringify_field f ++ r) = Some (value_of_field f, r).
Proof.
  intros Hr. destruct f as [s|z]; cbn [stringify_field value_of_field].
  - apply parse_value_quote.
  - apply parse_value_decimal, closes_member_number, Hr.
Qed.

Lemma parse_members_unfold (fuel : nat) (k : string) (r : list ascii) :
  parse_members (S fuel) (quote k ++ ":"%char :: r) =
    '(v, r3) ← parse_value fuel r;
    match skip_ws r3 with
    | [] => None
    | c3 :: r4 =>
        if chr_eq c3 "," then
          '(ms, r5) ← parse_members fuel r4;
          Some ((k, v) :: ms, r5)
        else if chr_eq c3 "}" then Some ([(k, v)], r4)
        else None
    end.
Proof.
  rewrite quote_unfold, parse_members_S.
  change (skip_ws (dquote :: ?x)) with (dquote :: x). cbv beta iota.
  change (chr_eq dquote dquote) with true. cbv iota.
  rewrite parse_string_escaped. cbn [mbind option_bind].
  change (skip_ws (":"%char :: r)) with (":"%char :: r). cbv beta iota.
  change (chr_eq ":" ":") with true. cbv iota.
  rewrite string_of_list_ascii_of_string. reflexivity.
Qed.

Lemma parse_members_stringify (ms : list (string * field)) :
  ms <> [] ->
  forall (fuel : nat) (rest : list ascii),
    (List.length ms < fuel)%nat ->
    parse_members fuel (stringify_members ms ++ "}"%char :: rest) =
      Some (map (fun '(k, f) => (k, value_of_field f)) ms, rest).
Proof.
  induction ms as [|[k f] ms IH]; [congruence|]. intros _ fuel rest Hfuel.
  destruct fuel as [|fuel]; [simpl in Hfuel; lia|].
  destruct fuel as [|fuel]; [simpl in Hfuel; lia|].
  destruct ms as [|m ms].
  - cbn [stringify_members map].
    rewrite <- app_assoc. cbn [app].
    rewrite parse_members_unfold.
    rewrite parse_value_field by (unfold closes_member; eauto 6).
    reflexivity.
  - change (stringify_members ((k, f) :: m :: ms)) with
      (quote k ++ ":"%char :: stringify_field f ++ ","%char :: stringify_members (m :: ms)).
    rewrite <- app_assoc. cbn [app]. rewrite <- app_assoc. cbn [app].
    rewrite parse_members_unfold.
    rewrite parse_value_field by (unfold closes_member; eauto 6).
    cbn [mbind option_bind].
    change (skip_ws (","%char :: ?x)) with (","%char :: x). cbv beta iota.
    change (chr_eq "," ",") with true. cbv iota.
    rewrite IH; [reflexivity | discriminate | simpl in *; lia].
Qed.

Lemma stringify_members_head (m : string * field) (ms : list (string * field)) :
  exists tl, stringify_members (m :: ms) = dquote :: tl.
Proof.
  destruct m as [k f]. destruct ms as [|m' ms]; cbn [stringify_members];
    unfold quote; cbn [app]; eauto.
Qed.

Lemma stringify_members_length (ms : list (string * field)) :
  (List.length ms <= List.length (stringify_members ms))%nat.
Proof.
  induction ms as [|[k f] ms IH]; [reflexivity|].
  destruct ms as [|m ms].
  - cbn [stringify_members]. unfold quote. cbn [app List.length]. lia.
  - change (stringify_members ((k, f) :: m :: ms)) with
      (quote k ++ ":"%char :: stringify_field f ++ ","%char :: stringify_members (m :: ms)).
    unfold quote. cbn [List.length] in IH.
    repeat (rewrite length_app || cbn [app List.length]). lia.
Qed.

(** Parsing undoes serialisation, for every object of strings and
    integers. *)
Theorem parse_stringify (ms : list (string * field)) :
  parse (stringify ms) =
    Some (Object (map (fun '(k, f) => (k, value_of_field f)) ms)).
Proof.
  unfold parse, stringify.
  destruct ms as [|m ms]; [reflexivity|].
  pose proof (stringify_members_length (m :: ms)) as Hlen.
  destruct (stringify_members_head m ms) as [tl E].
  set (body := stringify_members (m :: ms)) in *.
  replace (2 * List.length ("{"%char :: body ++ ["}"%char]) + 2)%nat
    with (S (S (2 * List.length body + 4)))%nat
    by (cbn [List.length]; rewrite length_app; cbn [List.length]; lia).
  assert (parse_value (S (S (2 * List.length body + 4))) ("{"%char :: body ++ ["}"%char]) =
          '(ms', rest) ← parse_members (S (2 * List.length body + 4)) (body ++ ["}"%char]);
          Some (Object ms', rest)) as ->.
  { rewrite E. reflexivity. }
  unfold body. rewrite parse_members_stringify; [reflexivity | discriminate |].
  fold body. lia.
Qed.

(** **** Fuel *)

Lemma skip_ws_length (s : list ascii) : (List.length (skip_ws s) <= List.length s)%nat.
Proof.
  induction s as [|c s IH]; [reflexivity|]. cbn [skip_ws].
  destruct (is_ws c); cbn [List.length]; lia.
Qed.

Lemma span_digits_length (s ds r : list ascii) :
  span_digits s = (ds, r) -> (List.length ds + List.length r = List.length s)%nat.
Proof.
  revert ds r. induction s as [|c s IH]; intros ds r; cbn [span_digits].
  - intros [= <- <-]. reflexivity.
  - destruct (is_digit c).
    + destruct (span_digits s) as [ds' r'] eqn:E. intros [= <- <-].
      specialize (IH _ _ eq_refl). cbn [List.length]. lia.
    + intros [= <- <-]. reflexivity.
Qed.

Lemma parse_string_length (s str r : list ascii) :
  parse_string s = Some (str, r) -> (List.length r < List.length s)%nat.
Proof.
  remember (List.length s) as n eqn:Hn.
  assert (Hle : (List.length s <= n)%nat) by lia. clear Hn.
  revert s str r Hle. induction n as [|n IH]; intros s str r Hle.
  - destruct s; [discriminate | cbn [List.length] in Hle; lia].
  - destruct s as [|c s]; [discriminate|]. cbn [parse_string List.length] in *.
    destruct (chr_eq c dquote); [intros [= <- <-]; lia|].
    destruct (chr_eq c backslash).
    + destruct s as [|e s1]; [discriminate|].
      destruct (chr_eq e "u").
      * destruct s1 as [|h1 [|h2 [|h3 [|h4 r2]]]]; try discriminate.
        destruct (hex_digit h1), (hex_digit h2), (hex_digit h3), (hex_digit h4);
          cbn [mbind option_bind]; try discriminate.
        match goal with |- context [if ?b then _ else _] => destruct b end;
          [|discriminate].
        destruct (parse_string r2) as [[str' rest']|] eqn:E; [|discriminate].
        cbn [mbind option_bind]. intros [= <- <-].
        apply IH in E; cbn [List.length] in *; lia.
      * destruct (unescape e); cbn [mbind option_bind]; [|discriminate].
        destruct (parse_string s1) as [[str' rest']|] eqn:E; [|discriminate].
        cbn [mbind option_bind]. intros [= <- <-].
        apply IH in E; cbn [List.length] in *; lia.
    + match goal with |- context [if ?b then _ else _] => destruct b end;
        [discriminate|].
      destruct (parse_string s) as [[str' rest']|] eqn:E; [|discriminate].
      cbn [mbind option_bind]. intros [= <- <-].
      apply IH in E; lia.
Qed.

Lemma parse_int_length (s r : list ascii) (v : Z) :
  parse_int s = Some (v, r) -> (List.length r < List.length s)%nat.
Proof.
  unfold parse_int. destruct (span_digits s) as [ds rest] eqn:E.
  apply span_digits_length in E.
  destruct ds as [|d ds']; [discriminate|].
  destruct (chr_eq d "0" && negb (bool_decide (ds' = []))); [discriminate|].
  destruct (digits_value (d :: ds')); cbn [mbind option_bind]; [|discriminate].
  intros [= <- <-]. cbn [List.length] in E. lia.
Qed.

Lemma parse_frac_length (q q' : Q) (s r : list ascii) :
  parse_frac q s = Some (q', r) -> (List.length r <= List.length s)%nat.
Proof.
  unfold parse_frac. destruct s as [|c s']; [intros [= <- <-]; lia|].
  destruct (chr_eq c "."); [|intros [= <- <-]; lia].
  destruct (span_digits s') as [fs rest] eqn:E. apply span_digits_length in E.
  destruct fs as [|f fs']; [discriminate|].
  destruct (digits_value (f :: fs')); cbn [mbind option_bind]; [|discriminate].
  intros [= <- <-]. cbn [List.length] in *. lia.
Qed.

Lemma parse_exp_length (q q' : Q) (s r : list ascii) :
  parse_exp q s = Some (q', r) -> (List.length r <= List.length s)%nat.
Proof.
  unfold parse_exp. destruct s as [|c s']; [intros [= <- <-]; lia|].
  destruct (chr_eq c "e" || chr_eq c "E"); [|intros [= <- <-]; lia].
  assert (Hsign : forall neg r1,
            match s' with
            | sg :: r' => if chr_eq sg "-" then (true, r')
                          else if chr_eq sg "+" then (false, r') else (false, s')
            | [] => (false, s')
            end = (neg, r1) -> (List.length r1 <= List.length s')%nat).
  { intros neg r1. destruct s' as [|sg r']; [intros [= <- <-]; lia|].
    destruct (chr_eq sg "-"); [intros [= <- <-]; cbn [List.length]; lia|].
    destruct (chr_eq sg "+"); intros [= <- <-]; cbn [List.length]; lia. }
  destruct (match s' with
            | sg :: r' => if chr_eq sg "-" then (true, r')
                          else if chr_eq sg "+" then (false, r') else (false, s')
            | [] => (false, s')
            end) as [neg r1] eqn:Es.
  specialize (Hsign neg r1 eq_refl).
  destruct (span_digits r1) as [es rest] eqn:E. apply span_digits_length in E.
  destruct es as [|e es']; [discriminate|].
  destruct (digits_value (e :: es')); cbn [mbind option_bind]; [|discriminate].
  intros [= <- <-]. cbn [List.length] in *. lia.
Qed.

Lemma parse_number_length (s r : list ascii) (q : Q) :
  parse_number s = Some (q, r) -> (List.length r < List.length s)%nat.
Proof.
  unfold parse_number.
  destruct (match s with
            | c :: r0 => if chr_eq c "-" then (true, r0) else (false, s)
            | [] => (false, s)
            end) as [neg s1] eqn:Es.
  assert (Hs1 : (List.length s1 <= List.length s)%nat).
  { destruct s as [|c r0]; [injection Es as <- <-; lia|].
    destruct (chr_eq c "-"); injection Es as <- <-; cbn [List.length]; lia. }
  destruct (parse_int s1) as [[i s2]|] eqn:Ei; cbn [mbind option_bind]; [|discriminate].
  apply parse_int_length in Ei.
  destruct (parse_frac (inject_Z i) s2) as [[q1 s3]|] eqn:Ef;
    cbn [mbind option_bind]; [|discriminate].
  apply parse_frac_length in Ef.
  destruct (parse_exp q1 s3) as [[q2 s4]|] eqn:Ee;
    cbn [mbind option_bind]; [|discriminate].
  apply parse_exp_length in Ee.
  intros [= <- <-]. lia.
Qed.

Lemma strip_prefix_length (p s r : list ascii) :
  strip_prefix p s = Some r -> List.length s = (List.length p + List.length r)%nat.
Proof.
  revert s. induction p as [|c p IH]; intros s; cbn [strip_prefix].
  - intros [= <-]. reflexivity.
  - destruct s as [|d s']; [discriminate|].
    destruct (chr_eq c d); [|discriminate].
    intros H. apply IH in H. cbn [List.length]. lia.
Qed.

Lemma literal_length (name : string) (v v' : value) (s r : list ascii) :
  name <> "" ->
  literal name v s = Some (v', r) -> (List.length r < List.length s)%nat.
Proof.
  intros Hname. unfold literal.
  destruct (strip_prefix (list_ascii_of_string name) s) as [rest|] eqn:E;
    cbn [mbind option_bind]; [|discriminate].
  apply strip_prefix_length in E. intros [= <- <-].
  destruct name; [congruence|]. cbn [list_ascii_of_string List.length] in E. lia.
Qed.


Ltac skip_ws_cases s c r E L :=
  destruct (skip_ws s) as [|c r] eqn:E; [discriminate|];
  pose proof (skip_ws_length s) as L; rewrite E in L; cbn [List.length] in L.

(** A successful parse consumes input, and it succeeds with the same
    result on any fuel of at least twice what it consumes (one more for a
    list of elements). *)
Lemma parse_fuel (fuel : nat) :
  (forall s v r, parse_value fuel s = Some (v, r) ->
     (List.length r < List.length s)%nat /\
     forall g, (2 * (List.length s - List.length r) <= g)%nat ->
               parse_value g s = Some (v, r)) /\
  (forall s ms r, parse_members fuel s = Some (ms, r) ->
     (List.length r < List.length s)%nat /\
     forall g, (2 * (List.length s - List.length r) <= g)%nat ->
               parse_members g s = Some (ms, r)) /\
  (forall s vs r, parse_elements fuel s = Some (vs, r) ->
     (List.length r < List.length s)%nat /\
     forall g, (2 * (List.length s - List.length r) + 1 <= g)%nat ->
               parse_elements g s = Some (vs, r)).
Proof.
  induction fuel as [|f (IHv & IHm & IHe)]; [repeat split; discriminate|].
  split; [|split].
  - (* a value *)
    intros s v r H. rewrite parse_value_S in H.
    skip_ws_cases s c r0 Es Ls.
    destruct (chr_eq c "{") eqn:E1.
    { skip_ws_cases r0 c' r' Es' Ls'.
      destruct (chr_eq c' "}") eqn:E2.
      - injection H as <- <-. split; [lia|]. intros [|g] Hg; [lia|].
        rewrite parse_value_S, Es, E1, Es', E2. reflexivity.
      - destruct (parse_members f (c' :: r')) as [[ms rest]|] eqn:Em; [|discriminate].
        cbn [mbind option_bind] in H. injection H as <- <-.
        destruct (IHm _ _ _ Em) as [L G]. cbn [List.length] in L.
        split; [lia|]. intros [|g] Hg; [lia|].
        rewrite parse_value_S, Es, E1, Es', E2, G; [reflexivity|].
        cbn [List.length]. lia. }
    destruct (chr_eq c "[") eqn:E3.
    { skip_ws_cases r0 c' r' Es' Ls'.
      destruct (chr_eq c' "]") eqn:E2.
      - injection H as <- <-. split; [lia|]. intros [|g] Hg; [lia|].
        rewrite parse_value_S, Es, E1, E3, Es', E2. reflexivity.
      - destruct (parse_elements f (c' :: r')) as [[vs rest]|] eqn:Em; [|discriminate].
        cbn [mbind option_bind] in H. injection H as <- <-.
        destruct (IHe _ _ _ Em) as [L G]. cbn [List.length] in L.
        split; [lia|]. intros [|g] Hg; [lia|].
        rewrite parse_value_S, Es, E1, E3, Es', E2, G; [reflexivity|].
        cbn [List.length]. lia. }
    assert (Hleaf : (List.length r < List.length (c :: r0))%nat).
    { destruct (chr_eq c dquote).
      - destruct (parse_string r0) as [[str rest]|] eqn:E; [|discriminate].
        cbn [mbind option_bind] in H. injection H as <- <-.
        apply parse_string_length in E. cbn [List.length]. lia.
      - destruct (chr_eq c "t"); [eapply literal_length; [|exact H]; discriminate|].
        destruct (chr_eq c "f"); [eapply literal_length; [|exact H]; discriminate|].
        destruct (chr_eq c "n"); [eapply literal_length; [|exact H]; discriminate|].
        destruct (parse_number (c :: r0)) as [[q rest]|] eqn:E; [|discriminate].
        cbn [mbind option_bind] in H. injection H as <- <-.
        now apply parse_number_length in E. }
    cbn [List.length] in Hleaf.
    split; [lia|]. intros [|g] Hg; [lia|].
    rewrite parse_value_S, Es, E1, E3. exact H.
  - (* the members of an object *)
    intros s ms r H. rewrite parse_members_S in H.
    skip_ws_cases s c r0 Es Ls.
    destruct (chr_eq c dquote) eqn:E1; [|discriminate].
    destruct (parse_string r0) as [[k r1]|] eqn:Ek; [|discriminate].
    cbn [mbind option_bind] in H. pose proof (parse_string_length _ _ _ Ek) as Lk.
    skip_ws_cases r1 c1 r2 Es1 Ls1.
    destruct (chr_eq c1 ":") eqn:E2; [|discriminate].
    destruct (parse_value f r2) as [[v r3]|] eqn:Ev; [|discriminate].
    cbn [mbind option_bind] in H. destruct (IHv _ _ _ Ev) as [Lv Gv].
    skip_ws_cases r3 c3 r4 Es3 Ls3.
    destruct (chr_eq c3 ",") eqn:E3.
    + destruct (parse_members f r4) as [[ms' r5]|] eqn:Em; [|discriminate].
      cbn [mbind option_bind] in H. injection H as <- <-.
      destruct (IHm _ _ _ Em) as [Lm Gm].
      split; [lia|]. intros [|g] Hg; [lia|].
      rewrite parse_members_S, Es, E1, Ek. cbn [mbind option_bind].
      rewrite Es1, E2, Gv by lia. cbn [mbind option_bind].
      rewrite Es3, E3, Gm by lia. reflexivity.
    + destruct (chr_eq c3 "}") eqn:E4; [|discriminate].
      injection H as <- <-.
      split; [lia|]. intros [|g] Hg; [lia|].
      rewrite parse_members_S, Es, E1, Ek. cbn [mbind option_bind].
      rewrite Es1, E2, Gv by lia. cbn [mbind option_bind].
      rewrite Es3, E3, E4. reflexivity.
  - (* the elements of an array *)
    intros s vs r H. rewrite parse_elements_S in H.
    destruct (parse_value f s) as [[v r1]|] eqn:Ev; [|discriminate].
    cbn [mbind option_bind] in H. destruct (IHv _ _ _ Ev) as [Lv Gv].
    skip_ws_cases r1 c r2 Es Ls.
    destruct (chr_eq c ",") eqn:E1.
    + destruct (parse_elements f r2) as [[vs' r3]|] eqn:Ee; [|discriminate].
      cbn [mbind option_bind] in H. injection H as <- <-.
      destruct (IHe _ _ _ Ee) as [Le Ge].
      split; [lia|]. intros [|g] Hg; [lia|].
      rewrite parse_elements_S, Gv by lia. cbn [mbind option_bind].
      rewrite Es, E1, Ge by lia. reflexivity.
    + destruct (chr_eq c "]") eqn:E2; [|discriminate].
      injection H as <- <-.
      split; [lia|]. intros [|g] Hg; [lia|].
      rewrite parse_elements_S, Gv by lia. cbn [mbind option_bind].
      rewrite Es, E1, E2. reflexivity.
Qed.

(** The fuel [parse] runs on is enough: whatever some amount of fuel
    parses, [parse] parses. *)
Theorem parse_fuel_suffices (fuel : nat) (s rest : list ascii) (v : value) :
  parse_value fuel s = Some (v, rest) ->
  skip_ws rest = [] ->
  parse s = Some v.
Proof.
  intros H Hrest. destruct (parse_fuel fuel) as (Hv & _ & _).
  destruct (Hv _ _ _ H) as [_ G].
  unfold parse. rewrite G by lia. cbn [mbind option_bind]. now rewrite Hrest.
Qed.

End JsonFacts.

Module JwtDecodeFacts.
Import Base64 Base64Facts JwtDecode.

Lemma chr_not_url (s : sextet) :
  chr_eq (chr s) "-" = false /\ chr_eq (chr s) "_" = false /\ chr_eq (chr s) "." = false.
Proof. destruct s as [[] [] [] [] [] []]; repeat split. Qed.

Lemma url_map_b64 (l : list ascii) :
  Forall b64char l ->
  map (fun c => if chr_eq c "-" then "+"%char
                else if chr_eq c "_" then "/"%char else c) l = l.
Proof.
  induction 1 as [|c l Hc _ IH]; [reflexivity|]. cbn [map]. rewrite IH. f_equal.
  destruct Hc as [-> | [s ->]]; [reflexivity|].
  destruct (chr_not_url s) as (-> & -> & _). reflexivity.
Qed.

Theorem base64UrlDecode_btoa (l : list ascii) :
  forallb is_ascii l = true -> base64UrlDecode (btoa l) = Some l.
Proof.
  intros Hl. unfold base64UrlDecode, btoa.
  rewrite url_map_b64 by apply encode_chars.
  rewrite encode_length. cbn [mbind option_bind].
  change (Base64.atob (btoa l) ≫= (fun bytes => if forallb is_ascii bytes then Some bytes else None) = Some l).
  rewrite atob_btoa. cbn. now rewrite Hl.
Qed.

Lemma split_until (sep : ascii) (l r : list ascii) :
  Forall (fun c => chr_eq c sep = false) l ->
  split sep (l ++ sep :: r) = l :: split sep r.
Proof.
  induction 1 as [|c l Hc _ IH]; cbn [app split].
  - unfold chr_eq. now rewrite Ascii.eqb_refl.
  - rewrite Hc, IH. reflexivity.
Qed.

Lemma b64_no_dot (l : list ascii) :
  Forall b64char l -> Forall (fun c => chr_eq c "." = false) l.
Proof.
  intros H. eapply Forall_impl; [exact H|].
  intros c [-> | [s ->]]; [reflexivity|]. apply chr_not_url.
Qed.

Lemma list_ascii_of_string_app (a b : string) :
  list_ascii_of_string (a +:+ b) = list_ascii_of_string a ++ list_ascii_of_string b.
Proof. induction a as [|c a IH]; simpl; [reflexivity | f_equal; exact IH]. Qed.

End JwtDecodeFacts.

(** ** Login page *)

Lemma jwtDecode_run (token : string) :
  decode JwtDecode.jwtDecode token = JwtDecode.observed <$> JwtDecode.parsed token.
Proof. reflexivity. Qed.

Section AdminLogin.
Import Base64 Json JwtDecode.

Lemma uint_chars_ascii (d : Decimal.uint) : forallb is_ascii (uint_chars d) = true.
Proof. unfold uint_chars. induction d; simpl; auto. Qed.

Lemma decimal_ascii (z : Z) : forallb is_ascii (decimal z) = true.
Proof.
  rewrite JsonFacts.decimal_cases.
  destruct z; cbn [forallb]; rewrite ?uint_chars_ascii; reflexivity.
Qed.

Lemma admin_payload_ascii (e : Z) :
  forallb is_ascii (stringify (admin_claims e)) = true.
Proof.
  unfold stringify, admin_claims, stringify_members, stringify_field.
  repeat (rewrite forallb_app || cbn [forallb]).
  rewrite decimal_ascii. reflexivity.
Qed.

Lemma admin_token_chars (body : list ascii) :
  list_ascii_of_string ("eyJhbGciOiJIUzI1NiIsInR5cCI6IkpXVCJ9."
                        +:+ string_of_list_ascii body +:+ ".mockSignature")
  = list_ascii_of_string "eyJhbGciOiJIUzI1NiIsInR5cCI6IkpXVCJ9"
    ++ "."%char :: body ++ "."%char :: list_ascii_of_string "mockSignature".
Proof.
  rewrite !JwtDecodeFacts.list_ascii_of_string_app, list_ascii_of_string_of_list_ascii.
  reflexivity.
Qed.

Lemma header_no_dot :
  Forall (fun c => chr_eq c "." = false)
         (list_ascii_of_string "eyJhbGciOiJIUzI1NiIsInR5cCI6IkpXVCJ9").
Proof. cbn [list_ascii_of_string]. repeat constructor. Qed.

Lemma split_signature :
  split "." (list_ascii_of_string "mockSignature") = [list_ascii_of_string "mockSignature"].
Proof. reflexivity. Qed.

Lemma admin_token_parts (body : list ascii) :
  Forall (fun c => chr_eq c "." = false) body ->
  split "." (list_ascii_of_string "eyJhbGciOiJIUzI1NiIsInR5cCI6IkpXVCJ9"
    ++ "."%char :: body ++ "."%char :: list_ascii_of_string "mockSignature")
  = [ list_ascii_of_string "eyJhbGciOiJIUzI1NiIsInR5cCI6IkpXVCJ9";
      body;
      list_ascii_of_string "mockSignature" ].
Proof.
  intros Hbody.
  rewrite (JwtDecodeFacts.split_until "." _ _ header_no_dot).
  rewrite (JwtDecodeFacts.split_until "." _ _ Hbody).
  rewrite split_signature.
  reflexivity.
Qed.

Lemma admin_token_payload_part (body : list ascii) :
  Forall (fun c => chr_eq c "." = false) body ->
  split "." (list_ascii_of_string ("eyJhbGciOiJIUzI1NiIsInR5cCI6IkpXVCJ9."
                        +:+ string_of_list_ascii body +:+ ".mockSignature")) !! 1%nat
  = Some body.
Proof.
  intros Hbody. rewrite admin_token_chars, admin_token_parts by exact Hbody. reflexivity.
Qed.

Lemma observed_admin (e : Z) :
  observed (Object (map (fun '(k, f) => (k, value_of_field f)) (admin_claims e)))
  = WithExpiry (JwtPayload.mk "admin" "admin" "Administrator" (inject_Z e)).
Proof. reflexivity. Qed.

Lemma jwtDecode_stages (token : string) (part decoded : list ascii)
      (v : value) (p : JwtPayload.t) :
  split "." (list_ascii_of_string token) !! 1%nat = Some part ->
  base64UrlDecode part = Some decoded ->
  parse decoded = Some v ->
  observed v = WithExpiry p ->
  jwtDecode token = Some p.
Proof.
  intros H1 H2 H3 H4. unfold payload. rewrite jwtDecode_run. unfold parsed.
  rewrite H1. cbn [mbind option_bind]. rewrite H2. cbn [mbind option_bind].
  rewrite H3. cbn [fmap option_fmap option_map]. rewrite H4. reflexivity.
Qed.

Lemma jwtDecode_admin_token (e : Z) :
  jwtDecode ("eyJhbGciOiJIUzI1NiIsInR5cCI6IkpXVCJ9."
             +:+ string_of_list_ascii (btoa (stringify (admin_claims e)))
             +:+ ".mockSignature")
  = Some (JwtPayload.mk "admin" "admin" "Administrator" (inject_Z e)).
Proof.
  apply (jwtDecode_stages _ (btoa (stringify (admin_claims e)))
           (stringify (admin_claims e))
           (Object (map (fun '(k, f) => (k, value_of_field f)) (admin_claims e)))).
  - apply admin_token_payload_part, JwtDecodeFacts.b64_no_dot, Base64Facts.encode_chars.
  - apply JwtDecodeFacts.base64UrlDecode_btoa, admin_payload_ascii.
  - apply JsonFacts.parse_stringify.
  - apply observed_admin.
Qed.

Lemma jwtDecode_admin (now : Z) :
  jwtDecode (admin_token now) =
    Some (JwtPayload.mk "admin" "admin" "Administrator"
            (inject_Z (Qfloor (now # 1000) + 24 * 60 * 60))).
Proof. apply jwtDecode_admin_token. Qed.

Lemma createAdminToken_run (w : World) :
  createAdminToken w = (Normal (admin_token (clock w)), w).
Proof. reflexivity. Qed.

Lemma handleSubmit_admin_branch
    (decoder : Decoder)
    (server : AxiosRequestConfig -> option AxiosResponse) (w : World) :
  handleSubmit decoder server "admin" "admin" w =
    (setError None ;;;
     setLoading true ;;;
     adminToken <- createAdminToken ;;
     login decoder adminToken ;;;
     navigate "/") w.
Proof. reflexivity. Qed.

Lemma handleSubmit_admin_run
    (decoder : Decoder)
    (server : AxiosRequestConfig -> option AxiosResponse) (w : World) (p : JwtPayload.t) :
  decoder (admin_token (clock w)) = Some p ->
  handleSubmit decoder server "admin" "admin" w =
    (Normal tt,
     mkWorld (<["token" := admin_token (clock w)]> (localStorage w)) true
             (Some (user_of p)) None true (href w) "/" (clock w)
             (trace w ++ [SetError None; SetLoading true;
                          StorageSet "token" (admin_token (clock w));
                          SetIsAuthenticated true; SetUser (Some (user_of p));
                          RouterNavigate "/"])).
Proof.
  intros Hd. rewrite handleSubmit_admin_branch.
  unfold bind at 1. unfold setError at 1. unfold bind at 1. unfold setLoading at 1.
  unfold bind at 1. rewrite createAdminToken_run.
  unfold bind at 1. cbn [clock emit].
  rewrite (login_run_ok decoder _ p) by exact Hd.
  unfold navigate, emit. cbn [localStorage isAuthenticated user error loading href route clock trace].
  rewrite <- !app_assoc. reflexivity.
Qed.
End AdminLogin.

(** C2.  Submitting the form with user name and password [admin] never
    reaches the remote service, whatever that service would answer.  The
    token is minted locally: it has three dot-separated parts, and its
    middle part decodes to a payload with subject [admin], display name
    [admin], role [Administrator] and an expiry instant 86400 seconds
    (24 hours) after the current second.  Login with it completes
    normally; afterwards the session is authenticated, the user is
    [{id: admin, username: admin, role: Administrator}], the token is in
    storage, and the effects performed are the six listed, none of which
    is a request. *)
Theorem admin_login_is_minted_locally
    (server : AxiosRequestConfig -> option AxiosResponse) (w : World) :
  let r := handleSubmit JwtDecode.jwtDecode server "admin" "admin" w in
  let token := admin_token (clock w) in
  let admin := User.mk "admin" "admin" "Administrator" in
  createAdminToken w = (Normal token, w) /\
  JwtDecode.split "." (list_ascii_of_string token) =
    [ list_ascii_of_string "eyJhbGciOiJIUzI1NiIsInR5cCI6IkpXVCJ9";
      Base64.btoa (Json.stringify (admin_payload (clock w)));
      list_ascii_of_string "mockSignature" ] /\
  JwtDecode.jwtDecode token =
    Some (JwtPayload.mk "admin" "admin" "Administrator"
            (inject_Z (clock w / 1000 + 86400))) /\
  r.1 = Normal tt /\
  isAuthenticated r.2 = true /\
  user r.2 = Some admin /\
  localStorage r.2 !! "token" = Some token /\
  trace r.2 = trace w ++ [ SetError None; SetLoading true;
                           StorageSet "token" token;
                           SetIsAuthenticated true; SetUser (Some admin);
                           RouterNavigate "/" ].
Proof.
  intros r token admin. subst r.
  pose proof (jwtDecode_admin (clock w)) as Hd.
  rewrite (handleSubmit_admin_run _ server w _ Hd).
  split; [apply createAdminToken_run|].
  split.
  { unfold token, admin_token. rewrite admin_token_chars.
    apply admin_token_parts, JwtDecodeFacts.b64_no_dot, Base64Facts.encode_chars. }
  split; [exact Hd|].
  cbn [fst snd localStorage isAuthenticated user trace].
  rewrite lookup_insert_eq. repeat split.
Qed.

(** C4, as stated, fails on a stored empty string: it is persisted under
    the token key and it is undecodable, yet initialize leaves it in
    storage. *)
Lemma initialize_keeps_empty_string :
  let ls : gmap string string := {[ "token" := "" ]} in
  let r := initialize JwtDecode.jwtDecode (fresh ls "/" 0) in
  ls !! "token" = Some "" /\
  JwtDecode.jwtDecode "" = None /\
  localStorage r.2 !! "token" = Some "".
Proof. vm_compute. repeat split. Qed.


(** ** The hypotheses of the session-store theorems are met *)

(** C3 at the sample token, persisted, with the clock at second 86400
    sharp: the token decodes, its expiry instant equals the current time,
    and the conclusion of the theorem follows. *)
Lemma initialize_expiry_is_strict_witness :
  let ls : gmap string string := {[ "token" := sample_token ]} in
  let p := JwtPayload.mk "admin" "admin" "Administrator" (inject_Z 86400) in
  let r := initialize JwtDecode.jwtDecode (fresh ls "/" 86400000) in
  (JwtDecode.jwtDecode "" = None /\
   ls !! "token" = Some sample_token /\
   JwtDecode.jwtDecode sample_token = Some p /\
   (JwtPayload.exp p == 86400000 # 1000)%Q) /\
  (isAuthenticated r.2 = true -> (86400000 # 1000 < JwtPayload.exp p)%Q) /\
  ((JwtPayload.exp p == 86400000 # 1000)%Q ->
   r.1 = Normal tt /\
   isAuthenticated r.2 = false /\
   user r.2 = None /\
   localStorage r.2 !! "token" = None).
Proof.
  cbv zeta. split.
  - repeat split; vm_compute; reflexivity.
  - apply (initialize_expiry_is_strict JwtDecode.jwtDecode eq_refl
             {[ "token" := sample_token ]} "/" 86400000 sample_token).
    + vm_compute. reflexivity.
    + vm_compute. reflexivity.
Defined.

(** C4 at an undecodable stored value: [abc] has no second part. *)
Lemma initialize_discards_invalid_token_witness :
  let ls : gmap string string := {[ "token" := "abc" ]} in
  let r := initialize JwtDecode.jwtDecode (fresh ls "/" 0) in
  (ls !! "token" = Some "abc" /\ JwtDecode.jwtDecode "abc" = None) /\
  r.1 = Normal tt /\
  isAuthenticated r.2 = false /\
  user r.2 = None /\
  localStorage r.2 = (if decide ("abc" = "") then ls else delete "token" ls).
Proof.
  cbv zeta. split.
  - split; vm_compute; reflexivity.
  - apply (initialize_discards_invalid_token JwtDecode.jwtDecode
             {[ "token" := "abc" ]} "/" 0 "abc").
    + vm_compute. reflexivity.
    + left. vm_compute. reflexivity.
Defined.


(** C10 at the sample token, two days after it was minted: the token
    decodes and has expired, login authenticates, initialize does not. *)
Lemma login_performs_no_expiry_check_witness :
  let p := JwtPayload.mk "admin" "admin" "Administrator" (inject_Z 86400) in
  let r := login JwtDecode.jwtDecode sample_token (fresh ∅ "/" 172800000) in
  let i := initialize JwtDecode.jwtDecode
             (fresh (<["token" := sample_token]> ∅) "/" 172800000) in
  (JwtDecode.jwtDecode sample_token = Some p /\
   (JwtPayload.exp p <= 172800000 # 1000)%Q) /\
  r.1 = Normal tt /\
  isAuthenticated r.2 = true /\
  user r.2 = Some (User.mk (JwtPayload.nameid p) (JwtPayload.unique_name p)
                           (JwtPayload.role p)) /\
  isAuthenticated i.2 = false /\
  user i.2 = None.
Proof.
  cbv zeta.
  assert (He : (JwtPayload.exp (JwtPayload.mk "admin" "admin" "Administrator"
                                  (inject_Z 86400)) <= 172800000 # 1000)%Q)
    by (vm_compute; discriminate).
  split.
  - split; [vm_compute; reflexivity | exact He].
  - destruct (login_performs_no_expiry_check JwtDecode.jwtDecode sample_token
                (JwtPayload.mk "admin" "admin" "Administrator" (inject_Z 86400))
                ∅ "/" 172800000) as (H1 & H2 & H3 & H4).
    + vm_compute. reflexivity.
    + destruct (H4 He) as [H5 H6]. repeat split; assumption.
Defined.

(** ** Payloads outside the interface

    The cast to [JwtPayload] is unchecked; these are the decoder and the
    session store on tokens whose payload is not of the interface. *)

Example StringToNumber_samples :
  JS.StringToNumber "" = Some 0%Q /\
  JS.StringToNumber " 4102444800 " = Some (inject_Z 4102444800) /\
  Qred <$> JS.StringToNumber "1.5e3" = Some (inject_Z 1500) /\
  JS.StringToNumber "0x1F" = Some (inject_Z 31) /\
  JS.StringToNumber "-0x1F" = None /\
  JS.StringToNumber "12px" = None /\
  JS.StringToNumber "." = None /\
  JS.StringToNumber "Infinity" = Some JS.Infinity.
Proof. vm_compute. repeat split. Qed.

(** No second part; a payload [null]; the payloads [{}] and [5]; a
    payload without [role]; one whose [exp] is a string; one whose
    [nameid] is a number and that has no [exp]. *)
Example jwtDecode_samples :
  decode JwtDecode.jwtDecode "abc" = None /\
  decode JwtDecode.jwtDecode "x.bnVsbA==.y" = Some Null /\
  decode JwtDecode.jwtDecode "x.e30.y"
    = Some (WithoutExpiry js_undefined js_undefined js_undefined) /\
  decode JwtDecode.jwtDecode "x.NQ.y"
    = Some (WithoutExpiry js_undefined js_undefined js_undefined) /\
  decode JwtDecode.jwtDecode
      "x.eyJuYW1laWQiOiI3IiwidW5pcXVlX25hbWUiOiJhbmEiLCJleHAiOjQxMDI0NDQ4MDB9.y"
    = Some (WithExpiry (JwtPayload.mk "7" "ana" js_undefined (inject_Z 4102444800))) /\
  decode JwtDecode.jwtDecode
      "x.eyJuYW1laWQiOiI3IiwidW5pcXVlX25hbWUiOiJhbmEiLCJyb2xlIjoiRG9jdG9yIiwiZXhwIjoiNDEwMjQ0NDgwMCJ9.y"
    = Some (WithExpiry (JwtPayload.mk "7" "ana" "Doctor" (inject_Z 4102444800))) /\
  decode JwtDecode.jwtDecode
      "x.eyJuYW1laWQiOjcsInVuaXF1ZV9uYW1lIjoiYW5hIiwicm9sZSI6IkRvY3RvciJ9.y"
    = Some (WithoutExpiry (js_value (Json.Number (inject_Z 7))) "ana" "Doctor").
Proof. vm_compute. repeat split. Qed.

(** Login with a token whose payload is [{}] returns normally: the
    session is authenticated and the user object has three undefined
    fields.  A reload discards that token. *)
Example login_with_empty_payload :
  let r := login JwtDecode.jwtDecode "x.e30.y" (fresh ∅ "/login" 0) in
  let reloaded := initialize JwtDecode.jwtDecode (fresh (localStorage r.2) "/" 1000) in
  r.1 = Normal tt /\
  isAuthenticated r.2 = true /\
  user r.2 = Some (User.mk js_undefined js_undefined js_undefined) /\
  localStorage r.2 !! "token" = Some "x.e30.y" /\
  reloaded.1 = Normal tt /\
  isAuthenticated reloaded.2 = false /\
  localStorage reloaded.2 !! "token" = None.
Proof. vm_compute. repeat split. Qed.

(** Login with a token whose payload is [null] throws after the flag
    has been raised. *)
Example login_with_null_payload :
  let r := login JwtDecode.jwtDecode "x.bnVsbA==.y" (fresh ∅ "/login" 0) in
  r.1 = Throw TypeError /\
  isAuthenticated r.2 = true /\
  user r.2 = None /\
  localStorage r.2 !! "token" = Some "x.bnVsbA==.y" /\
  trace r.2 = [StorageSet "token" "x.bnVsbA==.y"; SetIsAuthenticated true].
Proof. vm_compute. repeat split. Qed.

(** A persisted token without [role] whose [exp] lies ahead is restored,
    with an undefined role. *)
Example initialize_with_missing_role :
  let token :=
    "x.eyJuYW1laWQiOiI3IiwidW5pcXVlX25hbWUiOiJhbmEiLCJleHAiOjQxMDI0NDQ4MDB9.y" in
  let r := initialize JwtDecode.jwtDecode (fresh {[ "token" := token ]} "/" 1000) in
  r.1 = Normal tt /\
  isAuthenticated r.2 = true /\
  user r.2 = Some (User.mk "7" "ana" js_undefined).
Proof. vm_compute. repeat split. Qed.

(** * Further properties *)

(** ** Session store: outcomes, invariants and composition *)

Section SessionFacts.

Variable jwtDecode : Decoder.

(** The three ways the mount effect can end. *)
Lemma initialize_cases (w : World) :
  initialize jwtDecode w = (Normal tt, w) \/
  initialize jwtDecode w = Storage.removeItem "token" w \/
  exists tok p,
    localStorage w !! "token" = Some tok /\ tok <> "" /\
    jwtDecode tok = Some p /\ (clock w # 1000 < JwtPayload.exp p)%Q /\
    initialize jwtDecode w =
      (setIsAuthenticated true ;;; setUser (Some (user_of p))) w.
Proof.
  destruct (localStorage w !! "token") as [tok|] eqn:Hls.
  - destruct (decide (tok = "")) as [->|Hne].
    + left. now apply initialize_empty.
    + destruct (jwtDecode tok) as [p|] eqn:Hd.
      * destruct (Qlt_le_dec (clock w # 1000) (JwtPayload.exp p)) as [Hlt|Hle].
        -- right. right. exists tok, p. repeat split; auto.
           now apply (initialize_valid _ _ tok p).
        -- right. left. now apply (initialize_expired _ _ tok p).
      * right. left. now apply (initialize_undecodable _ _ tok).
  - left. now apply initialize_absent.
Qed.

(** X1.  The mount effect never throws, whatever the storage holds and
    whatever the decoder does, and it never writes to storage: the
    storage afterwards is the one before, or the one before without the
    token entry.  It never lowers the authenticated flag either: it sets
    the flag or leaves it as it found it. *)
Theorem initialize_never_throws (w : World) :
  let r := initialize jwtDecode w in
  r.1 = Normal tt /\
  (localStorage r.2 = localStorage w \/
   localStorage r.2 = delete "token" (localStorage w)) /\
  (isAuthenticated r.2 = true \/ isAuthenticated r.2 = isAuthenticated w).
Proof.
  cbv zeta.
  destruct (initialize_cases w) as [E | [E | (tok & p & Hls & Hne & Hd & Hlt & E)]];
    rewrite E.
  - split; [reflexivity|]. split; [now left | now right].
  - split; [reflexivity|]. split; [now right | now right].
  - split; [reflexivity|]. split; [now left | now left].
Qed.

(** X2.  Running the mount effect a second time at the same instant
    changes nothing: it completes normally again and leaves the storage,
    the authenticated flag and the user as the first run left them. *)
Theorem initialize_is_idempotent (w : World) :
  let once := initialize jwtDecode w in
  let twice := initialize jwtDecode once.2 in
  twice.1 = Normal tt /\ session twice.2 = session once.2.
Proof.
  cbv zeta.
  destruct (initialize_cases w) as [E | [E | (tok & p & Hls & Hne & Hd & Hlt & E)]].
  - rewrite E. simpl. rewrite E. split; reflexivity.
  - rewrite E. simpl.
    rewrite initialize_absent by (simpl; apply lookup_delete_eq).
    split; reflexivity.
  - rewrite E. simpl.
    rewrite (initialize_valid _ _ tok p) by (simpl; auto).
    split; reflexivity.
Qed.

(** X3.  Coherence of the two state cells (the user object is present
    exactly when the session is authenticated) is kept by the mount
    effect and by logout in every case, and by login whenever the decoder
    throws or returns a value other than [null].  The one way out is a
    decoder that returns [null]: login then ends with the flag raised and
    the user as it was, so that a session without a user is left
    incoherent. *)
Theorem session_operations_keep_coherence (w : World) (token : string) :
  coherent w ->
  coherent (initialize jwtDecode w).2 /\
  coherent (logout w).2 /\
  (decode jwtDecode token <> Some Null -> coherent (login jwtDecode token w).2) /\
  (decode jwtDecode token = Some Null ->
   isAuthenticated (login jwtDecode token w).2 = true /\
   user (login jwtDecode token w).2 = user w /\
   (coherent (login jwtDecode token w).2 <-> isAuthenticated w = true)).
Proof.
  intros Hw. unfold coherent in *. split; [|split; [|split]].
  - destruct (initialize_cases w) as [E | [E | (tok & p & _ & _ & _ & _ & E)]];
      rewrite E; simpl; [exact Hw | exact Hw |].
    split; [eauto | reflexivity].
  - rewrite logout_run. simpl. split; [discriminate | intros [? [=]]].
  - intros Hnull.
    destruct (decode jwtDecode token) as [[p|nameid unique_name role|]|] eqn:Hd.
    + apply payload_Some in Hd. rewrite (login_run_ok _ _ _ _ Hd). simpl.
      split; [eauto | reflexivity].
    + rewrite (login_run_undated _ _ _ _ _ _ Hd). simpl.
      split; [eauto | reflexivity].
    + congruence.
    + rewrite (login_run_throw _ _ _ Hd). simpl. exact Hw.
  - intros Hd. rewrite (login_run_null _ _ _ Hd). simpl.
    split; [reflexivity|]. split; [reflexivity|].
    split.
    + intros H. apply Hw, H. reflexivity.
    + intros H. split; [intros _; apply Hw, H | reflexivity].
Qed.

(** X4.  Logout undoes login, whatever login did.  After login with any
    string, successful or not, logout completes normally and leaves the
    storage as it was before the login, less the token entry, with the
    session unauthenticated and without a user; a mount effect run on
    that state (a reload) completes normally and changes nothing. *)
Theorem logout_undoes_login (token : string) (w : World) :
  let after_login := (login jwtDecode token w).2 in
  let out := logout after_login in
  out.1 = Normal tt /\
  session out.2 = (delete "token" (localStorage w), false, None) /\
  initialize jwtDecode out.2 = (Normal tt, out.2).
Proof.
  cbv zeta. rewrite logout_run. cbn [fst snd].
  assert (localStorage (login jwtDecode token w).2 = <["token" := token]> (localStorage w))
    as Hls by apply login_storage.
  split; [reflexivity|]. split.
  - unfold session. cbn [localStorage isAuthenticated user].
    rewrite Hls, delete_insert_eq. reflexivity.
  - apply initialize_absent. cbn [localStorage]. apply lookup_delete_eq.
Qed.

(** X5.  What login persists is what the mount effect restores.  Let a
    non-empty token decode to a payload; login with it puts the payload's
    identity in memory.  A later reload (the mount effect on the initial
    state, over the storage login left, at the reading [now] of the
    clock) that ends authenticated has restored that very identity and
    kept the storage, and the expiry instant is then strictly after the
    clock reading.  The reload does end authenticated at every clock
    reading that is at least a millisecond before the expiry instant; for
    a token that expires on a whole second, that is every reading before
    that second.  Once the expiry instant has been reached the reload
    ends unauthenticated with the token discarded. *)
Theorem login_survives_reload
    (token : string) (p : JwtPayload.t) (w : World) (h : string) (now : Z) :
  token <> "" ->
  jwtDecode token = Some p ->
  let logged := (login jwtDecode token w).2 in
  let reloaded := (initialize jwtDecode (fresh (localStorage logged) h now)).2 in
  user logged = Some (User.mk (JwtPayload.nameid p) (JwtPayload.unique_name p)
                              (JwtPayload.role p)) /\
  (isAuthenticated reloaded = true ->
   user reloaded = user logged /\
   localStorage reloaded = localStorage logged /\
   (now # 1000 < JwtPayload.exp p)%Q) /\
  (((now + 1) # 1000 <= JwtPayload.exp p)%Q -> isAuthenticated reloaded = true) /\
  (forall e : Z, (JwtPayload.exp p == inject_Z e)%Q -> now < e * 1000 ->
   isAuthenticated reloaded = true) /\
  ((JwtPayload.exp p <= now # 1000)%Q ->
   isAuthenticated reloaded = false /\
   user reloaded = None /\
   localStorage reloaded !! "token" = None).
Proof.
  intros Hne Hd. cbv zeta.
  rewrite (login_run_ok _ _ _ _ Hd). cbn [snd localStorage user].
  assert (localStorage (fresh (<["token" := token]> (localStorage w)) h now) !! "token"
          = Some token) as Hls by (simpl; apply lookup_insert_eq).
  split; [reflexivity|].
  destruct (Qlt_le_dec (now # 1000) (JwtPayload.exp p)) as [Hlt | Hle].
  - rewrite (initialize_valid _ _ token p Hls Hne Hd Hlt). simpl.
    split; [auto|]. split; [auto|]. split; [auto|].
    intros Hexp. exfalso. exact (Qlt_not_le _ _ Hlt Hexp).
  - rewrite (initialize_expired _ _ token p Hls Hne Hd Hle). simpl.
    rewrite lookup_delete_eq.
    split; [discriminate|]. split; [|split; [|auto]].
    + intros Htick. exfalso.
      exact (Qlt_not_le _ _ (one_tick_later _ _ Htick) Hle).
    + intros e He Hnow. exfalso. rewrite He in Hle.
      apply (proj1 (after_expiry now e)) in Hle. lia.
Qed.

(** X6.  The session store touches no storage entry but the token: for
    every other key, the mount effect, login (whether it returns or
    throws) and logout leave the entry as it was; and none of the three
    changes the location, the route or the login page's cells. *)
Theorem session_store_storage_frame (w : World) (token : string) :
  (forall k, k <> "token" ->
     localStorage (initialize jwtDecode w).2 !! k = localStorage w !! k /\
     localStorage (login jwtDecode token w).2 !! k = localStorage w !! k /\
     localStorage (logout w).2 !! k = localStorage w !! k) /\
  page (initialize jwtDecode w).2 = page w /\
  page (login jwtDecode token w).2 = page w /\
  page (logout w).2 = page w.
Proof.
  assert (localStorage (login jwtDecode token w).2 = <["token" := token]> (localStorage w)
          /\ page (login jwtDecode token w).2 = page w) as (Hls & Hp)
    by apply login_storage.
  split; [|split; [|split]].
  - intros k Hk. split; [|split].
    + destruct (initialize_cases w) as [E | [E | (tok & p & _ & _ & _ & _ & E)]];
        rewrite E; simpl; try reflexivity.
      apply lookup_delete_ne. congruence.
    + rewrite Hls. apply lookup_insert_ne. congruence.
    + rewrite logout_run. simpl. apply lookup_delete_ne. congruence.
  - destruct (initialize_cases w) as [E | [E | (tok & p & _ & _ & _ & _ & E)]];
      rewrite E; reflexivity.
  - exact Hp.
  - rewrite logout_run. reflexivity.
Qed.

(** X7.  The route guard across a reload.  The cells of the provider
    start at their defaults and the mount effect runs only after the
    first render: on that render the guard redirects every visitor to
    the login view, whatever the storage holds, the holder of a valid
    token included.  Once the mount effect has run over a storage [ls]
    at clock reading [now], the guard admits nobody but the holder of a
    non-empty token that decodes and whose expiry instant is strictly
    after [now]; it admits every holder of such a token whose expiry
    instant is at least a millisecond after [now], which a token that
    expires on a whole second after [now] is; and whenever it does not
    admit, it renders the redirect to the login view. *)
Theorem PrivateRoute_after_reload {Node : Type} (children : option Node)
    (ls : gmap string string) (h : string) (now : Z) :
  let first := fresh ls h now in
  let mounted := (initialize jwtDecode first).2 in
  PrivateRoute children first = Navigate "/login" true None /\
  (admits (PrivateRoute children mounted) = true ->
   exists tok p,
     ls !! "token" = Some tok /\ tok <> "" /\
     jwtDecode tok = Some p /\ (now # 1000 < JwtPayload.exp p)%Q) /\
  (forall tok p,
     ls !! "token" = Some tok -> tok <> "" -> jwtDecode tok = Some p ->
     ((now + 1) # 1000 <= JwtPayload.exp p)%Q ->
     admits (PrivateRoute children mounted) = true) /\
  (forall tok p (e : Z),
     ls !! "token" = Some tok -> tok <> "" -> jwtDecode tok = Some p ->
     (JwtPayload.exp p == inject_Z e)%Q -> now < e * 1000 ->
     admits (PrivateRoute children mounted) = true) /\
  (admits (PrivateRoute children mounted) = false ->
   PrivateRoute children mounted = Navigate "/login" true None).
Proof.
  cbv zeta.
  assert (forall v : World, admits (PrivateRoute children v) = isAuthenticated v) as Hg.
  { intros v. unfold PrivateRoute. destruct (isAuthenticated v), children; reflexivity. }
  rewrite Hg. split; [reflexivity|]. split; [|split; [|split]].
  - destruct (initialize_cases (fresh ls h now))
      as [E | [E | (tok & p & Hls & Hne & Hd & Hlt & E)]]; rewrite E.
    + discriminate.
    + discriminate.
    + intros _. exists tok, p. auto.
  - intros tok p Hls Hne Hd Htick.
    rewrite (initialize_valid jwtDecode (fresh ls h now) tok p); auto.
    simpl. apply one_tick_later. exact Htick.
  - intros tok p e Hls Hne Hd He Hnow.
    rewrite (initialize_valid jwtDecode (fresh ls h now) tok p); auto.
    simpl. rewrite He. apply before_expiry. exact Hnow.
  - intros Hf. unfold PrivateRoute. rewrite Hf. reflexivity.
Qed.

End SessionFacts.

(** ** The logout button and the context hook *)

(** X8.  The logout button of the header always works: it completes
    normally in every state, leaves the session unauthenticated with no
    user and no token in storage, and moves the router (not the browser
    location) to the login view, in that order.  The route guard then
    renders its redirect, and pressing the button again changes nothing
    about the session. *)
Theorem handleLogout_ends_session {Node : Type} (children : option Node) (w : World) :
  let out := handleLogout w in
  out.1 = Normal tt /\
  session out.2 = (delete "token" (localStorage w), false, None) /\
  route out.2 = "/login" /\
  href out.2 = href w /\
  trace out.2 = trace w ++ [StorageRemove "token"; SetIsAuthenticated false;
                            SetUser None; RouterNavigate "/login"] /\
  PrivateRoute children out.2 = Navigate "/login" true None /\
  (handleLogout out.2).1 = Normal tt /\
  session (handleLogout out.2).2 = session out.2.
Proof.
  assert (forall v, handleLogout v =
            (Normal tt,
             mkWorld (delete "token" (localStorage v)) false None (error v) (loading v)
                     (href v) "/login" (clock v)
                     (trace v ++ [StorageRemove "token"; SetIsAuthenticated false;
                                  SetUser None; RouterNavigate "/login"]))) as Hrun.
  { intros v. unfold handleLogout, bind. rewrite logout_run.
    unfold navigate, emit. simpl. rewrite <- app_assoc. reflexivity. }
  cbv zeta. rewrite !Hrun. unfold session. simpl.
  rewrite delete_delete_eq. repeat split.
Qed.

(** X9.  The context hook cannot throw.  The context is created with a
    default object, so the value the hook reads is never undefined: inside
    a provider the hook returns the provider's value, outside one it
    returns the default, whose session is unauthenticated without a user
    and whose login and logout do nothing at all. *)
Theorem useAuth_never_throws (provider : option AuthContextType.t) :
  useAuth provider = inr (default AuthContext_default provider) /\
  AuthContextType.isAuthenticated AuthContext_default = false /\
  AuthContextType.user AuthContext_default = None /\
  (forall token w, AuthContextType.login AuthContext_default token w = (Normal tt, w)) /\
  (forall w, AuthContextType.logout AuthContext_default w = (Normal tt, w)).
Proof. destruct provider; repeat split. Qed.

(** ** Interceptors of the two HTTP client wrappers *)

Lemma requests_app (t u : list event) : requests (t ++ u) = requests t ++ requests u.
Proof.
  induction t as [|e t IH]; [reflexivity|].
  destruct e; simpl; rewrite IH; reflexivity.
Qed.

(** The request interceptor of [api], as a function of the stored
    token. *)
Lemma Api_on_request_run (config : AxiosRequestConfig) (w : World) :
  exists sent,
    Api.on_request config w = (Normal sent, w) /\
    forall w', localStorage w' !! "token" = localStorage w !! "token" ->
               Api.on_request config w' = (Normal sent, w').
Proof.
  unfold Api.on_request, bind, Storage.getItem, ret. cbn [fst snd].
  cbv zeta.
  match goal with |- context [if ?b then set_url ?u config else config] =>
    generalize (if b then set_url u config else config) end.
  intros c1.
  destruct (localStorage w !! "token") as [tok|] eqn:Hls.
  - destruct (truthy (Some tok)) eqn:Ht.
    + match goal with |- context [if ?b then _ else _] => destruct b eqn:Hb end;
        eexists; (split; [reflexivity|]); intros w' ->; rewrite Ht, Hb; reflexivity.
    + match goal with |- context [if ?b then _ else _] => destruct b eqn:Hb end;
        eexists; (split; [reflexivity|]); intros w' ->; rewrite Ht, Hb; reflexivity.
  - match goal with |- context [if ?b then _ else _] => destruct b eqn:Hb end;
      eexists; (split; [reflexivity|]); intros w' ->; rewrite Hb; reflexivity.
Qed.

(** A request through [api], stage by stage. *)
Lemma api_request_run
    (server : AxiosRequestConfig -> option AxiosResponse)
    (config sent : AxiosRequestConfig) (w : World) :
  Api.on_request config w = (Normal sent, w) ->
  api_request server config w =
    match server sent with
    | Some r =>
        if validateStatus (status r) then (Normal r, emit (HttpSend sent) w)
        else Api.on_error (mkError (Some r)) (emit (HttpSend sent) w)
    | None => Api.on_error (mkError None) (emit (HttpSend sent) w)
    end.
Proof.
  intros Hreq. unfold api_request, axios_request, bind. rewrite Hreq.
  unfold dispatch. destruct (server sent) as [r|]; [|reflexivity].
  destruct (validateStatus (status r)); reflexivity.
Qed.

Lemma validateStatus_401_403 (s : Z) :
  (s =? 401)%Z || (s =? 403)%Z = true -> validateStatus s = false.
Proof.
  intros H. apply orb_true_iff in H. unfold validateStatus.
  destruct H as [H|H]; apply Z.eqb_eq in H; subst; reflexivity.
Qed.

(** X10.  A request through [api], end to end.  Exactly one request
    leaves the browser, and it is the configuration the request
    interceptor returned.  A response with status 401 or 403 removes the
    token from storage and sends the browser to the login view; every
    other outcome (a 2xx response, any other error status, no response
    at all) leaves storage and location alone.  The call returns the
    response exactly for a 2xx status and otherwise rejects with the
    error.  In no case are the authenticated flag and the user in memory
    changed: after a 401 the session store still says what it said. *)
Theorem api_request_outcome
    (server : AxiosRequestConfig -> option AxiosResponse)
    (config : AxiosRequestConfig) (w : World) :
  let out := api_request server config w in
  exists sent,
    Api.on_request config w = (Normal sent, w) /\
    requests (trace out.2) = requests (trace w) ++ [sent] /\
    isAuthenticated out.2 = isAuthenticated w /\
    user out.2 = user w /\
    match server sent with
    | Some r =>
        if (status r =? 401)%Z || (status r =? 403)%Z then
          out.1 = Throw (AxiosRejection (mkError (Some r))) /\
          localStorage out.2 = delete "token" (localStorage w) /\
          href out.2 = "/login"
        else
          out.1 = (if validateStatus (status r) then Normal r
                   else Throw (AxiosRejection (mkError (Some r)))) /\
          localStorage out.2 = localStorage w /\
          href out.2 = href w
    | None =>
        out.1 = Throw (AxiosRejection (mkError None)) /\
        localStorage out.2 = localStorage w /\
        href out.2 = href w
    end.
Proof.
  cbv zeta. destruct (Api_on_request_run config w) as (sent & Hsent & _).
  exists sent. split; [exact Hsent|].
  rewrite (api_request_run server config sent w Hsent).
  destruct (server sent) as [r|].
  - destruct ((status r =? 401)%Z || (status r =? 403)%Z) eqn:E.
    + rewrite (validateStatus_401_403 _ E).
      rewrite (Api_on_error_rejected (mkError (Some r)) r _ eq_refl)
        by (apply orb_true_iff in E; destruct E as [E|E]; apply Z.eqb_eq in E; auto).
      cbn [fst snd trace emit localStorage isAuthenticated user href].
      rewrite <- app_assoc, !requests_app. cbn [requests app].
      rewrite ?app_nil_r. repeat split.
    + apply orb_false_iff in E. destruct E as [E1 E3].
      apply Z.eqb_neq in E1, E3.
      destruct (validateStatus (status r)).
      * cbn [fst snd trace emit localStorage isAuthenticated user href].
        rewrite requests_app. repeat split.
      * rewrite Api_on_error_other by (intros r' [= <-]; auto).
        cbn [fst snd trace emit localStorage isAuthenticated user href].
        rewrite requests_app. repeat split.
  - rewrite Api_on_error_other by (intros r' [=]).
    cbn [fst snd trace emit localStorage isAuthenticated user href].
    rewrite requests_app. repeat split.
Qed.

(** X11.  A request through [apiClient], end to end.  Exactly one
    request leaves the browser; it is the incoming configuration, with
    the Authorization header set when a non-empty token is stored.  Only
    a response with status 401 removes the token and sends the browser to
    the login view; every other outcome, a 403 included, leaves storage
    and location alone.  The call returns the response exactly for a 2xx
    status and otherwise rejects with the error.  The authenticated flag
    and the user in memory are never changed: after a 401 the session
    store still reports the state it had. *)
Theorem apiClient_request_outcome
    (server : AxiosRequestConfig -> option AxiosResponse)
    (config : AxiosRequestConfig) (w : World) :
  let sent := match localStorage w !! "token" with
              | Some tok =>
                  if decide (tok = "") then config
                  else set_header "Authorization" ("Bearer " +:+ tok) config
              | None => config
              end in
  let out := apiClient_request server config w in
  requests (trace out.2) = requests (trace w) ++ [sent] /\
  isAuthenticated out.2 = isAuthenticated w /\
  user out.2 = user w /\
  match server sent with
  | Some r =>
      if (status r =? 401)%Z then
        out.1 = Throw (AxiosRejection (mkError (Some r))) /\
        localStorage out.2 = delete "token" (localStorage w) /\
        href out.2 = "/login"
      else
        out.1 = (if validateStatus (status r) then Normal r
                 else Throw (AxiosRejection (mkError (Some r)))) /\
        localStorage out.2 = localStorage w /\
        href out.2 = href w
  | None =>
      out.1 = Throw (AxiosRejection (mkError None)) /\
      localStorage out.2 = localStorage w /\
      href out.2 = href w
  end.
Proof.
  cbv zeta.
  rewrite (apiClient_request_run server config _ w (ApiClient_on_request_run config w)).
  set (sent := match localStorage w !! "token" with
               | Some tok => if decide (tok = "") then config
                             else set_header "Authorization" ("Bearer " +:+ tok) config
               | None => config end).
  destruct (server sent) as [r|].
  - destruct (status r =? 401)%Z eqn:E.
    + apply Z.eqb_eq in E. unfold validateStatus. rewrite E.
      change ((200 <=? 401)%Z && (401 <? 300)%Z) with false. cbv iota.
      rewrite (ApiClient_on_error_401 (mkError (Some r)) r _ eq_refl E).
      cbn [fst snd trace emit localStorage isAuthenticated user href].
      rewrite <- app_assoc, !requests_app. cbn [requests app].
      rewrite ?app_nil_r. repeat split.
    + apply Z.eqb_neq in E.
      destruct (validateStatus (status r)).
      * cbn [fst snd trace emit localStorage isAuthenticated user href].
        rewrite requests_app. repeat split.
      * rewrite ApiClient_on_error_other by (intros r' [= <-]; auto).
        cbn [fst snd trace emit localStorage isAuthenticated user href].
        rewrite requests_app. repeat split.
  - rewrite ApiClient_on_error_other by (intros r' [=]).
    cbn [fst snd trace emit localStorage isAuthenticated user href].
    rewrite requests_app. repeat split.
Qed.

Lemma Api_on_error_result (e : AxiosError) (w : World) :
  (Api.on_error e w).1 = Throw (AxiosRejection e) /\
  requests (trace (Api.on_error e w).2) = requests (trace w).
Proof.
  destruct (response e) as [r|] eqn:Hr.
  - destruct ((status r =? 401)%Z || (status r =? 403)%Z) eqn:E.
    + rewrite (Api_on_error_rejected e r w Hr)
        by (apply orb_true_iff in E; destruct E as [E|E]; apply Z.eqb_eq in E; auto).
      cbn [fst snd trace]. rewrite requests_app. cbn [requests].
      rewrite app_nil_r. split; reflexivity.
    + apply orb_false_iff in E. destruct E as [E1 E3]. apply Z.eqb_neq in E1, E3.
      rewrite Api_on_error_other by (intros r' Hr'; rewrite Hr in Hr'; now injection Hr' as <-).
      split; reflexivity.
  - rewrite Api_on_error_other by (intros r' Hr'; congruence).
    split; reflexivity.
Qed.

(** How a request through [api] settles, and what it sends. *)
Lemma api_request_settles
    (server : AxiosRequestConfig -> option AxiosResponse)
    (config sent : AxiosRequestConfig) (w : World) :
  Api.on_request config w = (Normal sent, w) ->
  (api_request server config w).1 =
    match server sent with
    | Some r => if validateStatus (status r) then Normal r
                else Throw (AxiosRejection (mkError (Some r)))
    | None => Throw (AxiosRejection (mkError None))
    end /\
  requests (trace (api_request server config w).2) = requests (trace w) ++ [sent].
Proof.
  intros Hsent. rewrite (api_request_run server config sent w Hsent).
  assert (requests (trace (emit (HttpSend sent) w)) = requests (trace w) ++ [sent]) as Hreq.
  { cbn [trace emit]. rewrite requests_app. reflexivity. }
  destruct (server sent) as [r|].
  - destruct (validateStatus (status r)); [split; [reflexivity | exact Hreq]|].
    destruct (Api_on_error_result (mkError (Some r)) (emit (HttpSend sent) w)) as [-> ->].
    split; [reflexivity | exact Hreq].
  - destruct (Api_on_error_result (mkError None) (emit (HttpSend sent) w)) as [-> ->].
    split; [reflexivity | exact Hreq].
Qed.

(** *** The request interceptor of [api] *)

Lemma prefix_append (n s : string) : String.prefix n (n +:+ s) = true.
Proof.
  induction n as [|c n IH]; simpl; [now destruct s|].
  destruct (ascii_dec c c); [exact IH | congruence].
Qed.

Lemma length_append (a b : string) :
  String.length (a +:+ b) = (String.length a + String.length b)%nat.
Proof. induction a as [|c a IH]; simpl; [reflexivity | now rewrite IH]. Qed.

Lemma includes_prefix (n h : string) : String.prefix n h = true -> includes n h = true.
Proof. intros H. destruct h; cbn [includes]; rewrite H; reflexivity. Qed.

Lemma includes_append (n s : string) : includes n (n +:+ s) = true.
Proof. apply includes_prefix, prefix_append. Qed.

(** The three steps of the interceptor, in the order of the source. *)
Lemma Api_on_request_steps (config : AxiosRequestConfig) (w : World) :
  Api.on_request config w =
    (Normal
       (let c1 :=
          if negb (String.eqb (url config) "") && negb (includes "/api" (url config))
             && negb (includes "/api" (baseURL config))
          then set_url ("/api" +:+ (if String.prefix "/" (url config)
                                    then url config else "/" +:+ url config)) config
          else config in
        let c2 :=
          match localStorage w !! "token" with
          | Some tok => if decide (tok = "") then c1
                        else set_header "Authorization" ("Bearer " +:+ tok) c1
          | None => c1
          end in
        if negb (truthy (headers c2 !! "Content-Type")) &&
           (String.eqb (method c2) "post" || String.eqb (method c2) "put"
            || String.eqb (method c2) "patch")
        then set_header "Content-Type" "application/json" c2
        else c2), w).
Proof.
  unfold Api.on_request, bind, Storage.getItem, ret. cbn [fst snd]. cbv zeta.
  match goal with |- context [if ?b then set_url ?u config else config] =>
    generalize (if b then set_url u config else config) end.
  intros c1.
  destruct (localStorage w !! "token") as [tok|].
  - destruct (decide (tok = "")) as [->|Hne].
    + cbn [truthy String.eqb negb].
      match goal with |- context [if ?b then _ else _] => destruct b end; reflexivity.
    + apply truthy_Some in Hne. rewrite Hne.
      match goal with |- context [if ?b then _ else _] => destruct b end; reflexivity.
  - match goal with |- context [if ?b then _ else _] => destruct b end; reflexivity.
Qed.

(** X12.  The request interceptor of [api] is idempotent: handing its
    result to it again, with the storage as it is, returns that result
    unchanged.  The [/api] prefix is therefore never added twice, and
    neither header is rewritten. *)
Theorem api_request_interceptor_idempotent (config : AxiosRequestConfig) (w : World) :
  exists sent,
    Api.on_request config w = (Normal sent, w) /\
    Api.on_request sent w = (Normal sent, w).
Proof.
  eexists. split; [apply Api_on_request_steps|].
  rewrite Api_on_request_steps. f_equal. f_equal. cbv zeta.
  set (c1 := if negb (String.eqb (url config) "") && negb (includes "/api" (url config))
                && negb (includes "/api" (baseURL config))
             then set_url ("/api" +:+ (if String.prefix "/" (url config)
                                       then url config else "/" +:+ url config)) config
             else config).
  assert (Hc1 : (if negb (String.eqb (url c1) "") && negb (includes "/api" (url c1))
                    && negb (includes "/api" (baseURL c1))
                 then set_url ("/api" +:+ (if String.prefix "/" (url c1)
                                           then url c1 else "/" +:+ url c1)) c1
                 else c1) = c1).
  { subst c1.
    destruct (negb (String.eqb (url config) "") && negb (includes "/api" (url config))
              && negb (includes "/api" (baseURL config))) eqn:E.
    - cbn [url set_url baseURL]. rewrite includes_append.
      rewrite andb_false_r. reflexivity.
    - rewrite E. reflexivity. }
  set (c2 := match localStorage w !! "token" with
             | Some tok => if decide (tok = "") then c1
                           else set_header "Authorization" ("Bearer " +:+ tok) c1
             | None => c1
             end).
  (* the url step sees the url and base URL of [c1] *)
  assert (Hurl : forall c, url c = url c1 -> baseURL c = baseURL c1 ->
            (if negb (String.eqb (url c) "") && negb (includes "/api" (url c))
                && negb (includes "/api" (baseURL c))
             then set_url ("/api" +:+ (if String.prefix "/" (url c)
                                       then url c else "/" +:+ url c)) c
             else c) = c).
  { intros c Hu Hb. rewrite Hu, Hb.
    destruct (negb (String.eqb (url c1) "") && negb (includes "/api" (url c1))
              && negb (includes "/api" (baseURL c1))) eqn:E; [|reflexivity].
    exfalso.
    apply (f_equal url) in Hc1. cbn [url set_url] in Hc1.
    apply (f_equal String.length) in Hc1.
    rewrite !length_append in Hc1.
    destruct (String.prefix "/" (url c1)); rewrite ?length_append in Hc1;
      cbn [String.length] in Hc1; lia. }
  assert (Hc2 : url c2 = url c1 /\ baseURL c2 = baseURL c1 /\ method c2 = method c1).
  { subst c2. destruct (localStorage w !! "token") as [tok|]; [|auto].
    destruct (decide (tok = "")); auto. }
  destruct Hc2 as (Hu2 & Hb2 & Hm2).
  (* the token step is the identity on [c2] *)
  assert (Hauth : forall c, headers c = headers c2 \/
                            headers c = <["Content-Type" := "application/json"]> (headers c2) ->
            match localStorage w !! "token" with
            | Some tok => if decide (tok = "") then c
                          else set_header "Authorization" ("Bearer " +:+ tok) c
            | None => c
            end = c).
  { intros c Hc. subst c2.
    destruct (localStorage w !! "token") as [tok|]; [|reflexivity].
    destruct (decide (tok = "")); [reflexivity|].
    destruct c as [u m b h d]. unfold set_header. cbn [url method baseURL headers data] in *.
    f_equal. apply insert_id.
    destruct Hc as [-> | ->].
    - apply lookup_insert_eq.
    - rewrite lookup_insert_ne by discriminate. apply lookup_insert_eq. }
  destruct (negb (truthy (headers c2 !! "Content-Type")) &&
            (String.eqb (method c2) "post" || String.eqb (method c2) "put"
             || String.eqb (method c2) "patch")) eqn:E.
  - rewrite Hurl by (cbn [url baseURL set_header]; auto).
    rewrite Hauth by (right; reflexivity).
    cbn [headers set_header]. rewrite lookup_insert_eq. reflexivity.
  - rewrite Hurl by auto. rewrite Hauth by (left; reflexivity).
    rewrite E. reflexivity.
Qed.

(** X13.  What the request interceptor of [api] does to the url, and
    what it leaves alone.  The url is kept as it is when it is empty or
    when the url or the base URL already contains [/api]; otherwise
    [/api] is put in front of it, with a slash supplied when the url has
    none of its own.  So every non-empty url leaves the interceptor with
    [/api] in the url or in the base URL.  The method, the base URL, the
    data and every header other than Authorization and Content-Type are
    those of the incoming request, and the world is not changed. *)
Theorem api_request_interceptor_url (config : AxiosRequestConfig) (w : World) :
  exists sent,
    Api.on_request config w = (Normal sent, w) /\
    (url config = "" \/ includes "/api" (url config) = true
       \/ includes "/api" (baseURL config) = true ->
     url sent = url config) /\
    (url config <> "" /\ includes "/api" (url config) = false
       /\ includes "/api" (baseURL config) = false ->
     url sent = (if String.prefix "/" (url config) then "/api" +:+ url config
                 else "/api/" +:+ url config)) /\
    (url config <> "" ->
     includes "/api" (url sent) = true \/ includes "/api" (baseURL sent) = true) /\
    method sent = method config /\
    baseURL sent = baseURL config /\
    data sent = data config /\
    (forall k, k <> "Authorization" -> k <> "Content-Type" ->
       headers sent !! k = headers config !! k).
Proof.
  eexists. split; [apply Api_on_request_steps|]. cbv zeta.
  set (c1 := if negb (String.eqb (url config) "") && negb (includes "/api" (url config))
                && negb (includes "/api" (baseURL config))
             then set_url ("/api" +:+ (if String.prefix "/" (url config)
                                       then url config else "/" +:+ url config)) config
             else config).
  set (c2 := match localStorage w !! "token" with
             | Some tok => if decide (tok = "") then c1
                           else set_header "Authorization" ("Bearer " +:+ tok) c1
             | None => c1
             end).
  set (c3 := if negb (truthy (headers c2 !! "Content-Type")) &&
                (String.eqb (method c2) "post" || String.eqb (method c2) "put"
                 || String.eqb (method c2) "patch")
             then set_header "Content-Type" "application/json" c2 else c2).
  assert (H32 : url c3 = url c2 /\ method c3 = method c2 /\ baseURL c3 = baseURL c2 /\
                data c3 = data c2 /\
                forall k, k <> "Content-Type" -> headers c3 !! k = headers c2 !! k).
  { subst c3. match goal with |- context [if ?b then _ else _] => destruct b end.
    - apply set_header_frame.
    - repeat split. }
  assert (H21 : url c2 = url c1 /\ method c2 = method c1 /\ baseURL c2 = baseURL c1 /\
                data c2 = data c1 /\
                forall k, k <> "Authorization" -> headers c2 !! k = headers c1 !! k).
  { subst c2. destruct (localStorage w !! "token") as [tok|]; [|repeat split].
    destruct (decide (tok = "")); [repeat split | apply set_header_frame]. }
  assert (H10 : method c1 = method config /\ baseURL c1 = baseURL config /\
                data c1 = data config /\ headers c1 = headers config).
  { subst c1. match goal with |- context [if ?b then _ else _] => destruct b end;
      repeat split. }
  destruct H32 as (U3 & M3 & B3 & D3 & K3), H21 as (U2 & M2 & B2 & D2 & K2),
           H10 as (M1 & B1 & D1 & K1).
  rewrite U3, U2, M3, M2, M1, B3, B2, B1, D3, D2, D1.
  repeat split.
  - intros H. unfold c1.
    destruct (String.eqb (url config) "") eqn:E0,
             (includes "/api" (url config)) eqn:E1,
             (includes "/api" (baseURL config)) eqn:E2;
      cbn [negb andb]; try reflexivity.
    exfalso. apply String.eqb_neq in E0.
    destruct H as [H | [H | H]]; congruence.
  - intros (Hne & Hu & Hb). unfold c1.
    apply String.eqb_neq in Hne. rewrite Hne, Hu, Hb. cbn [negb andb url set_url].
    destruct (String.prefix "/" (url config)); reflexivity.
  - intros Hne. unfold c1. apply String.eqb_neq in Hne. rewrite Hne. cbn [negb andb].
    destruct (includes "/api" (url config)) eqn:Hu; cbn [negb andb]; [now left|].
    destruct (includes "/api" (baseURL config)) eqn:Hb; cbn [negb andb]; [now right|].
    left. cbn [url set_url]. apply includes_append.
  - intros k Ha Hc. rewrite K3, K2, K1 by assumption. reflexivity.
Qed.

(** X14.  What the request interceptor of [api] does to the two headers
    it owns.  Authorization is set to [Bearer ] followed by the stored
    token when that token is a non-empty string, and is otherwise the one
    the request came with.  For the methods post, put and patch the
    request leaves with a non-empty Content-Type: one the request came
    with is kept, a missing or empty one becomes [application/json].
    For every other method Content-Type is the one the request came
    with. *)
Theorem api_request_interceptor_headers (config : AxiosRequestConfig) (w : World) :
  exists sent,
    Api.on_request config w = (Normal sent, w) /\
    headers sent !! "Authorization" =
      match localStorage w !! "token" with
      | Some tok => if decide (tok = "") then headers config !! "Authorization"
                    else Some ("Bearer " +:+ tok)
      | None => headers config !! "Authorization"
      end /\
    headers sent !! "Content-Type" =
      (if truthy (headers config !! "Content-Type") then headers config !! "Content-Type"
       else if String.eqb (method config) "post" || String.eqb (method config) "put"
               || String.eqb (method config) "patch"
            then Some "application/json"
            else headers config !! "Content-Type").
Proof.
  eexists. split; [apply Api_on_request_steps|]. cbv zeta.
  set (c1 := if negb (String.eqb (url config) "") && negb (includes "/api" (url config))
                && negb (includes "/api" (baseURL config))
             then set_url ("/api" +:+ (if String.prefix "/" (url config)
                                       then url config else "/" +:+ url config)) config
             else config).
  assert (H10 : method c1 = method config /\ headers c1 = headers config).
  { subst c1. match goal with |- context [if ?b then _ else _] => destruct b end;
      repeat split. }
  destruct H10 as (M1 & K1).
  set (c2 := match localStorage w !! "token" with
             | Some tok => if decide (tok = "") then c1
                           else set_header "Authorization" ("Bearer " +:+ tok) c1
             | None => c1
             end).
  assert (H21 : method c2 = method config /\
                headers c2 !! "Content-Type" = headers config !! "Content-Type" /\
                headers c2 !! "Authorization" =
                  match localStorage w !! "token" with
                  | Some tok => if decide (tok = "") then headers config !! "Authorization"
                                else Some ("Bearer " +:+ tok)
                  | None => headers config !! "Authorization"
                  end).
  { subst c2. destruct (localStorage w !! "token") as [tok|]; [|rewrite M1, K1; auto].
    destruct (decide (tok = "")); [rewrite M1, K1; auto|].
    cbn [method headers set_header]. rewrite M1, K1.
    rewrite lookup_insert_ne by discriminate. rewrite lookup_insert_eq. auto. }
  destruct H21 as (M2 & C2 & A2).
  rewrite C2, M2.
  destruct (truthy (headers config !! "Content-Type")) eqn:Ht; cbn [negb andb].
  - split; [exact A2 | exact C2].
  - destruct (String.eqb (method config) "post" || String.eqb (method config) "put"
              || String.eqb (method config) "patch").
    + cbn [headers set_header]. rewrite lookup_insert_ne by discriminate.
      rewrite lookup_insert_eq. split; [exact A2 | reflexivity].
    + split; [exact A2 | exact C2].
Qed.

(** ** Endpoints and the calls made through [api] *)

Lemma Number_toString_eq (z : Z) :
  Number_toString z = NilZero.string_of_int (Z.to_int z).
Proof. apply string_of_list_ascii_of_string. Qed.

Lemma to_int_not_nil (z : Z) :
  Z.to_int z <> Decimal.Pos Decimal.Nil /\ Z.to_int z <> Decimal.Neg Decimal.Nil.
Proof.
  destruct z as [|p|p]; simpl; split; try discriminate;
    intros [= H]; now apply (proj1 (JsonFacts.to_uint_head p)).
Qed.

Lemma Number_toString_inj (a b : Z) : Number_toString a = Number_toString b -> a = b.
Proof.
  rewrite !Number_toString_eq. intros H.
  apply (f_equal NilZero.int_of_string) in H.
  destruct (to_int_not_nil a) as [Ha1 Ha2], (to_int_not_nil b) as [Hb1 Hb2].
  rewrite !NilZero.isi in H by assumption.
  injection H as H. apply (f_equal Z.of_int) in H. now rewrite !DecimalZ.of_to in H.
Qed.

Lemma append_inv_head (p a b : string) : p +:+ a = p +:+ b -> a = b.
Proof. induction p as [|c p IH]; simpl; [auto | intros [= H]; auto]. Qed.

Lemma list_ascii_of_string_inj (a b : string) :
  list_ascii_of_string a = list_ascii_of_string b -> a = b.
Proof.
  intros H. apply (f_equal string_of_list_ascii) in H.
  now rewrite !string_of_list_ascii_of_string in H.
Qed.

Lemma append_inv_tail (a b s : string) : a +:+ s = b +:+ s -> a = b.
Proof.
  intros H. apply (f_equal list_ascii_of_string) in H.
  rewrite !JwtDecodeFacts.list_ascii_of_string_app in H.
  apply app_inv_tail in H. now apply list_ascii_of_string_inj.
Qed.

(** X15.  Every endpoint that takes an id is injective in it over the
    safe integers, the ids a number holds exactly: two different ids
    never yield the same path (such an id is printed in plain decimal
    notation). *)
Theorem endpoints_by_id_injective :
  Forall (fun endpoint : Z -> string =>
            forall a b : Z,
              Number_isSafeInteger a -> Number_isSafeInteger b ->
              endpoint a = endpoint b -> a = b) endpoints.by_id.
Proof.
  unfold endpoints.by_id.
  repeat (apply Forall_cons; split;
          [ intros a b _ _ H;
            first [ apply append_inv_head in H; apply Number_toString_inj; exact H
                  | apply append_inv_head, append_inv_tail in H;
                    apply Number_toString_inj; exact H ] | ]).
  apply Forall_nil. exact I.
Qed.

Lemma uint_no_api (d : Decimal.uint) (s : string) :
  includes "/api" (NilEmpty.string_of_uint d +:+ s) = includes "/api" s.
Proof. induction d; cbn [NilEmpty.string_of_uint String.append]; auto. Qed.

Lemma uint_not_api (d : Decimal.uint) (s : string) :
  d <> Decimal.Nil -> String.prefix "api" (NilEmpty.string_of_uint d +:+ s) = false.
Proof. destruct d; [congruence | reflexivity ..]. Qed.

Lemma Number_toString_cases (z : Z) :
  Number_toString z =
    match z with
    | 0 => "0"
    | Z.pos p => NilEmpty.string_of_uint (Pos.to_uint p)
    | Z.neg p => String "-" (NilEmpty.string_of_uint (Pos.to_uint p))
    end.
Proof.
  rewrite Number_toString_eq.
  destruct z as [|p|p]; [reflexivity| |]; simpl;
    destruct (JsonFacts.to_uint_head p) as [Hnil _];
    destruct (Pos.to_uint p); first [congruence | reflexivity].
Qed.

(** A printed id brings no [/api] into a path, and does not continue a
    path that ends in a slash to one. *)
Lemma Number_toString_no_api (z : Z) (s : string) :
  includes "/api" (Number_toString z +:+ s) = includes "/api" s /\
  String.prefix "api" (Number_toString z +:+ s) = false.
Proof.
  rewrite Number_toString_cases. destruct z as [|p|p].
  - split; reflexivity.
  - split; [apply uint_no_api | apply uint_not_api, JsonFacts.to_uint_head].
  - split; [|reflexivity]. cbn [String.append includes String.prefix].
    destruct (ascii_dec "/" "-"); [discriminate|]. apply uint_no_api.
Qed.

Lemma append_empty_l (s : string) : "" +:+ s = s.
Proof. reflexivity. Qed.

Lemma append_empty_r (s : string) : s +:+ "" = s.
Proof.
  induction s as [|c s IH]; [reflexivity|].
  change (String c (s +:+ "") = String c s). now rewrite IH.
Qed.

Lemma Number_toString_alone (z : Z) :
  includes "/api" (Number_toString z) = false /\
  String.prefix "api" (Number_toString z) = false.
Proof.
  rewrite <- (append_empty_r (Number_toString z)). apply Number_toString_no_api.
Qed.

Lemma by_id_clean (id : Z) :
  Forall (fun endpoint : Z -> string =>
            String.prefix "/" (endpoint id) = true /\
            includes "/api" (endpoint id) = false) endpoints.by_id.
Proof.
  unfold endpoints.by_id.
  repeat (apply Forall_cons; split; [split; [reflexivity|] | ]);
    try (apply Forall_nil; exact I).
  all: cbv [endpoints.patientById endpoints.patientDetails endpoints.doctorById
            endpoints.doctorDetails endpoints.examinationById endpoints.examinationDetails
            endpoints.examinationsByPatient endpoints.examinationsByDoctor
            endpoints.medicalHistoryById endpoints.medicalHistoryByPatient
            endpoints.activeConditions endpoints.medicalImageById
            endpoints.medicalImagesByExamination endpoints.medicalImageDownload
            endpoints.medicalImageSecureUrl endpoints.uploadMedicalImage
            endpoints.prescriptionById endpoints.prescriptionsByPatient
            endpoints.prescriptionsByDoctor endpoints.prescriptionPdf].
  all: simpl; rewrite !append_empty_l.
  all: first
    [ rewrite (proj1 (Number_toString_alone id)), (proj2 (Number_toString_alone id));
      reflexivity
    | rewrite (proj1 (Number_toString_no_api id _)), (proj2 (Number_toString_no_api id _));
      reflexivity ].
Qed.

Lemma fixed_clean :
  Forall (fun e : string => String.prefix "/" e = true /\ includes "/api" e = false)
         endpoints.fixed.
Proof. unfold endpoints.fixed. repeat constructor. Qed.

(** The url of an endpoint path after the request interceptor of
    [api]. *)
Lemma Api_on_request_path (config : AxiosRequestConfig) (w : World) :
  String.prefix "/" (url config) = true ->
  includes "/api" (url config) = false ->
  exists sent,
    Api.on_request config w = (Normal sent, w) /\
    url sent = (if includes "/api" (baseURL config) then url config
                else "/api" +:+ url config) /\
    method sent = method config /\ data sent = data config.
Proof.
  intros Hp Hi.
  assert (String.eqb (url config) "" = false) as Hne.
  { apply String.eqb_neq. intros E. rewrite E in Hp. discriminate. }
  eexists. split; [apply Api_on_request_steps|]. cbv zeta.
  rewrite Hne, Hi, Hp. cbn [negb andb].
  set (c1 := if negb (includes "/api" (baseURL config))
             then set_url ("/api" +:+ url config) config else config).
  assert (url c1 = (if includes "/api" (baseURL config) then url config
                    else "/api" +:+ url config)
          /\ method c1 = method config /\ data c1 = data config) as (U1 & M1 & D1).
  { subst c1. destruct (includes "/api" (baseURL config)); repeat split. }
  rewrite <- U1, <- M1, <- D1.
  generalize c1. intros c.
  destruct (localStorage w !! "token") as [tok|].
  - destruct (decide (tok = ""));
      match goal with |- context [if ?b then set_header _ _ _ else _] => destruct b end;
      repeat split.
  - match goal with |- context [if ?b then set_header _ _ _ else _] => destruct b end;
      repeat split.
Qed.

(** X16.  Every path of the endpoint table goes out under [/api].  For
    each of its plain strings and each of its members applied to an id,
    a request made with that path through [api] leaves the request
    interceptor with [/api] put in front of the path, unless the
    configured base URL contains [/api] already, in which case the path
    is sent as it is. *)
Theorem api_prefixes_every_endpoint
    (VITE_API_URL : option string) (m : string) (d : list (string * string))
    (id : Z) (w : World) :
  Forall (fun path : string =>
            exists sent,
              Api.on_request (api_defaults VITE_API_URL m path d) w = (Normal sent, w) /\
              url sent = (if includes "/api" (API_URL VITE_API_URL) then path
                          else "/api" +:+ path))
         (endpoints.fixed ++ map (fun endpoint => endpoint id) endpoints.by_id).
Proof.
  apply Forall_app. split.
  - eapply Forall_impl; [exact fixed_clean|]. intros e [Hp Hi].
    destruct (Api_on_request_path (api_defaults VITE_API_URL m e d) w Hp Hi)
      as (sent & Hrun & Hu & _).
    exists sent. split; [exact Hrun | exact Hu].
  - apply Forall_map. eapply Forall_impl; [exact (by_id_clean id)|].
    intros f [Hp Hi].
    destruct (Api_on_request_path (api_defaults VITE_API_URL m (f id) d) w Hp Hi)
      as (sent & Hrun & Hu & _).
    exists sent. split; [exact Hrun | exact Hu].
Qed.



(** The url of a path that starts with a slash after the request
    interceptor of [api]. *)
Lemma Api_on_request_slash (config : AxiosRequestConfig) (w : World) :
  String.prefix "/" (url config) = true ->
  exists sent,
    Api.on_request config w = (Normal sent, w) /\
    url sent = (if includes "/api" (url config) || includes "/api" (baseURL config)
                then url config else "/api" +:+ url config) /\
    method sent = method config /\ data sent = data config.
Proof.
  intros Hp.
  assert (String.eqb (url config) "" = false) as Hne.
  { apply String.eqb_neq. intros E. rewrite E in Hp. discriminate. }
  eexists. split; [apply Api_on_request_steps|]. cbv zeta.
  rewrite Hne, Hp. cbn [negb andb]. rewrite <- negb_orb.
  set (c1 := if negb (includes "/api" (url config) || includes "/api" (baseURL config))
             then set_url ("/api" +:+ url config) config else config).
  assert (url c1 = (if includes "/api" (url config) || includes "/api" (baseURL config)
                    then url config else "/api" +:+ url config)
          /\ method c1 = method config /\ data c1 = data config) as (U1 & M1 & D1).
  { subst c1.
    destruct (includes "/api" (url config) || includes "/api" (baseURL config));
      repeat split. }
  rewrite <- U1, <- M1, <- D1.
  generalize c1. intros c.
  destruct (localStorage w !! "token") as [tok|].
  - destruct (decide (tok = ""));
      match goal with |- context [if ?b then set_header _ _ _ else _] => destruct b end;
      repeat split.
  - match goal with |- context [if ?b then set_header _ _ _ else _] => destruct b end;
      repeat split.
Qed.

Lemma includes_oib_path (oib : string) :
  includes "/api" ("/Patient/Oib/" +:+ oib) = String.prefix "api" oib || includes "/api" oib.
Proof. simpl. rewrite !append_empty_l. reflexivity. Qed.

(** X26.  The lookup of a patient by personal id number issues one GET
    request for [/Patient/Oib/] followed by the number as given, and
    returns the body of a 2xx response.  The path goes out under [/api]
    like every other one, with one exception the interceptor's test
    brings about: a number that starts with [api] or contains [/api]
    makes the path contain [/api] already, and the request then leaves
    without the prefix. *)
Theorem getPatientByOib_request
    (server : AxiosRequestConfig -> option AxiosResponse) (VITE_API_URL : option string)
    (personalIdNumber : string) (w : World) :
  let path := "/Patient/Oib/" +:+ personalIdNumber in
  let has_api :=
    String.prefix "api" personalIdNumber || includes "/api" personalIdNumber in
  issues server (getPatientByOib server VITE_API_URL personalIdNumber) w
    "get"
    (if has_api || includes "/api" (API_URL VITE_API_URL) then path else "/api" +:+ path)
    [] response_data.
Proof.
  cbv zeta. unfold getPatientByOib, api_get, endpoints.patientByOib.
  destruct (Api_on_request_slash
              (api_defaults VITE_API_URL "get" ("/Patient/Oib/" +:+ personalIdNumber) []) w)
    as (sent & Hrun & Hu & Hm & Hd); [reflexivity|].
  cbn [url baseURL method data api_defaults] in Hu, Hm, Hd.
  rewrite includes_oib_path in Hu.
  exists sent.
  destruct (api_request_settles server _ sent w Hrun) as [Hres Hreq].
  unfold bind.
  destruct (api_request server
              (api_defaults VITE_API_URL "get" ("/Patient/Oib/" +:+ personalIdNumber) []) w)
    as [[r|e] w'] eqn:E; cbn [fst snd] in *.
  - unfold ret. cbn [fst snd]. repeat split; try assumption.
    destruct (server sent) as [r'|]; [|discriminate Hres].
    destruct (validateStatus (status r')); [congruence | discriminate Hres].
  - repeat split; try assumption.
    destruct (server sent) as [r'|]; [|congruence].
    destruct (validateStatus (status r')); [discriminate Hres | congruence].
Qed.

(** ** Login page: the remote branch of [handleSubmit] *)

Section LoginFacts.

Variable jwtDecode : Decoder.
Variable server : AxiosRequestConfig -> option AxiosResponse.

(** The form is sent to the remote service when both fields are filled
    in and the credentials are not the built-in pair. *)
Lemma handleSubmit_remote_branch (username password : string) (w : World) :
  username <> "" -> password <> "" ->
  ~ (username = "admin" /\ password = "admin") ->
  handleSubmit jwtDecode server username password w =
    (setError None ;;;
     setLoading true ;;;
     try_finally
       (try_catch
          (response <- apiClient_post server endpoints_login
                         [("username", username); ("password", password)] ;;
           match response_data response with
           | data_null => throw TypeError
           | mkData token _ =>
               match token with
               | Some tok =>
                   if truthy token then
                     login jwtDecode tok ;;;
                     navigate "/"
                   else setError (Some "Invalid response from server")
               | None => setError (Some "Invalid response from server")
               end
           end)
          (fun err =>
             match err with
             | AxiosRejection axiosError =>
                 if bool_decide (status <$> response axiosError = Some 401) then
                   setError (Some "Invalid username or password")
                 else
                   let msg := r ← response axiosError; data_message (response_data r) in
                   setError (Some (if truthy msg then default "" msg
                                   else "An error occurred during login"))
             | _ => setError (Some "An unexpected error occurred")
             end))
       (setLoading false)) w.
Proof.
  intros Hu Hp Hadm. unfold handleSubmit.
  rewrite (proj2 (truthy_Some _) Hu), (proj2 (truthy_Some _) Hp). cbn [negb orb].
  assert (String.eqb username "admin" && String.eqb password "admin" = false) as ->.
  { apply andb_false_iff.
    destruct (String.eqb_spec username "admin"), (String.eqb_spec password "admin"); tauto. }
  reflexivity.
Qed.

Ltac settle :=
  cbn; unfold emit;
  cbn [localStorage isAuthenticated user error loading href route clock trace];
  rewrite <- ?app_assoc; reflexivity.

(** The outcome of the remote branch, case by case: the world a
    submission ends in. *)
Lemma handleSubmit_remote_run (username password : string) (w : World) :
  username <> "" -> password <> "" ->
  ~ (username = "admin" /\ password = "admin") ->
  let config := apiClient_defaults "post" "/Auth/Login"
                  [("username", username); ("password", password)] in
  let sent := match localStorage w !! "token" with
              | Some tok =>
                  if decide (tok = "") then config
                  else set_header "Authorization" ("Bearer " +:+ tok) config
              | None => config
              end in
  let failed (ls : gmap string string) (flag : bool) (h msg : string)
             (effects : list event) :=
    mkWorld ls flag (user w) (Some msg) false h (route w) (clock w)
            (trace w ++ [SetError None; SetLoading true; HttpSend sent] ++ effects
                     ++ [SetError (Some msg); SetLoading false]) in
  let signed_in (tok : string) (identity : User.t) :=
    mkWorld (<["token" := tok]> (localStorage w)) true (Some identity)
            None false (href w) "/" (clock w)
            (trace w ++ [SetError None; SetLoading true; HttpSend sent;
                         StorageSet "token" tok; SetIsAuthenticated true;
                         SetUser (Some identity); RouterNavigate "/";
                         SetLoading false]) in
  handleSubmit jwtDecode server username password w =
    (Normal tt,
     match server sent with
     | Some r =>
         if validateStatus (status r) then
           match response_data r with
           | data_null =>
               failed (localStorage w) (isAuthenticated w) (href w)
                      "An unexpected error occurred" []
           | mkData (Some tok) _ =>
               if decide (tok = "") then
                 failed (localStorage w) (isAuthenticated w) (href w)
                        "Invalid response from server" []
               else
                 match decode jwtDecode tok with
                 | Some (WithExpiry p) => signed_in tok (user_of p)
                 | Some (WithoutExpiry nameid unique_name role) =>
                     signed_in tok (User.mk nameid unique_name role)
                 | Some Null =>
                     failed (<["token" := tok]> (localStorage w)) true (href w)
                            "An unexpected error occurred"
                            [StorageSet "token" tok; SetIsAuthenticated true]
                 | None =>
                     failed (<["token" := tok]> (localStorage w)) (isAuthenticated w) (href w)
                            "An unexpected error occurred" [StorageSet "token" tok]
                 end
           | mkData None _ =>
               failed (localStorage w) (isAuthenticated w) (href w)
                      "Invalid response from server" []
           end
         else if (status r =? 401)%Z then
           failed (delete "token" (localStorage w)) (isAuthenticated w) "/login"
                  "Invalid username or password"
                  [StorageRemove "token"; LocationAssign "/login"]
         else
           failed (localStorage w) (isAuthenticated w) (href w)
                  match data_message (response_data r) with
                  | Some m => if decide (m = "") then "An error occurred during login" else m
                  | None => "An error occurred during login"
                  end []
     | None =>
         failed (localStorage w) (isAuthenticated w) (href w)
                "An error occurred during login" []
     end).
Proof.
  intros Hu Hp Hadm. cbv zeta.
  rewrite handleSubmit_remote_branch by assumption.
  unfold bind at 1. unfold setError at 1. cbv beta iota.
  unfold bind at 1. unfold setLoading at 1. cbv beta iota.
  change (emit (SetLoading true) _)
    with (mkWorld (localStorage w) (isAuthenticated w) (user w) None true (href w)
                  (route w) (clock w) ((trace w ++ [SetError None]) ++ [SetLoading true])).
  set (w1 := mkWorld _ _ _ _ _ _ _ _ _).
  set (sent := match localStorage w !! "token" with
               | Some tok => if decide (tok = "") then _ else _
               | None => _ end).
  assert (ApiClient.on_request
            (apiClient_defaults "post" "/Auth/Login"
               [("username", username); ("password", password)]) w1 = (Normal sent, w1))
    as Hsent by apply ApiClient_on_request_run.
  unfold try_finally, try_catch. unfold bind at 1. unfold apiClient_post, endpoints_login.
  rewrite (apiClient_request_run server _ sent w1 Hsent).
  destruct (server sent) as [r|].
  - destruct (validateStatus (status r)) eqn:Hv.
    + destruct (response_data r) as [[tok|] message|].
      * destruct (decide (tok = "")) as [->|Hne].
        -- settle.
        -- rewrite (proj2 (truthy_Some _) Hne). unfold bind at 1.
           destruct (decode jwtDecode tok) as [[p|nameid unique_name role|]|] eqn:Hd.
           ++ rewrite (login_run_ok jwtDecode tok p _ (proj2 (payload_Some _ _ _) Hd)).
              settle.
           ++ rewrite (login_run_undated jwtDecode tok _ _ _ _ Hd).
              settle.
           ++ rewrite (login_run_null jwtDecode tok _ Hd).
              settle.
           ++ rewrite (login_run_throw jwtDecode tok _ Hd).
              settle.
      * settle.
      * settle.
    + destruct (status r =? 401)%Z eqn:E.
      * apply Z.eqb_eq in E.
        rewrite (ApiClient_on_error_401 (mkError (Some r)) r _ eq_refl E).
        cbn [response fmap option_fmap option_map]. rewrite E.
        rewrite bool_decide_eq_true_2 by reflexivity.
        subst w1. settle.
      * apply Z.eqb_neq in E.
        rewrite ApiClient_on_error_other by (intros r' [= <-]; exact E).
        cbn [response fmap option_fmap option_map].
        rewrite bool_decide_eq_false_2 by (intros [= H]; exact (E H)).
        cbn [mbind option_bind].
        destruct (data_message (response_data r)) as [m|].
        -- destruct (decide (m = "")) as [->|Hm].
           ++ settle.
           ++ rewrite (proj2 (truthy_Some _) Hm).
              settle.
        -- settle.
  - rewrite ApiClient_on_error_other by (intros r' [=]).
    cbn [response fmap option_fmap option_map].
    rewrite bool_decide_eq_false_2 by discriminate.
    subst w1. settle.
Qed.

(** The request of the remote branch is the login request. *)
Lemma login_request_sent (username password : string) (ls : gmap string string) :
  let config := apiClient_defaults "post" "/Auth/Login"
                  [("username", username); ("password", password)] in
  login_request username password ls
    match ls !! "token" with
    | Some tok =>
        if decide (tok = "") then config
        else set_header "Authorization" ("Bearer " +:+ tok) config
    | None => config
    end.
Proof.
  cbv zeta. unfold login_request.
  destruct (ls !! "token") as [tok|]; [|repeat split].
  destruct (decide (tok = "")); [repeat split|].
  cbn [set_header url method data headers apiClient_defaults].
  split; [reflexivity|]. split; [reflexivity|]. split; [reflexivity|].
  split; [|apply lookup_insert_eq].
  rewrite lookup_insert_ne by discriminate. reflexivity.
Qed.

(** X18.  A submission with an empty user name or an empty password is
    refused on the spot: the handler completes normally and its only
    effect is to set the error message.  No request is sent, the storage
    and the session are untouched and the loading flag is not raised.
    This holds whatever the other field contains, the built-in
    credentials included. *)
Theorem handleSubmit_requires_both_fields (username password : string) (w : World) :
  let message := Some "Please enter both username and password" in
  let refused :=
    (Normal tt,
     mkWorld (localStorage w) (isAuthenticated w) (user w) message (loading w)
             (href w) (route w) (clock w) (trace w ++ [SetError message])) in
  handleSubmit jwtDecode server "" password w = refused /\
  handleSubmit jwtDecode server username "" w = refused.
Proof.
  cbv zeta. split.
  - reflexivity.
  - unfold handleSubmit. cbn [truthy String.eqb negb].
    rewrite orb_true_r. reflexivity.
Qed.

(** X19.  A submission that goes to the remote service never throws and
    never leaves the loading flag raised.  Whatever the service answers
    and whatever the decoder does with a returned token, the handler
    completes normally; its first three effects are clearing the error,
    raising the loading flag and sending one request, and its last effect
    lowers the loading flag.  That one request is the only one: a POST of
    the two credentials to [/Auth/Login], declared as JSON and carrying
    the Authorization header of a token that happens to be in storage. *)
Theorem handleSubmit_remote_never_throws (username password : string) (w : World) :
  username <> "" -> password <> "" ->
  ~ (username = "admin" /\ password = "admin") ->
  let out := handleSubmit jwtDecode server username password w in
  exists sent effects,
    login_request username password (localStorage w) sent /\
    out.1 = Normal tt /\
    loading out.2 = false /\
    trace out.2 = trace w ++ [SetError None; SetLoading true; HttpSend sent]
                          ++ effects ++ [SetLoading false] /\
    requests (trace out.2) = requests (trace w) ++ [sent].
Proof.
  intros Hu Hp Hadm. cbv zeta.
  rewrite (handleSubmit_remote_run username password w Hu Hp Hadm). cbv zeta.
  pose proof (login_request_sent username password (localStorage w)) as Hreq.
  cbv zeta in Hreq.
  set (sent := match localStorage w !! "token" with
               | Some tok => if decide (tok = "") then _ else _
               | None => _ end) in *.
  exists sent.
  assert (forall ls flag h msg effects,
            requests effects = [] ->
            let final := mkWorld ls flag (user w) (Some msg) false h
                           (route w) (clock w)
                           (trace w ++ [SetError None; SetLoading true; HttpSend sent]
                              ++ effects ++ [SetError (Some msg); SetLoading false]) in
            loading final = false /\
            trace final = trace w ++ [SetError None; SetLoading true; HttpSend sent]
                            ++ (effects ++ [SetError (Some msg)]) ++ [SetLoading false] /\
            requests (trace final) = requests (trace w) ++ [sent]) as Hfailed.
  { intros ls flag h msg effects He. cbv zeta. cbn [loading trace].
    split; [reflexivity|]. split.
    - rewrite <- !app_assoc. reflexivity.
    - rewrite !requests_app, He. reflexivity. }
  assert (forall final effects,
            loading final = false /\
            trace final = trace w ++ [SetError None; SetLoading true; HttpSend sent]
                            ++ effects ++ [SetLoading false] /\
            requests (trace final) = requests (trace w) ++ [sent] ->
            exists effects0,
              login_request username password (localStorage w) sent /\
              (Normal tt, final).1 = Normal tt /\
              loading (Normal tt, final).2 = false /\
              trace (Normal tt, final).2 =
                trace w ++ [SetError None; SetLoading true; HttpSend sent]
                        ++ effects0 ++ [SetLoading false] /\
              requests (trace (Normal tt, final).2) = requests (trace w) ++ [sent]) as Hpack.
  { intros final effects (H1 & H2 & H3). exists effects.
    split; [exact Hreq|]. repeat split; assumption. }
  destruct (server sent) as [r|].
  - destruct (validateStatus (status r)).
    + destruct (response_data r) as [[tok|] message|].
      * destruct (decide (tok = "")).
        -- eapply Hpack, Hfailed. reflexivity.
        -- destruct (decode jwtDecode tok) as [[p|nameid unique_name role|]|].
           ++ apply (Hpack _ [StorageSet "token" tok; SetIsAuthenticated true;
                              SetUser (Some (user_of p)); RouterNavigate "/"]).
              cbn [loading trace]. split; [reflexivity|]. split; [reflexivity|].
              rewrite requests_app. reflexivity.
           ++ apply (Hpack _ [StorageSet "token" tok; SetIsAuthenticated true;
                              SetUser (Some (User.mk nameid unique_name role));
                              RouterNavigate "/"]).
              cbn [loading trace]. split; [reflexivity|]. split; [reflexivity|].
              rewrite requests_app. reflexivity.
           ++ eapply Hpack, Hfailed. reflexivity.
           ++ eapply Hpack, Hfailed. reflexivity.
      * eapply Hpack, Hfailed. reflexivity.
      * eapply Hpack, Hfailed. reflexivity.
    + destruct (status r =? 401)%Z.
      * eapply Hpack, Hfailed. reflexivity.
      * eapply Hpack, Hfailed. reflexivity.
  - eapply Hpack, Hfailed. reflexivity.
Qed.

(** X20.  The message a remote submission ends with.  A rejection with
    status 401 shows [Invalid username or password]; any other rejection
    shows the message of the response body when it has a non-empty one,
    and [An error occurred during login] otherwise, as does a request
    that got no response.  A 2xx response whose body is [null] shows
    [An unexpected error occurred], since reading the token off it
    throws.  A 2xx response whose body has no token, or an empty one,
    shows [Invalid response from server]; one whose token makes the
    decoder throw or return [null] shows [An unexpected error occurred];
    and only a 2xx response with a token for which the decoder returns a
    value other than [null] leaves no message. *)
Theorem handleSubmit_error_message (username password : string) (w : World) :
  username <> "" -> password <> "" ->
  ~ (username = "admin" /\ password = "admin") ->
  exists sent,
    login_request username password (localStorage w) sent /\
    error (handleSubmit jwtDecode server username password w).2 =
      match server sent with
      | Some r =>
          if validateStatus (status r) then
            match response_data r with
            | data_null => Some "An unexpected error occurred"
            | mkData (Some tok) _ =>
                if decide (tok = "") then Some "Invalid response from server"
                else match decode jwtDecode tok with
                     | Some (WithExpiry _) | Some (WithoutExpiry _ _ _) => None
                     | Some Null | None => Some "An unexpected error occurred"
                     end
            | mkData None _ => Some "Invalid response from server"
            end
          else if (status r =? 401)%Z then Some "Invalid username or password"
          else match data_message (response_data r) with
               | Some m => if decide (m = "") then Some "An error occurred during login"
                           else Some m
               | None => Some "An error occurred during login"
               end
      | None => Some "An error occurred during login"
      end.
Proof.
  intros Hu Hp Hadm.
  rewrite (handleSubmit_remote_run username password w Hu Hp Hadm). cbv zeta.
  eexists. split; [apply login_request_sent|].
  cbn [snd].
  match goal with |- context [server ?s] => destruct (server s) as [r|] end;
    [|reflexivity].
  destruct (validateStatus (status r)).
  - destruct (response_data r) as [[tok|] message|]; [|reflexivity|reflexivity].
    destruct (decide (tok = "")); [reflexivity|].
    destruct (decode jwtDecode tok) as [[]|]; reflexivity.
  - destruct (status r =? 401)%Z; [reflexivity|].
    destruct (data_message (response_data r)) as [m|]; [|reflexivity].
    destruct (decide (m = "")); reflexivity.
Qed.

(** X21.  What a remote submission does to the session and to
    navigation.  A 2xx response with a non-empty token stores that token,
    whatever the decoder does with it.  If the decoder returns a value
    other than [null], the session becomes authenticated with the
    identity read off that value and the router goes to [/], whether or
    not the value has a usable [exp].  If the decoder throws, the authenticated
    flag, the user and the route stay as they were, so the token is left
    behind in storage.  If the decoder returns [null], the flag has been
    raised before the failure: the submission ends with the flag up and
    the user and the route as they were.  A 401 removes the stored token
    and sends the browser to the login view (the work of the response
    interceptor) without touching the session in memory.  Every other
    outcome, a 2xx response with a [null] body included, leaves storage,
    session, location and route unchanged. *)
Theorem handleSubmit_session_effect (username password : string) (w : World) :
  username <> "" -> password <> "" ->
  ~ (username = "admin" /\ password = "admin") ->
  let out := (handleSubmit jwtDecode server username password w).2 in
  exists sent,
    login_request username password (localStorage w) sent /\
    (session out, href out, route out) =
      match server sent with
      | Some r =>
          if validateStatus (status r) then
            match response_data r with
            | data_null => (session w, href w, route w)
            | mkData (Some tok) _ =>
                if decide (tok = "") then (session w, href w, route w)
                else match decode jwtDecode tok with
                     | Some (WithExpiry p) =>
                         ((<["token" := tok]> (localStorage w), true,
                           Some (User.mk (JwtPayload.nameid p) (JwtPayload.unique_name p)
                                         (JwtPayload.role p))),
                          href w, "/")
                     | Some (WithoutExpiry nameid unique_name role) =>
                         ((<["token" := tok]> (localStorage w), true,
                           Some (User.mk nameid unique_name role)),
                          href w, "/")
                     | Some Null =>
                         ((<["token" := tok]> (localStorage w), true, user w),
                          href w, route w)
                     | None =>
                         ((<["token" := tok]> (localStorage w), isAuthenticated w, user w),
                          href w, route w)
                     end
            | mkData None _ => (session w, href w, route w)
            end
          else if (status r =? 401)%Z then
            ((delete "token" (localStorage w), isAuthenticated w, user w),
             "/login", route w)
          else (session w, href w, route w)
      | None => (session w, href w, route w)
      end.
Proof.
  intros Hu Hp Hadm. cbv zeta.
  rewrite (handleSubmit_remote_run username password w Hu Hp Hadm). cbv zeta.
  eexists. split; [apply login_request_sent|].
  cbn [snd].
  match goal with |- context [server ?s] => destruct (server s) as [r|] end;
    [|reflexivity].
  destruct (validateStatus (status r)).
  - destruct (response_data r) as [[tok|] message|]; [|reflexivity|reflexivity].
    destruct (decide (tok = "")); [reflexivity|].
    destruct (decode jwtDecode tok) as [[]|]; reflexivity.
  - destruct (status r =? 401)%Z; reflexivity.
Qed.

End LoginFacts.

(** ** Login page: the built-in administrator *)

Lemma admin_token_nonempty (now : Z) : admin_token now <> "".
Proof. unfold admin_token. discriminate. Qed.

(** X22.  The session of the built-in administrator lasts a day, to the
    second.  After a submission of the built-in credentials with the
    clock at [clock w] milliseconds, a reload restores the administrator
    at every reading of the clock before the expiry instant, which is
    86400 seconds after the second the token was minted in; from that
    instant on the reload ends unauthenticated and discards the token.
    The submission itself leaves the loading flag raised: it returns
    before the block whose [finally] lowers it. *)
Theorem admin_session_lasts_a_day
    (server : AxiosRequestConfig -> option AxiosResponse)
    (w : World) (h : string) (later : Z) :
  let logged := (handleSubmit JwtDecode.jwtDecode server "admin" "admin" w).2 in
  let reloaded :=
    (initialize JwtDecode.jwtDecode (fresh (localStorage logged) h later)).2 in
  let expiry := (clock w / 1000 + 86400) * 1000 in
  loading logged = true /\
  (later < expiry ->
   isAuthenticated reloaded = true /\
   user reloaded = Some (User.mk "admin" "admin" "Administrator") /\
   localStorage reloaded = localStorage logged) /\
  (expiry <= later ->
   isAuthenticated reloaded = false /\
   user reloaded = None /\
   localStorage reloaded !! "token" = None).
Proof.
  cbv zeta.
  pose proof (jwtDecode_admin (clock w)) as Hd.
  rewrite (handleSubmit_admin_run _ server w _ Hd). cbn [snd localStorage loading].
  assert (localStorage (fresh (<["token" := admin_token (clock w)]> (localStorage w))
                          h later) !! "token" = Some (admin_token (clock w))) as Hls
    by (simpl; apply lookup_insert_eq).
  change (Qfloor (clock w # 1000)) with (clock w / 1000) in Hd.
  change (24 * 60 * 60) with 86400 in Hd.
  split; [reflexivity|]. split; intros Hlater.
  - rewrite (initialize_valid _ _ _ _ Hls (admin_token_nonempty _) Hd)
      by (apply before_expiry; exact Hlater).
    repeat split.
  - rewrite (initialize_expired _ _ _ _ Hls (admin_token_nonempty _) Hd)
      by (apply after_expiry; exact Hlater).
    simpl. rewrite lookup_delete_eq. repeat split.
Qed.

(** ** The data-fetching hook *)

(** X23.  [execute] of the data-fetching hook never rejects and never
    leaves the loading flag raised; the wrapped call runs exactly once.
    When the call returns, [execute] returns its result, stores it as
    the data and clears the error.  When the call throws, [execute]
    returns null and records the error, and the data keeps the value it
    had: after a success followed by a failure the hook holds the stale
    result and the new error side by side. *)
Theorem useApi_execute_settles {T : Type} (apiFunction again : M T)
    (s : UseApi.State T) (w : World) :
  let out := UseApi.execute T apiFunction s w in
  UseApi.loading T out.1.2 = false /\
  out.2 = (apiFunction w).2 /\
  match (apiFunction w).1 with
  | Normal result =>
      out.1.1 = Normal (Some result) /\
      UseApi.data T out.1.2 = Some result /\
      UseApi.error T out.1.2 = None /\
      forall err, (again out.2).1 = Throw err ->
        let next := UseApi.execute T again out.1.2 out.2 in
        next.1.1 = Normal None /\
        UseApi.data T next.1.2 = Some result /\
        UseApi.error T next.1.2 = Some err /\
        UseApi.loading T next.1.2 = false
  | Throw err =>
      out.1.1 = Normal None /\
      UseApi.data T out.1.2 = UseApi.data T s /\
      UseApi.error T out.1.2 = Some err
  end.
Proof.
  cbv zeta. unfold UseApi.execute.
  destruct (apiFunction w) as [[result|err] w1]; cbn [fst snd].
  - repeat split. all: destruct (again w1) as [[r2|e2] w2]; cbn [fst snd] in *;
      first [discriminate | reflexivity | (injection H as <-; reflexivity)].
  - repeat split.
Qed.

(** ** Examination types *)

Lemma index_by_number_integer {A : Type} (obj : gmap Z A) (z : Z) :
  index_by_number obj (inject_Z z) = obj !! z.
Proof.
  unfold index_by_number. rewrite Qfloor_Z.
  now rewrite (proj2 (Qeq_bool_iff _ _) (Qeq_refl _)).
Qed.

(** A number selects a property only if it is an integer, and then the
    one with that key. *)
Lemma index_by_number_cases {A : Type} (obj : gmap Z A) (n : Q) :
  (index_by_number obj n = None /\ forall z, ~ (n == inject_Z z)%Q) \/
  (exists z, (n == inject_Z z)%Q /\ index_by_number obj n = obj !! z).
Proof.
  unfold index_by_number.
  destruct (Qeq_bool n (inject_Z (Qfloor n))) eqn:E.
  - right. exists (Qfloor n). split; [now apply Qeq_bool_iff | reflexivity].
  - left. split; [reflexivity|]. intros z Hz.
    apply Qeq_bool_neq in E. apply E.
    rewrite (Qfloor_comp _ _ Hz), Qfloor_Z. exact Hz.
Qed.

Lemma examinationTypeMap_outside (z : Z) :
  ~ (0 <= z <= 12) -> examinationTypeMap !! z = None.
Proof.
  intros Hz. unfold examinationTypeMap.
  repeat (rewrite lookup_insert_ne by lia). apply lookup_empty.
Qed.

Lemma examinationTypeMap_inside (z : Z) :
  0 <= z <= 12 ->
  exists t, examinationTypeMap !! z = Some (ExaminationType_value t).
Proof.
  intros Hz.
  assert (z = 0 \/ z = 1 \/ z = 2 \/ z = 3 \/ z = 4 \/ z = 5 \/ z = 6 \/ z = 7 \/
          z = 8 \/ z = 9 \/ z = 10 \/ z = 11 \/ z = 12) as H by lia.
  repeat (destruct H as [-> | H]); [.. | subst z].
  - now exists GP.
  - now exists KRV.
  - now exists XRAY.
  - now exists CT.
  - now exists MR.
  - now exists ULTRA.
  - now exists EKG.
  - now exists ECHO.
  - now exists EYE.
  - now exists DERM.
  - now exists DENTA.
  - now exists MAMMO.
  - now exists NEURO.
Qed.

Lemma ExaminationType_value_known (t : ExaminationType) :
  ExaminationType_value t <> "" /\ ExaminationType_value t <> "Unknown".
Proof. destruct t; split; discriminate. Qed.

(** X24.  The type number picks the examination type.  The numbers 0 to
    12 are mapped onto the thirteen members of the examination-type
    enumeration, one each: every member is the name of exactly one of
    these numbers.  Every other number, be it out of this range or no
    integer at all, is named [Unknown], and no number in the range is. *)
Theorem getExaminationTypeName_classifies :
  (forall typeNumber : Q,
     getExaminationTypeName typeNumber = "Unknown" <->
     ~ exists z, 0 <= z <= 12 /\ (typeNumber == inject_Z z)%Q) /\
  (forall z, 0 <= z <= 12 ->
     exists t, getExaminationTypeName (inject_Z z) = ExaminationType_value t) /\
  (forall t, exists z,
     0 <= z <= 12 /\
     getExaminationTypeName (inject_Z z) = ExaminationType_value t /\
     forall z', 0 <= z' <= 12 ->
       getExaminationTypeName (inject_Z z') = ExaminationType_value t -> z' = z).
Proof.
  assert (Hin : forall z, 0 <= z <= 12 ->
            exists t, getExaminationTypeName (inject_Z z) = ExaminationType_value t).
  { intros z Hz. unfold getExaminationTypeName. cbv zeta.
    rewrite index_by_number_integer.
    destruct (examinationTypeMap_inside z Hz) as [t ->]. exists t.
    destruct (ExaminationType_value_known t) as [Hne _].
    now rewrite (proj2 (truthy_Some _) Hne). }
  split; [|split].
  - intros n. unfold getExaminationTypeName. cbv zeta.
    destruct (index_by_number_cases examinationTypeMap n) as [[-> Hno] | (z & Hz & ->)].
    + split; [|reflexivity]. intros _ (z & _ & Hz). exact (Hno z Hz).
    + destruct (decide (0 <= z <= 12)) as [Hr | Hr].
      * destruct (examinationTypeMap_inside z Hr) as [t ->].
        destruct (ExaminationType_value_known t) as [Hne Hu].
        rewrite (proj2 (truthy_Some _) Hne).
        split; [intros H; contradiction | intros H; exfalso; apply H; eauto].
      * rewrite (examinationTypeMap_outside z Hr).
        split; [|reflexivity]. intros _ (z' & Hz' & Hn).
        rewrite Hz in Hn. apply (proj1 (inject_Z_injective z z')) in Hn. lia.
  - exact Hin.
  - assert (Hall : forall z t, 0 <= z <= 12 ->
              getExaminationTypeName (inject_Z z) = ExaminationType_value t ->
              examinationTypeMap !! z = Some (ExaminationType_value t)).
    { intros z t Hz. unfold getExaminationTypeName. cbv zeta.
      rewrite index_by_number_integer.
      destruct (examinationTypeMap_inside z Hz) as [t' ->].
      destruct (ExaminationType_value_known t') as [Hne _].
      rewrite (proj2 (truthy_Some _) Hne). now intros ->. }
    assert (Huniq : forall z z' t, 0 <= z <= 12 -> 0 <= z' <= 12 ->
              examinationTypeMap !! z = Some (ExaminationType_value t) ->
              examinationTypeMap !! z' = Some (ExaminationType_value t) -> z' = z).
    { intros z z' t Hz Hz'.
      assert (z = 0 \/ z = 1 \/ z = 2 \/ z = 3 \/ z = 4 \/ z = 5 \/ z = 6 \/ z = 7 \/
              z = 8 \/ z = 9 \/ z = 10 \/ z = 11 \/ z = 12) as H by lia.
      assert (z' = 0 \/ z' = 1 \/ z' = 2 \/ z' = 3 \/ z' = 4 \/ z' = 5 \/ z' = 6 \/
              z' = 7 \/ z' = 8 \/ z' = 9 \/ z' = 10 \/ z' = 11 \/ z' = 12) as H' by lia.
      destruct t;
        repeat (destruct H as [-> | H]); try subst z;
        try (vm_compute; discriminate);
        repeat (destruct H' as [-> | H']); try subst z';
        first [reflexivity | vm_compute; discriminate]. }
    intros t.
    assert (exists z, 0 <= z <= 12 /\
              getExaminationTypeName (inject_Z z) = ExaminationType_value t) as (z & Hz & Hn).
    { destruct t;
        [ exists 0 | exists 1 | exists 2 | exists 3 | exists 4 | exists 5 | exists 6
        | exists 7 | exists 8 | exists 9 | exists 10 | exists 11 | exists 12 ];
        (split; [lia | vm_compute; reflexivity]). }
    exists z. split; [exact Hz|]. split; [exact Hn|].
    intros z' Hz' Hn'. eapply Huniq; eauto.
Qed.

(** X25.  The description of an examination type is always defined: the
    table of descriptions has an entry for every name the type map can
    yield, so the lookup never comes back undefined.  The description is
    a non-empty string, and it is the fallback [Unknown Examination Type]
    exactly for the numbers whose name is [Unknown]. *)
Theorem getExaminationTypeDescription_is_defined (typeNumber : Q) :
  exists description,
    getExaminationTypeDescription typeNumber = Some description /\
    description <> "" /\
    (description = "Unknown Examination Type" <->
     getExaminationTypeName typeNumber = "Unknown").
Proof.
  unfold getExaminationTypeDescription, getExaminationTypeName. cbv zeta.
  destruct (index_by_number_cases examinationTypeMap typeNumber)
    as [[-> _] | (z & _ & ->)].
  - eexists. split; [reflexivity|]. split; [discriminate | tauto].
  - destruct (decide (0 <= z <= 12)) as [Hr | Hr].
    + destruct (examinationTypeMap_inside z Hr) as [t ->].
      destruct (ExaminationType_value_known t) as [Hne Hu].
      rewrite (proj2 (truthy_Some _) Hne).
      destruct t; (eexists; split; [vm_compute; reflexivity|]);
        (split; [discriminate | split; discriminate]).
    + rewrite (examinationTypeMap_outside z Hr).
      eexists. split; [reflexivity|]. split; [discriminate | tauto].
Qed.

(** ** Medical histories: the list filter *)

Section FilterFacts.
Import MedicalHistories.

Variable toLowerCase : string -> string.
Variable trim : string -> string.

Lemma filter_sublist {A : Type} (f : A -> bool) (l : list A) : sublist (List.filter f l) l.
Proof.
  induction l as [|a l IH]; cbn [List.filter]; [constructor|].
  destruct (f a); [now apply sublist_skip | now apply sublist_cons].
Qed.

Lemma Forall_of_sublist {A : Type} (P : A -> Prop) (l1 l2 : list A) :
  Forall P l2 -> sublist l1 l2 -> Forall P l1.
Proof.
  rewrite !Forall_forall. intros H Hsub x Hx. apply H.
  eapply elem_of_sublist; eassumption.
Qed.

Lemma filter_Forall {A : Type} (f : A -> bool) (l : list A) :
  Forall (fun a => f a = true) (List.filter f l).
Proof.
  induction l as [|a l IH]; cbn [List.filter]; [constructor|].
  destruct (f a) eqn:E; [constructor; assumption | exact IH].
Qed.

Lemma filter_all {A : Type} (f : A -> bool) (l : list A) :
  Forall (fun a => f a = true) l -> List.filter f l = l.
Proof.
  induction 1 as [|a l Ha _ IH]; cbn [List.filter]; [reflexivity|].
  now rewrite Ha, IH.
Qed.

Lemma filter_split_length {A : Type} (f : A -> bool) (l : list A) :
  (List.length (List.filter (fun a => negb (f a)) l)
   + List.length (List.filter (fun a => negb (negb (f a))) l))%nat = List.length l.
Proof.
  induction l as [|a l IH]; cbn [List.filter List.length]; [reflexivity|].
  destruct (f a); cbn [negb List.length]; lia.
Qed.

(** The list after the search step alone. *)
Lemma filterHistories_search (histories : list MedicalHistory) (searchTerm : string) :
  exists searched,
    sublist searched histories /\
    (trim searchTerm = "" -> searched = histories) /\
    (trim searchTerm <> "" ->
     searched = List.filter (matches toLowerCase (toLowerCase searchTerm)) histories) /\
    forall statusFilter,
      filterHistories toLowerCase trim histories searchTerm statusFilter =
        if String.eqb statusFilter "active" then
          List.filter (fun history => negb (truthy (endDate history))) searched
        else if String.eqb statusFilter "resolved" then
          List.filter (fun history => negb (negb (truthy (endDate history)))) searched
        else searched.
Proof.
  unfold filterHistories. cbv zeta.
  destruct (String.eqb_spec (trim searchTerm) "") as [E|E]; cbn [negb].
  - exists histories. split; [reflexivity|]. repeat split; congruence.
  - eexists. split; [apply filter_sublist|]. repeat split; congruence.
Qed.

(** X27.  The filter of the medical-history list only removes rows: the
    result is a sub-list of the loaded histories, in their order.  With
    the status [active] every row that is left has no (or an empty) end
    date, with [resolved] every row has a non-empty one, and the two
    results together have as many rows as the result for any other
    status value, which applies no status filter at all.  A search term
    that is blank after trimming filters nothing; a term that is not is
    compared as typed, lower-cased but not trimmed.  Filtering the result
    again with the same term and status changes nothing. *)
Theorem filterHistories_only_removes
    (histories : list MedicalHistory) (searchTerm statusFilter : string) :
  let shown := filterHistories toLowerCase trim histories searchTerm statusFilter in
  let active := filterHistories toLowerCase trim histories searchTerm "active" in
  let resolved := filterHistories toLowerCase trim histories searchTerm "resolved" in
  sublist shown histories /\
  Forall (fun history => truthy (endDate history) = false) active /\
  Forall (fun history => truthy (endDate history) = true) resolved /\
  (statusFilter <> "active" -> statusFilter <> "resolved" ->
   (List.length active + List.length resolved)%nat = List.length shown) /\
  (trim searchTerm = "" -> statusFilter <> "active" -> statusFilter <> "resolved" ->
   shown = histories) /\
  (trim searchTerm <> "" ->
   Forall (fun history => matches toLowerCase (toLowerCase searchTerm) history = true)
          shown) /\
  filterHistories toLowerCase trim shown searchTerm statusFilter = shown.
Proof.
  cbv zeta.
  destruct (filterHistories_search histories searchTerm)
    as (searched & Hsub & Hblank & Hterm & Hrun).
  rewrite !Hrun. cbn [String.eqb Ascii.eqb Bool.eqb].
  assert (forall l : list MedicalHistory,
            Forall (fun h => truthy (endDate h) = false)
                   (List.filter (fun h => negb (truthy (endDate h))) l)) as Hact.
  { intros l. eapply Forall_impl; [apply filter_Forall|].
    intros h Hh. cbn beta in Hh. now apply negb_true_iff in Hh. }
  assert (forall l : list MedicalHistory,
            Forall (fun h => truthy (endDate h) = true)
                   (List.filter (fun h => negb (negb (truthy (endDate h)))) l)) as Hres.
  { intros l. eapply Forall_impl; [apply filter_Forall|].
    intros h Hh. cbn beta in Hh. now rewrite negb_involutive in Hh. }
  split; [|split; [|split; [|split; [|split; [|split]]]]].
  - destruct (String.eqb statusFilter "active");
      [|destruct (String.eqb statusFilter "resolved")];
      try (etransitivity; [apply filter_sublist | exact Hsub]); exact Hsub.
  - apply Hact.
  - apply Hres.
  - intros H1 H2. apply String.eqb_neq in H1, H2. rewrite H1, H2.
    apply filter_split_length.
  - intros Hb H1 H2. apply String.eqb_neq in H1, H2. rewrite H1, H2. now apply Hblank.
  - intros Ht. rewrite (Hterm Ht).
    destruct (String.eqb statusFilter "active");
      [|destruct (String.eqb statusFilter "resolved")].
    + eapply Forall_of_sublist; [|apply filter_sublist]. apply filter_Forall.
    + eapply Forall_of_sublist; [|apply filter_sublist]. apply filter_Forall.
    + apply filter_Forall.
  - set (shown := if String.eqb statusFilter "active" then _ else _).
    destruct (filterHistories_search shown searchTerm)
      as (again & _ & Hblank' & Hterm' & Hrun').
    rewrite Hrun'.
    assert (again = shown) as ->.
    { destruct (String.eqb_spec (trim searchTerm) "") as [E|E]; [now apply Hblank'|].
      rewrite (Hterm' E). apply filter_all.
      subst shown. rewrite (Hterm E).
      destruct (String.eqb statusFilter "active");
        [|destruct (String.eqb statusFilter "resolved")].
      - eapply Forall_of_sublist; [|apply filter_sublist]. apply filter_Forall.
      - eapply Forall_of_sublist; [|apply filter_sublist]. apply filter_Forall.
      - apply filter_Forall. }
    subst shown.
    destruct (String.eqb statusFilter "active");
      [|destruct (String.eqb statusFilter "resolved")].
    + apply filter_all. eapply Forall_impl; [apply Hact|].
      intros h Hh. cbn beta. now rewrite Hh.
    + apply filter_all. eapply Forall_impl; [apply Hres|].
      intros h Hh. cbn beta. now rewrite Hh.
    + reflexivity.
Qed.

End FilterFacts.

(** ** Dashboard: age statistics *)

Module DashboardFacts.
Import Dashboard.

(** **** The counting map *)

Lemma Map_get_set (k k' v : Z) (m : Map) :
  Map_get k (Map_set k' v m) = if (k' =? k)%Z then Some v else Map_get k m.
Proof.
  induction m as [|[a b] m IH]; cbn [Map_set Map_get]; [reflexivity|].
  destruct (a =? k')%Z eqn:E; cbn [Map_get].
  - apply Z.eqb_eq in E. subst a. destruct (k' =? k)%Z; reflexivity.
  - destruct (a =? k)%Z eqn:E2; [|exact IH].
    apply Z.eqb_eq in E2. subst a. now rewrite Z.eqb_sym, E.
Qed.

Lemma Map_set_keys (x k v : Z) (m : Map) :
  In x (map fst (Map_set k v m)) -> x = k \/ In x (map fst m).
Proof.
  induction m as [|[a b] m IH]; cbn [Map_set map fst In].
  - intros [H|[]]; auto.
  - destruct (a =? k)%Z eqn:E; cbn [map fst In].
    + apply Z.eqb_eq in E. subst a. intros [H|H]; auto.
    + intros [H|H]; [auto|]. destruct (IH H); auto.
Qed.

Lemma Map_set_NoDup (k v : Z) (m : Map) :
  List.NoDup (map fst m) -> List.NoDup (map fst (Map_set k v m)).
Proof.
  induction m as [|[a b] m IH]; cbn [Map_set map fst]; intros H.
  - constructor; [intros [] | constructor].
  - destruct (a =? k)%Z eqn:E; cbn [map fst].
    + apply Z.eqb_eq in E. subst a. exact H.
    + inversion H as [|? ? Hin Hnd]; subst. constructor; [|auto].
      intros Hx. apply Map_set_keys in Hx. destruct Hx as [->|Hx]; [|auto].
      rewrite Z.eqb_refl in E. discriminate.
Qed.

Lemma Map_get_In (k v : Z) (m : Map) :
  List.NoDup (map fst m) -> In (k, v) m -> Map_get k m = Some v.
Proof.
  induction m as [|[a b] m IH]; cbn [map fst In Map_get]; [tauto|].
  intros H [E|Hin]; inversion H as [|? ? Hnot Hnd]; subst.
  - injection E as -> ->. now rewrite Z.eqb_refl.
  - destruct (a =? k)%Z eqn:E; [|auto].
    apply Z.eqb_eq in E. subst a. exfalso. apply Hnot.
    change k with (fst (k, v)). now apply in_map.
Qed.

Lemma count_ages_spec (ages : list Z) :
  List.NoDup (map fst (fold_left count_step ages [])) /\
  forall k, Map_get k (fold_left count_step ages []) =
            if (occ k ages =? 0)%Z then None else Some (occ k ages).
Proof.
  unfold occ. induction ages as [|a ages [IHn IHg]] using rev_ind.
  - split; [constructor | reflexivity].
  - rewrite fold_left_app. cbn [fold_left]. unfold count_step at 1 3. cbv zeta.
    split; [now apply Map_set_NoDup|].
    intros k. rewrite Map_get_set, count_occ_app. cbn [count_occ].
    destruct (Z.eq_dec a k) as [->|Hne].
    + rewrite Z.eqb_refl, IHg.
      destruct (Z.of_nat (count_occ Z.eq_dec ages k) =? 0)%Z eqn:E.
      * apply Z.eqb_eq in E. cbn [default].
        assert (count_occ Z.eq_dec ages k = 0%nat) as -> by lia. reflexivity.
      * cbn [default]. apply Z.eqb_neq in E.
        rewrite Nat2Z.inj_add. change (Z.of_nat 1) with 1.
        destruct (Z.of_nat (count_occ Z.eq_dec ages k) + 1 =? 0)%Z eqn:E2; [|reflexivity].
        apply Z.eqb_eq in E2. lia.
    + apply Z.eqb_neq in Hne. rewrite Hne, IHg.
      now rewrite Nat.add_0_r.
Qed.

Lemma count_default (ages : list Z) (k : Z) :
  default 0 (Map_get k (fold_left count_step ages [])) = occ k ages.
Proof.
  rewrite (proj2 (count_ages_spec ages)).
  destruct (occ k ages =? 0)%Z eqn:E; [|reflexivity].
  apply Z.eqb_eq in E. now rewrite E.
Qed.

Lemma count_entries (ages : list Z) (k v : Z) :
  In (k, v) (fold_left count_step ages []) -> v = occ k ages /\ 0 < v.
Proof.
  intros Hin. destruct (count_ages_spec ages) as [Hnd Hget].
  apply (Map_get_In _ _ _ Hnd) in Hin. rewrite Hget in Hin.
  destruct (occ k ages =? 0)%Z eqn:E; [discriminate|].
  injection Hin as <-. apply Z.eqb_neq in E. unfold occ in *. lia.
Qed.

Lemma Map_get_Some_In (k v : Z) (m : Map) : Map_get k m = Some v -> In (k, v) m.
Proof.
  induction m as [|[a b] m IH]; cbn [Map_get In]; [discriminate|].
  destruct (a =? k)%Z eqn:E; [|auto].
  apply Z.eqb_eq in E. subst a. intros [= ->]. now left.
Qed.

(** **** The most common age *)

Lemma best_spec (m : Map) (c0 a0 : Z) :
  let found := fold_left best_step m (c0, a0) in
  c0 <= found.1 /\
  (forall k v, In (k, v) m -> v <= found.1) /\
  (found = (c0, a0) \/ In (found.2, found.1) m).
Proof.
  revert c0 a0. induction m as [|[k v] m IH]; intros c0 a0; cbn [fold_left].
  - cbn. split; [lia|]. split; [tauto | now left].
  - cbn [best_step]. destruct (v >? c0)%Z eqn:E.
    + apply Z.gtb_gt in E. destruct (IH v k) as (H1 & H2 & H3). cbv zeta in *.
      split; [lia|]. split.
      * intros k' v' [[= <- <-]|Hin]; [exact H1 | eauto].
      * right. destruct H3 as [->|H3]; [now left | now right].
    + assert (v <= c0) by (destruct (Z.gtb_spec v c0); [discriminate | lia]).
      destruct (IH c0 a0) as (H1 & H2 & H3). cbv zeta in *.
      split; [exact H1|]. split.
      * intros k' v' [[= <- <-]|Hin]; [lia | eauto].
      * destruct H3 as [->|H3]; [now left | right; now right].
Qed.

(** **** Extremes, sums and rounding *)

Lemma Math_min_spec (first : Z) (rest : list Z) :
  In (Math_min first rest) (first :: rest) /\
  forall x, In x (first :: rest) -> Math_min first rest <= x.
Proof.
  unfold Math_min. revert first.
  induction rest as [|b rest IH]; intros first; cbn [fold_left].
  - split; [now left | intros x [<-|[]]; lia].
  - destruct (IH (Z.min first b)) as [Hin Hle]. split.
    + destruct Hin as [E|Hin]; [|right; now right].
      rewrite <- E. destruct (Z.min_spec first b) as [[_ ->]|[_ ->]];
        [now left | right; now left].
    + intros x [<-|[<-|Hx]].
      * specialize (Hle (Z.min first b) (or_introl eq_refl)). lia.
      * specialize (Hle (Z.min first b) (or_introl eq_refl)). lia.
      * apply Hle. now right.
Qed.

Lemma Math_max_spec (first : Z) (rest : list Z) :
  In (Math_max first rest) (first :: rest) /\
  forall x, In x (first :: rest) -> x <= Math_max first rest.
Proof.
  unfold Math_max. revert first.
  induction rest as [|b rest IH]; intros first; cbn [fold_left].
  - split; [now left | intros x [<-|[]]; lia].
  - destruct (IH (Z.max first b)) as [Hin Hle]. split.
    + destruct Hin as [E|Hin]; [|right; now right].
      rewrite <- E. destruct (Z.max_spec first b) as [[_ ->]|[_ ->]];
        [right; now left | now left].
    + intros x [<-|[<-|Hx]].
      * specialize (Hle (Z.max first b) (or_introl eq_refl)). lia.
      * specialize (Hle (Z.max first b) (or_introl eq_refl)). lia.
      * apply Hle. now right.
Qed.

Lemma sum_between (lo hi : Z) (l : list Z) (s : Z) :
  (forall x, In x l -> lo <= x <= hi) ->
  lo * Z.of_nat (List.length l) + s <= fold_left (fun sum age => sum + age) l s
    <= hi * Z.of_nat (List.length l) + s.
Proof.
  revert s. induction l as [|a l IH]; intros s H; cbn [fold_left List.length].
  - lia.
  - specialize (IH (s + a) (fun x Hx => H x (or_intror Hx))).
    specialize (H a (or_introl eq_refl)). lia.
Qed.

Lemma Qfloor_half (z : Z) : Qfloor (inject_Z z + (1 # 2)) = z.
Proof.
  unfold Qfloor, Qplus, inject_Z. cbn [Qnum Qden].
  change (Z.pos (1 * 2)) with 2. symmetry. apply (Z.div_unique _ _ _ 1); lia.
Qed.

Lemma Math_round_between (lo hi : Z) (x : Q) :
  (inject_Z lo <= x)%Q -> (x <= inject_Z hi)%Q -> lo <= Math_round x <= hi.
Proof.
  intros Hlo Hhi. unfold Math_round. split.
  - rewrite <- (Qfloor_Z lo). apply Qfloor_resp_le.
    apply (Qle_trans _ x); [exact Hlo|].
    rewrite <- (Qplus_0_r x) at 1. apply Qplus_le_r. discriminate.
  - rewrite <- (Qfloor_half hi). apply Qfloor_resp_le.
    apply Qplus_le_l. exact Hhi.
Qed.

Lemma quotient_between (lo hi s n : Z) :
  0 < n -> lo * n <= s <= hi * n ->
  lo <= Math_round (inject_Z s / inject_Z n) <= hi.
Proof.
  intros Hn [Hlo Hhi].
  assert (inject_Z 0 < inject_Z n)%Q as Hq by (rewrite <- Zlt_Qlt; exact Hn).
  apply Math_round_between.
  - apply Qle_shift_div_l; [exact Hq|]. rewrite <- inject_Z_mult, <- Zle_Qle. exact Hlo.
  - apply Qle_shift_div_r; [exact Hq|]. rewrite <- inject_Z_mult, <- Zle_Qle. exact Hhi.
Qed.

(** **** Sorting *)

Lemma insert_In (x a : Z) (l : list Z) : In x (insert a l) <-> x = a \/ In x l.
Proof.
  induction l as [|b l IH]; cbn [insert In]; [intuition|].
  destruct (a <=? b)%Z; cbn [In]; rewrite ?IH; intuition.
Qed.

Lemma sort_In (x : Z) (l : list Z) : In x (sort l) <-> In x l.
Proof.
  induction l as [|a l IH]; cbn [sort In]; [tauto|].
  rewrite insert_In, IH. intuition.
Qed.

Lemma insert_length (a : Z) (l : list Z) : List.length (insert a l) = S (List.length l).
Proof.
  induction l as [|b l IH]; cbn [insert List.length]; [reflexivity|].
  destruct (a <=? b)%Z; cbn [List.length]; [reflexivity | now rewrite IH].
Qed.

Lemma sort_length (l : list Z) : List.length (sort l) = List.length l.
Proof.
  induction l as [|a l IH]; cbn [sort List.length]; [reflexivity|].
  now rewrite insert_length, IH.
Qed.

Lemma sort_lookup (l : list Z) (i : nat) :
  (i < List.length l)%nat -> exists x, sort l !! i = Some x /\ In x l.
Proof.
  intros Hi. destruct (lookup_lt_is_Some_2 (sort l) i) as [x Hx].
  { now rewrite sort_length. }
  exists x. split; [exact Hx|]. apply sort_In.
  apply list_elem_of_In. eapply list_elem_of_lookup_2. exact Hx.
Qed.

(** **** Sums over the distribution *)

Lemma total_cons (x : Z) (l : list Z) : total (x :: l) = x + total l.
Proof. reflexivity. Qed.

Lemma total_zero (a : Z) (l : list Z) :
  ~ In a l -> total (map (fun k => if Z.eq_dec a k then 1 else 0) l) = 0.
Proof.
  induction l as [|c l IH]; intros Hnot; [reflexivity|].
  cbn [map]. rewrite total_cons, IH by (intros H; apply Hnot; now right).
  destruct (Z.eq_dec a c) as [->|_]; [|reflexivity].
  exfalso. apply Hnot. now left.
Qed.

Lemma total_indicator (a : Z) (l : list Z) :
  List.NoDup l -> In a l ->
  total (map (fun k => if Z.eq_dec a k then 1 else 0) l) = 1.
Proof.
  induction l as [|b l IH]; [intros _ []|].
  intros Hnd Hin. inversion Hnd as [|? ? Hnot Hnd']; subst.
  cbn [map]. rewrite total_cons.
  destruct (Z.eq_dec a b) as [->|Hne].
  - now rewrite total_zero.
  - destruct Hin as [->|Hin]; [congruence|]. now rewrite (IH Hnd' Hin).
Qed.

Lemma total_add (f g : Z -> Z) (l : list Z) :
  total (map (fun k => f k + g k) l) = total (map f l) + total (map g l).
Proof.
  induction l as [|k l IH]; [reflexivity|].
  cbn [map]. rewrite !total_cons, IH. lia.
Qed.

Lemma total_occ (keys ages : list Z) :
  List.NoDup keys -> (forall a, In a ages -> In a keys) ->
  total (map (fun k => occ k ages) keys) = Z.of_nat (List.length ages).
Proof.
  intros Hnd. induction ages as [|a ages IH]; intros Hin.
  - cbn [List.length]. clear. induction keys as [|k keys IH]; [reflexivity|].
    cbn [map]. rewrite total_cons, IH. reflexivity.
  - assert (forall k, occ k (a :: ages) = (if Z.eq_dec a k then 1 else 0) + occ k ages) as E.
    { intros k. unfold occ. cbn [count_occ]. destruct (Z.eq_dec a k); lia. }
    rewrite (map_ext _ _ E), total_add, total_indicator, IH; cbn [List.length].
    + lia.
    + intros x Hx. apply Hin. now right.
    + exact Hnd.
    + apply Hin. now left.
Qed.


Section PatientsFacts.

Variable Patient : Type.
Variable age_of : Patient -> Z.

Lemma occ_patients_aged (patients : list Patient) (age : Z) :
  occ age (map age_of patients) = patients_aged age_of patients age.
Proof.
  unfold occ, patients_aged. f_equal.
  induction patients as [|p ps IH]; [reflexivity|].
  cbn [map count_occ List.filter].
  destruct (Z.eq_dec (age_of p) age) as [E|E].
  - apply Z.eqb_eq in E. rewrite E. cbn [List.length]. now rewrite IH.
  - apply Z.eqb_neq in E. rewrite E. exact IH.
Qed.

Lemma In_age (patients : list Patient) (a : Z) :
  In a (map age_of patients) <-> exists p, In p patients /\ age_of p = a.
Proof.
  rewrite in_map_iff. split; intros (p & H1 & H2); exists p; auto.
Qed.

(** The median is a number whenever there is a patient, and lies
    between any bounds of the ages. *)
Lemma median_between (ages : list Z) (lo hi : Z) :
  ages <> [] -> (forall a, In a ages -> lo <= a <= hi) ->
  exists median,
    (if (List.length (sort ages) mod 2 =? 0)%nat
     then below ← sort ages !! (List.length (sort ages) / 2 - 1)%nat;
          above ← sort ages !! (List.length (sort ages) / 2)%nat;
          Some (Math_round (inject_Z (below + above) / inject_Z 2))
     else sort ages !! (List.length (sort ages) / 2)%nat) = Some median /\
    lo <= median <= hi.
Proof.
  intros Hne Hb. rewrite sort_length.
  assert (0 < List.length ages)%nat as Hlen by (destruct ages; [congruence | cbn; lia]).
  assert (List.length ages / 2 < List.length ages)%nat as Hmid
    by (apply Nat.div_lt; lia).
  destruct (sort_lookup ages (List.length ages / 2) Hmid) as (above & Ha & Hain).
  destruct (List.length ages mod 2 =? 0)%nat.
  - destruct (sort_lookup ages (List.length ages / 2 - 1)) as (below & Hbl & Hbin); [lia|].
    rewrite Hbl, Ha. cbn [mbind option_bind]. eexists. split; [reflexivity|].
    apply quotient_between; [lia|].
    pose proof (Hb _ Hain). pose proof (Hb _ Hbin). lia.
  - exists above. split; [exact Ha | auto].
Qed.

(** X28.  The age distribution of the dashboard is a histogram of the
    patients.  For a non-empty list of patients it has one row for every
    whole age from the youngest to the oldest patient, in ascending
    order and without gaps; the count of a row is the number of patients
    of that age, so ages nobody has are listed with count zero; and the
    counts add up to the number of patients.  For an empty list the
    statistics block is skipped. *)
Theorem age_distribution_is_histogram (first : Patient) (rest : list Patient) :
  let patients := first :: rest in
  ageStatistics Patient age_of [] = None /\
  exists distribution stats selected,
    ageStatistics Patient age_of patients = Some (distribution, stats, selected) /\
    map fst distribution =
      seqZ (range stats).1 ((range stats).2 - (range stats).1 + 1) /\
    (forall age count, In (age, count) distribution ->
       count = patients_aged age_of patients age) /\
    (forall patient, In patient patients ->
       In (age_of patient, patients_aged age_of patients (age_of patient)) distribution) /\
    total (map snd distribution) = Z.of_nat (List.length patients).
Proof.
  cbv zeta. split; [reflexivity|].
  unfold ageStatistics. cbn [map].
  set (ages := age_of first :: map age_of rest).
  change (age_of first :: map age_of rest) with (map age_of (first :: rest)) in ages.
  assert (ages <> []) as Hne by discriminate.
  destruct (Math_min_spec (age_of first) (map age_of rest)) as [Hmin_in Hmin].
  destruct (Math_max_spec (age_of first) (map age_of rest)) as [Hmax_in Hmax].
  set (minAge := Math_min (age_of first) (map age_of rest)) in *.
  set (maxAge := Math_max (age_of first) (map age_of rest)) in *.
  destruct (median_between ages minAge maxAge Hne) as (median & -> & _).
  { intros a Ha. split; [now apply Hmin | now apply Hmax]. }
  cbn [mbind option_bind].
  eexists _, _, _. split; [reflexivity|]. cbn [range fst snd].
  assert (forall a, In a ages -> In a (seqZ minAge (maxAge - minAge + 1))) as Hcover.
  { intros a Ha. apply list_elem_of_In, elem_of_seqZ.
    pose proof (Hmin a Ha). pose proof (Hmax a Ha). lia. }
  split; [|split; [|split]].
  - rewrite map_map. cbn [fst]. apply map_id.
  - intros age count Hin. apply in_map_iff in Hin. destruct Hin as (k & [= <- <-] & _).
    exact (eq_trans (count_default ages k) (occ_patients_aged (first :: rest) k)).
  - intros p Hp. apply in_map_iff. exists (age_of p). split.
    + f_equal.
      exact (eq_trans (count_default ages _) (occ_patients_aged (first :: rest) _)).
    + apply Hcover. subst ages. now apply in_map.
  - rewrite map_map. cbn [snd].
    rewrite (map_ext _ (fun k => occ k ages)) by (intros k; apply count_default).
    rewrite total_occ.
    + subst ages. now rewrite length_map.
    + apply NoDup_ListNoDup, NoDup_seqZ.
    + exact Hcover.
Qed.

(** X29.  The age statistics of the dashboard are statistics of the
    patients.  For a non-empty list of patients the range runs from the
    age of the youngest patient to that of the oldest; the mean and the
    median are whole numbers within that range; the mode is the age of
    some patient, and no age is shared by more patients than the mode
    is.  The selected age range is set to the full range, so that the
    age filter then lets every patient through. *)
Theorem age_statistics_are_sound (first : Patient) (rest : list Patient) :
  let patients := first :: rest in
  exists distribution stats selected,
    ageStatistics Patient age_of patients = Some (distribution, stats, selected) /\
    selected = range stats /\
    (exists youngest, In youngest patients /\ age_of youngest = (range stats).1) /\
    (exists oldest, In oldest patients /\ age_of oldest = (range stats).2) /\
    (forall patient, In patient patients ->
       (range stats).1 <= age_of patient <= (range stats).2) /\
    (range stats).1 <= mean stats <= (range stats).2 /\
    (range stats).1 <= median stats <= (range stats).2 /\
    (exists patient, In patient patients /\ age_of patient = mode stats) /\
    (forall age, patients_aged age_of patients age
                 <= patients_aged age_of patients (mode stats)) /\
    filteredPatients Patient age_of patients selected = patients.
Proof.
  cbv zeta. unfold ageStatistics. cbn [map].
  set (ages := age_of first :: map age_of rest).
  change (age_of first :: map age_of rest) with (map age_of (first :: rest)) in ages.
  assert (ages <> []) as Hne by discriminate.
  destruct (Math_min_spec (age_of first) (map age_of rest)) as [Hmin_in Hmin].
  destruct (Math_max_spec (age_of first) (map age_of rest)) as [Hmax_in Hmax].
  set (minAge := Math_min (age_of first) (map age_of rest)) in *.
  set (maxAge := Math_max (age_of first) (map age_of rest)) in *.
  assert (forall a, In a ages -> minAge <= a <= maxAge) as Hb.
  { intros a Ha. split; [now apply Hmin | now apply Hmax]. }
  destruct (median_between ages minAge maxAge Hne Hb) as (med & -> & Hmed).
  cbn [mbind option_bind].
  eexists _, _, _. split; [reflexivity|]. cbn [range mean Dashboard.median mode fst snd].
  split; [reflexivity|].
  split; [now apply In_age|]. split; [now apply In_age|].
  assert (forall p, In p (first :: rest) -> minAge <= age_of p <= maxAge) as Hp.
  { intros p Hin. apply Hb. subst ages. now apply in_map. }
  split; [exact Hp|]. split.
  { apply quotient_between.
    - subst ages. cbn [map List.length]. lia.
    - pose proof (sum_between minAge maxAge ages 0 Hb). lia. }
  split; [exact Hmed|].
  (* the mode *)
  pose proof (best_spec (fold_left count_step ages []) 0 0) as (_ & Hall & Hfound).
  cbv zeta in Hall, Hfound.
  set (found := fold_left best_step (fold_left count_step ages []) (0, 0)) in *.
  assert (0 < occ (age_of first) ages) as Hfirst.
  { unfold occ. subst ages. cbn [map count_occ].
    destruct (Z.eq_dec (age_of first) (age_of first)); [lia | congruence]. }
  assert (In (age_of first, occ (age_of first) ages) (fold_left count_step ages [])) as Hentry.
  { apply Map_get_Some_In. rewrite (proj2 (count_ages_spec ages)).
    destruct (occ (age_of first) ages =? 0)%Z eqn:E; [|reflexivity].
    apply Z.eqb_eq in E. lia. }
  assert (In (found.2, found.1) (fold_left count_step ages [])) as Hmode.
  { destruct Hfound as [E|H]; [|exact H].
    specialize (Hall _ _ Hentry). rewrite E in Hall. cbn [fst] in Hall. lia. }
  destruct (count_entries ages _ _ Hmode) as [Hcount Hpos].
  split; [|split].
  - apply In_age. unfold occ in Hcount.
    destruct (in_dec Z.eq_dec found.2 ages) as [Hin|Hnot]; [exact Hin|].
    apply (count_occ_not_In Z.eq_dec) in Hnot. lia.
  - intros age. rewrite <- !occ_patients_aged. fold ages. rewrite <- Hcount.
    destruct (Z.eq_dec (occ age ages) 0) as [E|E]; [lia|].
    apply Hall with (k := age). apply Map_get_Some_In.
    rewrite (proj2 (count_ages_spec ages)).
    apply Z.eqb_neq in E. now rewrite E.
  - unfold filteredPatients. cbn [fst snd].
    assert (forall l : list Patient, (forall p, In p l -> minAge <= age_of p <= maxAge) ->
              List.filter (fun patient => (minAge <=? age_of patient)%Z
                                          && (age_of patient <=? maxAge)%Z) l = l) as Hall_in.
    { induction l as [|p l IH]; intros H; [reflexivity|].
      cbn [List.filter].
      destruct (H p (or_introl eq_refl)) as [H1 H2].
      apply Z.leb_le in H1, H2. rewrite H1, H2. cbn [andb].
      f_equal. apply IH. intros q Hq. apply H. now right. }
    apply Hall_in. exact Hp.
Qed.

End PatientsFacts.

End DashboardFacts.

(** ** Data table: paging *)

Module DataTableFacts.
Import DataTable.

Lemma rows_take_drop {T : Type} (data : list T) (p r : nat) :
  rows data (mkState p r) = take r (drop (p * r) data).
Proof.
  unfold rows, slice. cbn [page rowsPerPage]. f_equal. lia.
Qed.

Lemma pages_concat {T : Type} (data : list T) (r n : nat) :
  concat (map (fun p => rows data (mkState p r)) (seq 0 n)) = take (n * r) data.
Proof.
  induction n as [|n IH].
  - reflexivity.
  - rewrite seq_S, map_app, concat_app, IH. cbn [map concat Nat.add].
    rewrite app_nil_r, rows_take_drop.
    replace (S n * r)%nat with (n * r + r)%nat by lia.
    apply take_take_drop.
Qed.

(** X30.  Paging shows every row exactly once.  With a positive number
    of rows per page, a page never has more rows than that; the pages in
    order, as many as it takes to cover the data, put end to end give the
    data back; and a page is empty exactly when it starts at or beyond
    the end of the data, which is what is shown when rows have gone and
    the page number has stayed.  Changing the number of rows per page
    goes back to the first page. *)
Theorem paging_partitions_data {T : Type} (data : list T) (p r n v : nat) :
  let s := mkState p (S r) in
  (List.length (rows data s) <= S r)%nat /\
  ((List.length data <= n * S r)%nat ->
   concat (map (fun q => rows data (handleChangePage q s)) (seq 0 n)) = data) /\
  (rows data s = [] <-> (List.length data <= p * S r)%nat) /\
  rows data (handleChangeRowsPerPage v s) = take v data.
Proof.
  cbv zeta. split; [|split; [|split]].
  - rewrite rows_take_drop, length_take. lia.
  - intros Hn. unfold handleChangePage. cbn [rowsPerPage].
    rewrite pages_concat. now apply take_ge.
  - rewrite rows_take_drop. split.
    + intros H. apply (f_equal List.length) in H.
      rewrite length_take, length_drop in H. cbn [List.length] in H. lia.
    + intros H. rewrite drop_ge by exact H. reflexivity.
  - unfold handleChangeRowsPerPage. cbv zeta. cbn [rowsPerPage page].
    rewrite rows_take_drop. reflexivity.
Qed.

End DataTableFacts.

(** ** The hypotheses of the further theorems are met *)

(** X3 at the state the provider mounts in, which is coherent, with a
    token whose payload is [null]. *)
Lemma session_operations_keep_coherence_witness :
  let w := fresh ∅ "/" 0 in
  let token := "x.bnVsbA==.y" in
  coherent w /\
  coherent (initialize JwtDecode.jwtDecode w).2 /\
  coherent (logout w).2 /\
  (decode JwtDecode.jwtDecode token <> Some Null ->
   coherent (login JwtDecode.jwtDecode token w).2) /\
  (decode JwtDecode.jwtDecode token = Some Null ->
   isAuthenticated (login JwtDecode.jwtDecode token w).2 = true /\
   user (login JwtDecode.jwtDecode token w).2 = user w /\
   (coherent (login JwtDecode.jwtDecode token w).2 <-> isAuthenticated w = true)).
Proof.
  cbv zeta.
  assert (coherent (fresh ∅ "/" 0)) as Hw.
  { unfold coherent. simpl. split; [discriminate | intros [u Hu]; discriminate Hu]. }
  split; [exact Hw|].
  exact (session_operations_keep_coherence JwtDecode.jwtDecode (fresh ∅ "/" 0)
           "x.bnVsbA==.y" Hw).
Defined.

(** X5 at the sample token: logged in with an empty storage, reloaded one
    second after the token was minted. *)
Lemma login_survives_reload_witness :
  let p := JwtPayload.mk "admin" "admin" "Administrator" (inject_Z 86400) in
  let logged := (login JwtDecode.jwtDecode sample_token (fresh ∅ "/" 0)).2 in
  let reloaded :=
    (initialize JwtDecode.jwtDecode (fresh (localStorage logged) "/" 1000)).2 in
  (sample_token <> "" /\ JwtDecode.jwtDecode sample_token = Some p) /\
  user logged = Some (User.mk (JwtPayload.nameid p) (JwtPayload.unique_name p)
                              (JwtPayload.role p)) /\
  (isAuthenticated reloaded = true ->
   user reloaded = user logged /\
   localStorage reloaded = localStorage logged /\
   (1000 # 1000 < JwtPayload.exp p)%Q) /\
  (((1000 + 1) # 1000 <= JwtPayload.exp p)%Q -> isAuthenticated reloaded = true) /\
  (forall e : Z, (JwtPayload.exp p == inject_Z e)%Q -> 1000 < e * 1000 ->
   isAuthenticated reloaded = true) /\
  ((JwtPayload.exp p <= 1000 # 1000)%Q ->
   isAuthenticated reloaded = false /\
   user reloaded = None /\
   localStorage reloaded !! "token" = None).
Proof.
  cbv zeta.
  assert (sample_token <> "") as Hne by (unfold sample_token; discriminate).
  assert (JwtDecode.jwtDecode sample_token
          = Some (JwtPayload.mk "admin" "admin" "Administrator" (inject_Z 86400))) as Hd
    by (vm_compute; reflexivity).
  split; [split; assumption|].
  exact (login_survives_reload JwtDecode.jwtDecode sample_token _ (fresh ∅ "/" 0) "/" 1000
           Hne Hd).
Defined.

(** X19 for the credentials [alice] and [secret], with no token in
    storage and a service that does not answer. *)
Lemma handleSubmit_remote_never_throws_witness :
  let w := fresh ∅ "/login" 0 in
  let server := fun _ : AxiosRequestConfig => @None AxiosResponse in
  let out := handleSubmit JwtDecode.jwtDecode server "alice" "secret" w in
  ("alice" <> "" /\ "secret" <> "" /\ ~ ("alice" = "admin" /\ "secret" = "admin")) /\
  exists sent effects,
    login_request "alice" "secret" (localStorage w) sent /\
    out.1 = Normal tt /\
    loading out.2 = false /\
    trace out.2 = trace w ++ [SetError None; SetLoading true; HttpSend sent]
                          ++ effects ++ [SetLoading false] /\
    requests (trace out.2) = requests (trace w) ++ [sent].
Proof.
  cbv zeta.
  assert ("alice" <> "") as Hu by discriminate.
  assert ("secret" <> "") as Hp by discriminate.
  assert (~ ("alice" = "admin" /\ "secret" = "admin")) as Hadm
    by (intros [H _]; discriminate H).
  split; [repeat split; assumption|].
  exact (handleSubmit_remote_never_throws JwtDecode.jwtDecode (fun _ => None)
           "alice" "secret" (fresh ∅ "/login" 0) Hu Hp Hadm).
Defined.

(** X20 for the credentials [alice] and [secret] and a service that
    answers 200 with the body [null]: reading the token throws, and the
    message is the one for an unexpected error. *)
Lemma handleSubmit_error_message_witness :
  let w := fresh ∅ "/login" 0 in
  let server := fun _ : AxiosRequestConfig => Some (mkResponse 200 data_null) in
  ("alice" <> "" /\ "secret" <> "" /\ ~ ("alice" = "admin" /\ "secret" = "admin")) /\
  exists sent,
    login_request "alice" "secret" (localStorage w) sent /\
    error (handleSubmit JwtDecode.jwtDecode server "alice" "secret" w).2 =
      Some "An unexpected error occurred".
Proof.
  cbv zeta.
  assert ("alice" <> "") as Hu by discriminate.
  assert ("secret" <> "") as Hp by discriminate.
  assert (~ ("alice" = "admin" /\ "secret" = "admin")) as Hadm
    by (intros [H _]; discriminate H).
  split; [repeat split; assumption|].
  exact (handleSubmit_error_message JwtDecode.jwtDecode
           (fun _ => Some (mkResponse 200 data_null))
           "alice" "secret" (fresh ∅ "/login" 0) Hu Hp Hadm).
Defined.

(** X21 for the credentials [alice] and [secret] and a service that
    answers 200 with a token whose payload is [null]: the token is
    stored and the flag is raised, with no user and no navigation. *)
Lemma handleSubmit_session_effect_witness :
  let w := fresh ∅ "/login" 0 in
  let token := "x.bnVsbA==.y" in
  let server := fun _ : AxiosRequestConfig =>
                  Some (mkResponse 200 (mkData (Some token) None)) in
  let out := (handleSubmit JwtDecode.jwtDecode server "alice" "secret" w).2 in
  ("alice" <> "" /\ "secret" <> "" /\ ~ ("alice" = "admin" /\ "secret" = "admin")) /\
  exists sent,
    login_request "alice" "secret" (localStorage w) sent /\
    (session out, href out, route out) =
      ((<["token" := token]> (localStorage w), true, None), "/login", "/login").
Proof.
  cbv zeta.
  assert ("alice" <> "") as Hu by discriminate.
  assert ("secret" <> "") as Hp by discriminate.
  assert (~ ("alice" = "admin" /\ "secret" = "admin")) as Hadm
    by (intros [H _]; discriminate H).
  split; [repeat split; assumption|].
  exact (handleSubmit_session_effect JwtDecode.jwtDecode
           (fun _ => Some (mkResponse 200 (mkData (Some "x.bnVsbA==.y") None)))
           "alice" "secret" (fresh ∅ "/login" 0) Hu Hp Hadm).
Defined.
